(** * Bus-Departure-Board: the row animators, the board controller and the
      fetch pipeline of [ojp_departures.py], embedded and verified.

    The development follows the source file from its leaves upwards:
    service records, the partition of the service list into a pinned and a
    rotating part, the update queue, the fetch pipeline, the synchroniser,
    the per-row animation state machine ([ScrollTime]) and at last the
    board controller ([boardFixed]). *)

From Stdlib Require Import ZArith Lia.
From stdpp Require Import gmap strings list sorting.

Local Open Scope string_scope.
Local Open Scope list_scope.
Local Open Scope Z_scope.

(** ** Service records *)

(** One record per arrival, as built by [LiveTime.__init__].  Instants are
    integers (seconds); [ExptArrival] is [None] when the record carries no
    estimate. *)
Record Service := mkService {
  ID : string;
  ServiceNumber : string;
  Destination : string;
  Via : string;
  DisplayTime : string;
  SchArrival : Z;
  ExptArrival : option Z
}.

#[global] Instance Service_eq_dec : EqDecision Service.
Proof. solve_decision. Defined.

(** [LiveTimeStud()]: the blank record, every text a single space and the
    ID ["0"].  Its arrival fields are never read. *)
Definition LiveTimeStud : Service :=
  mkService "0" " " " " " " " " 0 None.

(** The key of [data.sort] in [fetch_and_sort_services]:
    [svc.ExptArrival if svc.ExptArrival else svc.SchArrival]. *)
Definition sort_key (svc : Service) : Z :=
  match ExptArrival svc with
  | Some e => e
  | None => SchArrival svc
  end.

Definition arrives_before (a b : Service) : Prop := sort_key a ≤ sort_key b.

#[global] Instance arrives_before_dec : RelDecision arrives_before.
Proof. intros a b. unfold arrives_before. apply _. Defined.

#[global] Instance arrives_before_trans : Transitive arrives_before.
Proof. intros a b c. unfold arrives_before. lia. Qed.

(** ** Pinned / rotating partition *)

Module Partition.

(** The loop of [split_pinned_rotating] that removes duplicates: the list
    built so far and the set of IDs seen so far are threaded through. *)
Fixpoint unique_loop (rotating unique_rotating : list Service)
    (seen_ids : gset string) : list Service :=
  match rotating with
  | [] => unique_rotating
  | svc :: rest =>
      if decide (ID svc ∈ seen_ids)
      then unique_loop rest unique_rotating seen_ids
      else unique_loop rest (unique_rotating ++ [svc]) ({[ID svc]} ∪ seen_ids)
  end.

(** [boardFixed.split_pinned_rotating], on the value of [self.Services]. *)
Definition split_pinned_rotating (Services : list Service)
    : option Service * list Service :=
  match Services with
  | [] => (None, [])
  | pinned :: rotating =>
      let rotating := filter (λ svc, ID svc ≠ ID pinned) rotating in
      (Some pinned, unique_loop rotating [] ∅)
  end.

(** The rotating list in the words of the specification: of the records
    after the head, keep the first occurrence of each ID, and drop those
    that carry the pinned ID.  [earlier] holds the records already passed. *)
Fixpoint keep_first_occurrences (earlier l : list Service) : list Service :=
  match l with
  | [] => []
  | x :: r =>
      if decide (ID x ∈ ID <$> earlier)
      then keep_first_occurrences (earlier ++ [x]) r
      else x :: keep_first_occurrences (earlier ++ [x]) r
  end.

Definition rotating_spec (pinned : Service) (tail : list Service) : list Service :=
  filter (λ svc, ID svc ≠ ID pinned) (keep_first_occurrences [] tail).

End Partition.

(** ** Exceptions and the state-and-exception monad *)

(** The exception classes the program names or can meet.  [Suspended] is
    not a Python exception: it marks a coroutine that waits (for a free
    queue slot) and does not continue. *)
Inductive exn_class :=
| CancelledError            (* asyncio.CancelledError *)
| RequestsConnectionError   (* requests.exceptions.ConnectionError *)
| RequestException          (* any other subclass of RequestException *)
| ValueError
| AttributeError
| IndexError
| QueueEmpty
| OtherException            (* any other subclass of Exception *)
| Suspended.

#[global] Instance exn_class_eq_dec : EqDecision exn_class.
Proof. solve_decision. Defined.

(** An exception object: its class and [str(e)]. *)
Record exn := mkExn { exn_cls : exn_class; exn_str : string }.

#[global] Instance exn_eq_dec : EqDecision exn.
Proof. solve_decision. Defined.

(** [isinstance(e, RequestException)] *)
Definition is_RequestException (e : exn) : bool :=
  bool_decide (exn_cls e = RequestsConnectionError ∨ exn_cls e = RequestException).

(** [isinstance(e, Exception)]: [CancelledError] derives from
    [BaseException] only. *)
Definition is_Exception (e : exn) : bool :=
  bool_decide (exn_cls e ≠ CancelledError ∧ exn_cls e ≠ Suspended).

(** A computation reads and writes a state [S] and either returns or
    raises; the state written before a [raise] stays written, as Python
    leaves mutated objects mutated. *)
Definition M (S A : Type) : Type := S → (exn + A) * S.

#[global] Instance M_ret {S} : MRet (M S) := λ A a s, (inr a, s).
#[global] Instance M_bind {S} : MBind (M S) :=
  λ A B f m s,
    match m s with
    | (inl e, s') => (inl e, s')
    | (inr a, s') => f a s'
    end.

Definition raise {S A} (e : exn) : M S A := λ s, (inl e, s).
Definition get {S} : M S S := λ s, (inr s, s).
Definition modify {S} (f : S → S) : M S unit := λ s, (inr tt, f s).
Definition pass {S} : M S unit := mret tt.

(** [try: body except <classes in catches>: handler] *)
Definition try_except {S A} (body : M S A) (catches : exn → bool)
    (handler : exn → M S A) : M S A :=
  λ s,
    match body s with
    | (inl e, s') => if catches e then handler e s' else (inl e, s')
    | r => r
    end.

(** [try: body finally: fin] *)
Definition try_finally {S A} (body : M S A) (fin : M S unit) : M S A :=
  λ s,
    let '(r, s') := body s in
    match fin s' with
    | (inl e, s'') => (inl e, s'')
    | (inr _, s'') => (r, s'')
    end.

(** Python truthiness of an optional string ([if self.outage_state:]). *)
Definition truthy (o : option string) : bool :=
  match o with
  | Some s => bool_decide (s ≠ "")
  | None => false
  end.

(** [l[i]] with Python's negative indices and [IndexError]. *)
Definition py_index {A} (l : list A) (i : Z) : option A :=
  let len := Z.of_nat (length l) in
  if decide (0 ≤ i < len) then l !! Z.to_nat i
  else if decide (- len ≤ i < 0) then l !! Z.to_nat (len + i)
  else None.

Definition getitem {S A} (l : list A) (i : Z) : M S A :=
  match py_index l i with
  | Some x => mret x
  | None => raise (mkExn IndexError "list index out of range")
  end.

(** ** The update queue: [asyncio.Queue] *)

(** What travels on the queue: the two dict shapes built by
    [fetch_and_sort_services]. *)
Inductive Update :=
| UData (payload : list Service)           (* {"type": "data", "payload": ...} *)
| UError (reason : string) (details : string). (* {"type": "error", ...} *)

#[global] Instance Update_eq_dec : EqDecision Update.
Proof. solve_decision. Defined.

Module Queue.

Record t := mk {
  items : list Update;       (* the deque, oldest first *)
  unfinished_tasks : Z;      (* _unfinished_tasks *)
  maxsize : Z
}.

Definition new (maxsize : Z) : t := mk [] 0 maxsize.

Definition empty (q : t) : bool := bool_decide (items q = []).

Definition full (q : t) : bool :=
  if decide (maxsize q ≤ 0) then false
  else bool_decide (maxsize q ≤ Z.of_nat (length (items q))).

Definition get_nowait : M t Update :=
  λ q,
    match items q with
    | [] => (inl (mkExn QueueEmpty ""), q)
    | x :: rest => (inr x, mk rest (unfinished_tasks q) (maxsize q))
    end.

Definition task_done : M t unit :=
  λ q,
    if decide (unfinished_tasks q ≤ 0)
    then (inl (mkExn ValueError "task_done() called too many times"), q)
    else (inr tt, mk (items q) (unfinished_tasks q - 1) (maxsize q)).

(** [await queue.put(item)]: stores the item when a slot is free, and
    otherwise waits for a consumer. *)
Definition put (item : Update) : M t unit :=
  λ q,
    if full q then (inl (mkExn Suspended "put"), q)
    else (inr tt, mk (items q ++ [item]) (unfinished_tasks q + 1) (maxsize q)).

End Queue.

(** ** Visual elements *)

(** What a [ComposableImage] was built from. *)
Inductive ImageContent :=
| StaticTextImage (service previous_service : Service) (* the two-line banner *)
| RectangleCover
| TextImageComplex (destination via : string)
| TextImageServiceNumber (text : string)
| TextImage (text : string)
| NoService
| OutageImage (reason : string) (details : option string).

#[global] Instance ImageContent_eq_dec : EqDecision ImageContent.
Proof. solve_decision. Defined.

(** A [ComposableImage] object.  [img_id] is the identity of the object:
    Python compares these objects by identity. *)
Record ComposableImage := mkImage {
  img_id : nat;
  img_content : ImageContent;
  img_position : Z * Z;
  img_width : Z
}.

#[global] Instance ComposableImage_eq_dec : EqDecision ComposableImage.
Proof. solve_decision. Defined.

(** The banner test used by the statements on card changes. *)
Definition is_banner (img : ComposableImage) : bool :=
  match img_content img with
  | StaticTextImage _ _ => true
  | _ => false
  end.

(** [list.remove(x)] by identity: the first occurrence goes; [None] when
    there is none ([ValueError]). *)
Fixpoint remove_first (id : nat) (l : list ComposableImage)
    : option (list ComposableImage) :=
  match l with
  | [] => None
  | x :: r =>
      if decide (img_id x = id) then Some r
      else cons x <$> remove_first id r
  end.

(** ** The synchroniser *)

(** Rows are keyed by their [position]: a row object lives exactly as long
    as the board slot of its position holds it, so the weak dictionary has
    at most one live key per position. *)
Module Synchroniser.

Definition busy (task : Z) (synchronised : gmap Z bool) : gmap Z bool :=
  <[task := false]> synchronised.

Definition ready (task : Z) (synchronised : gmap Z bool) : gmap Z bool :=
  <[task := true]> synchronised.

Definition forget (task : Z) (synchronised : gmap Z bool) : gmap Z bool :=
  delete task synchronised.

(** [all(self.synchronised.values())] *)
Definition is_synchronised (synchronised : gmap Z bool) : bool :=
  bool_decide (map_Forall (λ _ v, v = true) synchronised).

End Synchroniser.

(** ** Row and board records *)

(** The named slots of the board: [self.top], [self.middle], [self.bottom]. *)
Inductive slot := Top | Middle | Bottom.

#[global] Instance slot_eq_dec : EqDecision slot.
Proof. solve_decision. Defined.

Module ScrollTime.

Inductive AnimState :=
| WAIT_OPENING | OPENING_SCROLL | OPENING_END | SCROLL_DECIDER
| SCROLLING_WAIT | SCROLLING | WAIT_SYNC
| WAIT_STUD | STUD_SCROLL | STUD_END
| STUD.

#[global] Instance AnimState_eq_dec : EqDecision AnimState.
Proof. solve_decision. Defined.

(** The attributes of a [ScrollTime] object.  [IStaticOld] is [None]
    after [del self.IStaticOld]; [partner] names the slot of the row
    below. *)
Record t := mk {
  speed : Z;
  position : Z;
  rectangle : ComposableImage;
  CurrentService : Service;
  IDestination : ComposableImage;
  IServiceNumber : ComposableImage;
  IDisplayTime : ComposableImage;
  IStaticOld : option ComposableImage;
  max_pos : Z;
  image_y_posA : Z;
  image_x_pos : Z;
  partner : option slot;
  delay : Z;
  ticks : Z;
  state : AnimState
}.

Definition set_state (v : AnimState) (r : t) : t :=
  mk (speed r) (position r) (rectangle r) (CurrentService r) (IDestination r)
     (IServiceNumber r) (IDisplayTime r) (IStaticOld r) (max_pos r)
     (image_y_posA r) (image_x_pos r) (partner r) (delay r) (ticks r) v.
#[global] Arguments set_state _ _ /.

Definition set_ticks (v : Z) (r : t) : t :=
  mk (speed r) (position r) (rectangle r) (CurrentService r) (IDestination r)
     (IServiceNumber r) (IDisplayTime r) (IStaticOld r) (max_pos r)
     (image_y_posA r) (image_x_pos r) (partner r) (delay r) v (state r).
#[global] Arguments set_ticks _ _ /.

Definition set_partner (v : option slot) (r : t) : t :=
  mk (speed r) (position r) (rectangle r) (CurrentService r) (IDestination r)
     (IServiceNumber r) (IDisplayTime r) (IStaticOld r) (max_pos r)
     (image_y_posA r) (image_x_pos r) v (delay r) (ticks r) (state r).
#[global] Arguments set_partner _ _ /.

Definition set_image_x_pos (v : Z) (r : t) : t :=
  mk (speed r) (position r) (rectangle r) (CurrentService r) (IDestination r)
     (IServiceNumber r) (IDisplayTime r) (IStaticOld r) (max_pos r)
     (image_y_posA r) v (partner r) (delay r) (ticks r) (state r).
#[global] Arguments set_image_x_pos _ _ /.

Definition set_image_y_posA (v : Z) (r : t) : t :=
  mk (speed r) (position r) (rectangle r) (CurrentService r) (IDestination r)
     (IServiceNumber r) (IDisplayTime r) (IStaticOld r) (max_pos r)
     v (image_x_pos r) (partner r) (delay r) (ticks r) (state r).
#[global] Arguments set_image_y_posA _ _ /.

Definition set_max_pos (v : Z) (r : t) : t :=
  mk (speed r) (position r) (rectangle r) (CurrentService r) (IDestination r)
     (IServiceNumber r) (IDisplayTime r) (IStaticOld r) v
     (image_y_posA r) (image_x_pos r) (partner r) (delay r) (ticks r) (state r).
#[global] Arguments set_max_pos _ _ /.

Definition set_IStaticOld (v : option ComposableImage) (r : t) : t :=
  mk (speed r) (position r) (rectangle r) (CurrentService r) (IDestination r)
     (IServiceNumber r) (IDisplayTime r) v (max_pos r)
     (image_y_posA r) (image_x_pos r) (partner r) (delay r) (ticks r) (state r).
#[global] Arguments set_IStaticOld _ _ /.

Definition set_IDisplayTime (v : ComposableImage) (r : t) : t :=
  mk (speed r) (position r) (rectangle r) (CurrentService r) (IDestination r)
     (IServiceNumber r) v (IStaticOld r) (max_pos r)
     (image_y_posA r) (image_x_pos r) (partner r) (delay r) (ticks r) (state r).
#[global] Arguments set_IDisplayTime _ _ /.

Definition set_IServiceNumber (v : ComposableImage) (r : t) : t :=
  mk (speed r) (position r) (rectangle r) (CurrentService r) (IDestination r)
     v (IDisplayTime r) (IStaticOld r) (max_pos r)
     (image_y_posA r) (image_x_pos r) (partner r) (delay r) (ticks r) (state r).
#[global] Arguments set_IServiceNumber _ _ /.

Definition set_IDestination (v : ComposableImage) (r : t) : t :=
  mk (speed r) (position r) (rectangle r) (CurrentService r) v
     (IServiceNumber r) (IDisplayTime r) (IStaticOld r) (max_pos r)
     (image_y_posA r) (image_x_pos r) (partner r) (delay r) (ticks r) (state r).
#[global] Arguments set_IDestination _ _ /.

Definition set_CurrentService (v : Service) (r : t) : t :=
  mk (speed r) (position r) (rectangle r) v (IDestination r)
     (IServiceNumber r) (IDisplayTime r) (IStaticOld r) (max_pos r)
     (image_y_posA r) (image_x_pos r) (partner r) (delay r) (ticks r) (state r).
#[global] Arguments set_CurrentService _ _ /.

End ScrollTime.

Module boardFixed.

(** The attributes of a [boardFixed] object, together with the objects it
    shares with its rows (the image composition, the synchroniser) and the
    class attributes of [LiveTime] that the controller reads and writes.
    The three [asyncio.Lock]s are left out: every method below runs to its
    end inside one call of the tick loop, so no lock is ever contended. *)
Record t := mk {
  (* the three ScrollTime rows *)
  top : option ScrollTime.t;
  middle : option ScrollTime.t;
  bottom : option ScrollTime.t;
  (* the full list of fetched services *)
  Services : list Service;
  State : string;
  ticks : Z;
  update_queue : Queue.t;
  rotating_index : Z;
  rotating_update_pending : bool;
  outage_state : option string;
  outage_details : option string;
  outage_overlay : option ComposableImage;
  network_state : string;
  network_details : option string;
  (* [Some done] while a task object is held *)
  _fetch_task : option bool;
  (* the ImageComposition shared by the board and its rows *)
  composed_images : list ComposableImage;
  (* the [offset] attribute of each image object, by identity *)
  image_offsets : gmap nat (Z * Z);
  (* the identity the next image object gets *)
  next_image : nat;
  (* the Synchroniser's dictionary *)
  synchronised : gmap Z bool;
  (* the class attributes of LiveTime *)
  FetchInProgress : bool;
  LastUpdate : Z
}.

Definition set_top (v : option ScrollTime.t) (b : t) : t :=
  mk v (middle b) (bottom b) (Services b) (State b) (ticks b) (update_queue
     b) (rotating_index b) (rotating_update_pending b) (outage_state b)
     (outage_details b) (outage_overlay b) (network_state b)
     (network_details b) (_fetch_task b) (composed_images b) (image_offsets
     b) (next_image b) (synchronised b) (FetchInProgress b) (LastUpdate b).
#[global] Arguments set_top _ _ /.

Definition set_middle (v : option ScrollTime.t) (b : t) : t :=
  mk (top b) v (bottom b) (Services b) (State b) (ticks b) (update_queue b)
     (rotating_index b) (rotating_update_pending b) (outage_state b)
     (outage_details b) (outage_overlay b) (network_state b)
     (network_details b) (_fetch_task b) (composed_images b) (image_offsets
     b) (next_image b) (synchronised b) (FetchInProgress b) (LastUpdate b).
#[global] Arguments set_middle _ _ /.

Definition set_bottom (v : option ScrollTime.t) (b : t) : t :=
  mk (top b) (middle b) v (Services b) (State b) (ticks b) (update_queue b)
     (rotating_index b) (rotating_update_pending b) (outage_state b)
     (outage_details b) (outage_overlay b) (network_state b)
     (network_details b) (_fetch_task b) (composed_images b) (image_offsets
     b) (next_image b) (synchronised b) (FetchInProgress b) (LastUpdate b).
#[global] Arguments set_bottom _ _ /.

Definition set_Services (v : list Service) (b : t) : t :=
  mk (top b) (middle b) (bottom b) v (State b) (ticks b) (update_queue b)
     (rotating_index b) (rotating_update_pending b) (outage_state b)
     (outage_details b) (outage_overlay b) (network_state b)
     (network_details b) (_fetch_task b) (composed_images b) (image_offsets
     b) (next_image b) (synchronised b) (FetchInProgress b) (LastUpdate b).
#[global] Arguments set_Services _ _ /.

Definition set_State (v : string) (b : t) : t :=
  mk (top b) (middle b) (bottom b) (Services b) v (ticks b) (update_queue b)
     (rotating_index b) (rotating_update_pending b) (outage_state b)
     (outage_details b) (outage_overlay b) (network_state b)
     (network_details b) (_fetch_task b) (composed_images b) (image_offsets
     b) (next_image b) (synchronised b) (FetchInProgress b) (LastUpdate b).
#[global] Arguments set_State _ _ /.

Definition set_ticks (v : Z) (b : t) : t :=
  mk (top b) (middle b) (bottom b) (Services b) (State b) v (update_queue b)
     (rotating_index b) (rotating_update_pending b) (outage_state b)
     (outage_details b) (outage_overlay b) (network_state b)
     (network_details b) (_fetch_task b) (composed_images b) (image_offsets
     b) (next_image b) (synchronised b) (FetchInProgress b) (LastUpdate b).
#[global] Arguments set_ticks _ _ /.

Definition set_update_queue (v : Queue.t) (b : t) : t :=
  mk (top b) (middle b) (bottom b) (Services b) (State b) (ticks b) v
     (rotating_index b) (rotating_update_pending b) (outage_state b)
     (outage_details b) (outage_overlay b) (network_state b)
     (network_details b) (_fetch_task b) (composed_images b) (image_offsets
     b) (next_image b) (synchronised b) (FetchInProgress b) (LastUpdate b).
#[global] Arguments set_update_queue _ _ /.

Definition set_rotating_index (v : Z) (b : t) : t :=
  mk (top b) (middle b) (bottom b) (Services b) (State b) (ticks b)
     (update_queue b) v (rotating_update_pending b) (outage_state b)
     (outage_details b) (outage_overlay b) (network_state b)
     (network_details b) (_fetch_task b) (composed_images b) (image_offsets
     b) (next_image b) (synchronised b) (FetchInProgress b) (LastUpdate b).
#[global] Arguments set_rotating_index _ _ /.

Definition set_rotating_update_pending (v : bool) (b : t) : t :=
  mk (top b) (middle b) (bottom b) (Services b) (State b) (ticks b)
     (update_queue b) (rotating_index b) v (outage_state b) (outage_details
     b) (outage_overlay b) (network_state b) (network_details b)
     (_fetch_task b) (composed_images b) (image_offsets b) (next_image b)
     (synchronised b) (FetchInProgress b) (LastUpdate b).
#[global] Arguments set_rotating_update_pending _ _ /.

Definition set_outage_state (v : option string) (b : t) : t :=
  mk (top b) (middle b) (bottom b) (Services b) (State b) (ticks b)
     (update_queue b) (rotating_index b) (rotating_update_pending b) v
     (outage_details b) (outage_overlay b) (network_state b)
     (network_details b) (_fetch_task b) (composed_images b) (image_offsets
     b) (next_image b) (synchronised b) (FetchInProgress b) (LastUpdate b).
#[global] Arguments set_outage_state _ _ /.

Definition set_outage_details (v : option string) (b : t) : t :=
  mk (top b) (middle b) (bottom b) (Services b) (State b) (ticks b)
     (update_queue b) (rotating_index b) (rotating_update_pending b)
     (outage_state b) v (outage_overlay b) (network_state b)
     (network_details b) (_fetch_task b) (composed_images b) (image_offsets
     b) (next_image b) (synchronised b) (FetchInProgress b) (LastUpdate b).
#[global] Arguments set_outage_details _ _ /.

Definition set_outage_overlay (v : option ComposableImage) (b : t) : t :=
  mk (top b) (middle b) (bottom b) (Services b) (State b) (ticks b)
     (update_queue b) (rotating_index b) (rotating_update_pending b)
     (outage_state b) (outage_details b) v (network_state b)
     (network_details b) (_fetch_task b) (composed_images b) (image_offsets
     b) (next_image b) (synchronised b) (FetchInProgress b) (LastUpdate b).
#[global] Arguments set_outage_overlay _ _ /.

Definition set_network_state (v : string) (b : t) : t :=
  mk (top b) (middle b) (bottom b) (Services b) (State b) (ticks b)
     (update_queue b) (rotating_index b) (rotating_update_pending b)
     (outage_state b) (outage_details b) (outage_overlay b) v
     (network_details b) (_fetch_task b) (composed_images b) (image_offsets
     b) (next_image b) (synchronised b) (FetchInProgress b) (LastUpdate b).
#[global] Arguments set_network_state _ _ /.

Definition set_network_details (v : option string) (b : t) : t :=
  mk (top b) (middle b) (bottom b) (Services b) (State b) (ticks b)
     (update_queue b) (rotating_index b) (rotating_update_pending b)
     (outage_state b) (outage_details b) (outage_overlay b) (network_state
     b) v (_fetch_task b) (composed_images b) (image_offsets b) (next_image
     b) (synchronised b) (FetchInProgress b) (LastUpdate b).
#[global] Arguments set_network_details _ _ /.

Definition set_fetch_task (v : option bool) (b : t) : t :=
  mk (top b) (middle b) (bottom b) (Services b) (State b) (ticks b)
     (update_queue b) (rotating_index b) (rotating_update_pending b)
     (outage_state b) (outage_details b) (outage_overlay b) (network_state
     b) (network_details b) v (composed_images b) (image_offsets b)
     (next_image b) (synchronised b) (FetchInProgress b) (LastUpdate b).
#[global] Arguments set_fetch_task _ _ /.

Definition set_composed_images (v : list ComposableImage) (b : t) : t :=
  mk (top b) (middle b) (bottom b) (Services b) (State b) (ticks b)
     (update_queue b) (rotating_index b) (rotating_update_pending b)
     (outage_state b) (outage_details b) (outage_overlay b) (network_state
     b) (network_details b) (_fetch_task b) v (image_offsets b) (next_image
     b) (synchronised b) (FetchInProgress b) (LastUpdate b).
#[global] Arguments set_composed_images _ _ /.

Definition set_image_offsets (v : gmap nat (Z * Z)) (b : t) : t :=
  mk (top b) (middle b) (bottom b) (Services b) (State b) (ticks b)
     (update_queue b) (rotating_index b) (rotating_update_pending b)
     (outage_state b) (outage_details b) (outage_overlay b) (network_state
     b) (network_details b) (_fetch_task b) (composed_images b) v
     (next_image b) (synchronised b) (FetchInProgress b) (LastUpdate b).
#[global] Arguments set_image_offsets _ _ /.

Definition set_next_image (v : nat) (b : t) : t :=
  mk (top b) (middle b) (bottom b) (Services b) (State b) (ticks b)
     (update_queue b) (rotating_index b) (rotating_update_pending b)
     (outage_state b) (outage_details b) (outage_overlay b) (network_state
     b) (network_details b) (_fetch_task b) (composed_images b)
     (image_offsets b) v (synchronised b) (FetchInProgress b) (LastUpdate b).
#[global] Arguments set_next_image _ _ /.

Definition set_synchronised (v : gmap Z bool) (b : t) : t :=
  mk (top b) (middle b) (bottom b) (Services b) (State b) (ticks b)
     (update_queue b) (rotating_index b) (rotating_update_pending b)
     (outage_state b) (outage_details b) (outage_overlay b) (network_state
     b) (network_details b) (_fetch_task b) (composed_images b)
     (image_offsets b) (next_image b) v (FetchInProgress b) (LastUpdate b).
#[global] Arguments set_synchronised _ _ /.

Definition set_FetchInProgress (v : bool) (b : t) : t :=
  mk (top b) (middle b) (bottom b) (Services b) (State b) (ticks b)
     (update_queue b) (rotating_index b) (rotating_update_pending b)
     (outage_state b) (outage_details b) (outage_overlay b) (network_state
     b) (network_details b) (_fetch_task b) (composed_images b)
     (image_offsets b) (next_image b) (synchronised b) v (LastUpdate b).
#[global] Arguments set_FetchInProgress _ _ /.

Definition set_LastUpdate (v : Z) (b : t) : t :=
  mk (top b) (middle b) (bottom b) (Services b) (State b) (ticks b)
     (update_queue b) (rotating_index b) (rotating_update_pending b)
     (outage_state b) (outage_details b) (outage_overlay b) (network_state
     b) (network_details b) (_fetch_task b) (composed_images b)
     (image_offsets b) (next_image b) (synchronised b) (FetchInProgress b) v.
#[global] Arguments set_LastUpdate _ _ /.

Definition row (p : slot) (b : t) : option ScrollTime.t :=
  match p with
  | Top => top b
  | Middle => middle b
  | Bottom => bottom b
  end.

Definition set_row (p : slot) (v : option ScrollTime.t) (b : t) : t :=
  match p with
  | Top => set_top v b
  | Middle => set_middle v b
  | Bottom => set_bottom v b
  end.
#[global] Arguments set_row !_ _ _ /.
#[global] Arguments row !_ _ /.

End boardFixed.

(** ** Configuration and device *)

(** The fields of [Args] the core reads, and the two strings of the API
    endpoint. *)
Record Config := mkConfig {
  Speed : Z;
  Delay : Z;
  FixToArrive : bool;
  ReducedAnimations : bool;
  ShowIndex : bool;
  LargeLineName : bool;
  RequestLimit : Z;
  API_HOST : string;
  API_PORT : string
}.

(** The display and its fonts: the width of the device and the measured
    widths of rendered text. *)
Record Device := mkDevice {
  width : Z;
  height : Z;
  TextImage_width : string → Z;
  TextImageComplex_width : string → string → Z → Z;
  NoService_width : Z
}.

(** What one frame reads from the wall clock: the time, and for each
    service whether its countdown text is stale and what it would now be. *)
Record TickEnv := mkTickEnv {
  now : Z;
  TimePassedStatic : Service → bool;
  GetDisplayTime : Service → string
}.

(** What one fetch meets: the time, the outcome of the reachability check
    and the outcome of the round trip to the feed. *)
Record FetchEnv := mkFetchEnv {
  fetch_now : Z;
  check_network_async : exn + bool;
  GetDataAsync : exn + list Service
}.

Definition set_DisplayTime (v : string) (s : Service) : Service :=
  mkService (ID s) (ServiceNumber s) (Destination s) (Via s) v
            (SchArrival s) (ExptArrival s).

(** ** The program *)

Module Board.
Import Partition.
Export ScrollTime boardFixed.

Abbreviation B := (M boardFixed.t).

Definition await {A} (r : exn + A) : B A :=
  match r with
  | inl e => raise e
  | inr a => mret a
  end.

(** [try: body except clause 1 ... except clause n]: the first clause
    that matches handles the exception; what a handler raises is not
    offered to the other clauses. *)
Definition try_excepts {A} (body : B A) (select : exn → option (B A)) : B A :=
  λ s,
    match body s with
    | (inl e, s') =>
        match select e with
        | Some handler => handler s'
        | None => (inl e, s')
        end
    | r => r
    end.

(** [try: body finally: fin]; a suspended body has not left the [try]. *)
Definition finally {A} (body : B A) (fin : B unit) : B A :=
  λ s,
    match body s with
    | (inl e, s') =>
        if decide (exn_cls e = Suspended) then (inl e, s')
        else match fin s' with
             | (inl e', s'') => (inl e', s'')
             | (inr _, s'') => (inl e, s'')
             end
    | (inr a, s') =>
        match fin s' with
        | (inl e', s'') => (inl e', s'')
        | (inr _, s'') => (inr a, s'')
        end
    end.

(** *** Update queue *)

Definition with_queue {A} (m : M Queue.t A) : B A :=
  λ b, let '(r, q) := m (update_queue b) in (r, set_update_queue q b).

(** The loop of [_enqueue_update]; one round per item that was queued when
    the loop was entered. *)
Fixpoint drain_loop (queued : list Update) : B unit :=
  match queued with
  | [] => pass
  | _ :: rest =>
      b ← get;
      if Queue.empty (update_queue b) then pass
      else
        again ← try_excepts
                  (with_queue Queue.get_nowait;;
                   with_queue Queue.task_done;;
                   mret true)
                  (λ e, if decide (exn_cls e = QueueEmpty)
                        then Some (mret false) else None);
        if (again : bool) then drain_loop rest else pass
  end.

Definition _enqueue_update (item : Update) : B unit :=
  b ← get;
  drain_loop (Queue.items (update_queue b));;
  with_queue (Queue.put item).

(** *** Fetch pipeline *)

(** [list.sort(key=...)]: stable, ascending. *)
Fixpoint insert_by_key (x : Service) (l : list Service) : list Service :=
  match l with
  | [] => [x]
  | y :: r =>
      if decide (sort_key x ≤ sort_key y) then x :: y :: r
      else y :: insert_by_key x r
  end.

Definition sort_by_key (l : list Service) : list Service :=
  foldr insert_by_key [] l.

Section WithConfig.
Context (Args : Config) (device : Device).

Definition fetch_and_sort_services (env : FetchEnv) : B bool :=
  b ← get;
  if FetchInProgress b then mret false
  else
    finally
      (try_excepts
         (modify (set_FetchInProgress true);;
          online ← await (check_network_async env);
          if negb online then
            modify (set_LastUpdate (fetch_now env));;
            _enqueue_update
              (UError "wifi"
                 ("Cannot reach " +:+ API_HOST Args +:+ ":" +:+ API_PORT Args));;
            mret false
          else
            modify (set_LastUpdate (fetch_now env));;
            data ← await (GetDataAsync env);
            let data := sort_by_key data in
            _enqueue_update (UData data);;
            mret true)
         (λ e,
            if decide (exn_cls e = CancelledError) then Some (raise e)
            else if is_RequestException e then
              Some (modify (set_LastUpdate (fetch_now env));;
                    let reason :=
                      if decide (exn_cls e = RequestsConnectionError)
                      then "wifi" else "api" in
                    _enqueue_update (UError reason (exn_str e));;
                    mret false)
            else if is_Exception e then
              Some (modify (set_LastUpdate (fetch_now env));;
                    _enqueue_update (UError "unknown" (exn_str e));;
                    mret false)
            else None))
      (modify (set_FetchInProgress false)).

(** [LiveTime.TimePassed()] *)
Definition TimePassed (now : Z) (b : boardFixed.t) : bool :=
  if FetchInProgress b then false
  else bool_decide (RequestLimit Args < now - LastUpdate b).

(** [_schedule_fetch]: the task is created and runs later. *)
Definition _schedule_fetch : B bool :=
  b ← get;
  if bool_decide (_fetch_task b = Some false) then mret false
  else if FetchInProgress b then mret false
  else modify (set_fetch_task (Some false));; mret true.

(** *** Image composition and synchroniser, as seen from the methods *)

Definition new_image (content : ImageContent) (position : Z * Z) (w : Z)
    : B ComposableImage :=
  b ← get;
  modify (set_next_image (S (next_image b)));;
  mret (mkImage (next_image b) content position w).

Definition add_image (image : ComposableImage) : B unit :=
  modify (λ b, set_composed_images (composed_images b ++ [image]) b).

Definition remove_image (image : ComposableImage) : B unit :=
  b ← get;
  match remove_first (img_id image) (composed_images b) with
  | Some l => modify (set_composed_images l)
  | None => raise (mkExn ValueError "list.remove(x): x not in list")
  end.

(** [image_composition.refresh()] redraws and changes nothing here. *)
Definition refresh_composition : B unit := pass.

Definition set_offset (image : ComposableImage) (offset : Z * Z) : B unit :=
  modify (λ b, set_image_offsets (<[img_id image := offset]> (image_offsets b)) b).

Definition sync_busy (task : Z) : B unit :=
  modify (λ b, set_synchronised (Synchroniser.busy task (synchronised b)) b).
Definition sync_ready (task : Z) : B unit :=
  modify (λ b, set_synchronised (Synchroniser.ready task (synchronised b)) b).
Definition sync_forget (task : Z) : B unit :=
  modify (λ b, set_synchronised (Synchroniser.forget task (synchronised b)) b).
Definition is_synchronised : B bool :=
  b ← get; mret (Synchroniser.is_synchronised (synchronised b)).

(** *** ScrollTime *)

(** [self] of a method is the row held by a slot of the board. *)
Definition get_row (p : slot) : B ScrollTime.t :=
  b ← get;
  match row p b with
  | Some r => mret r
  | None => raise (mkExn AttributeError "'NoneType' object has no attribute")
  end.

Definition modify_row (p : slot) (f : ScrollTime.t → ScrollTime.t) : B unit :=
  modify (λ b, set_row p (f <$> row p b) b).

Definition number_width : Z :=
  if ShowIndex Args || LargeLineName Args then 45 else 30.

(** [generateCard]: the three images of a card, in the order the method
    builds them. *)
Definition generateCard (position : Z) (service : Service)
    : B (ComposableImage * ComposableImage * ComposableImage) :=
  let time_width := TextImage_width device (DisplayTime service) in
  let dest_width :=
    TextImageComplex_width device (Destination service) (Via service) time_width in
  IDestination ← new_image (TextImageComplex (Destination service) (Via service))
                   (number_width, 16 * position) (dest_width + 10);
  IServiceNumber ← new_image (TextImageServiceNumber (ServiceNumber service))
                     (0, 16 * position) number_width;
  IDisplayTime ← new_image (TextImage (DisplayTime service))
                   (width device - time_width, 16 * position) (width device);
  mret (IDestination, IServiceNumber, IDisplayTime).

Definition new_time_image (position : Z) (text : string) : B ComposableImage :=
  new_image (TextImage text)
    (width device - TextImage_width device text, 16 * position) (width device).

(** [render], on the attributes of a row. *)
Definition render_row (self : ScrollTime.t) : B unit :=
  (if bool_decide (state self ∈ [SCROLLING; WAIT_SYNC])
   then set_offset (IDestination self) (image_x_pos self, 0)
   else pass);;
  if bool_decide (state self ∈ [OPENING_SCROLL; STUD_SCROLL])
  then match IStaticOld self with
       | Some image => set_offset image (0, image_y_posA self)
       | None => raise (mkExn AttributeError "IStaticOld")
       end
  else pass.

Definition render (p : slot) : B unit :=
  self ← get_row p; render_row self.

(** [ScrollTime.__init__] *)
Definition ScrollTime_init (service previous_service : Service)
    (scroll_delay : Z) (position : Z) : B ScrollTime.t :=
  rectangle ← new_image RectangleCover (0, 16 * position + 16) (width device);
  '(IDestination, IServiceNumber, IDisplayTime) ← generateCard position service;
  IStaticOld ← new_image (StaticTextImage service previous_service)
                 (0, 16 * position) (width device);
  add_image IStaticOld;;
  add_image rectangle;;
  let self :=
    ScrollTime.mk (Speed Args) position rectangle service
      IDestination IServiceNumber IDisplayTime (Some IStaticOld)
      (img_width IDestination) 0 0 None scroll_delay 0
      (if decide (ID service ≠ "0") then OPENING_SCROLL else STUD) in
  render_row self;;
  sync_ready position;;
  mret self.

Definition updateCard (p : slot) (newService : Service) : B unit :=
  modify_row p (set_state SCROLL_DECIDER);;
  self ← get_row p;
  sync_ready (position self);;
  remove_image (IDisplayTime self);;
  modify_row p (set_CurrentService newService);;
  image ← new_time_image (position self) (DisplayTime newService);
  modify_row p (set_IDisplayTime image);;
  add_image image;;
  refresh_composition.

(** [_safe_remove_image]: the image goes if it is composed; nothing is
    raised. *)
Definition remove_if_present (image : ComposableImage)
    (l : list ComposableImage) : list ComposableImage :=
  match remove_first (img_id image) l with
  | Some l' => l'
  | None => l
  end.

Definition _safe_remove_image (image : ComposableImage) : B unit :=
  modify (λ b, set_composed_images (remove_if_present image (composed_images b)) b).

Definition refresh (p : slot) : B unit :=
  self ← get_row p;
  _safe_remove_image (IDestination self);;
  _safe_remove_image (IServiceNumber self);;
  _safe_remove_image (IDisplayTime self);;
  add_image (IDestination self);;
  add_image (IServiceNumber self);;
  add_image (IDisplayTime self);;
  refresh_composition.

(** [if self.partner is not None and self.partner.CurrentService.ID != "0":
    self.partner.refresh()] *)
Definition refresh_partner (partner : option slot) : B unit :=
  match partner with
  | Some q =>
      below ← get_row q;
      if decide (ID (CurrentService below) ≠ "0") then refresh q else pass
  | None => pass
  end.

Definition changeCard (p : slot) (newService : Service) : B unit :=
  self ← get_row p;
  if decide (ID newService = "0" ∧ ID (CurrentService self) = "0") then
    modify_row p (set_state STUD);;
    sync_ready (position self)
  else
    sync_busy (position self);;
    banner ← new_image (StaticTextImage newService (CurrentService self))
               (0, 16 * position self) (width device);
    modify_row p (set_IStaticOld (Some banner));;
    add_image banner;;
    add_image (rectangle self);;
    (if decide (ID (CurrentService self) ≠ "0") then
       _safe_remove_image (IDestination self);;
       _safe_remove_image (IServiceNumber self);;
       _safe_remove_image (IDisplayTime self)
     else pass);;
    refresh_partner (partner self);;
    refresh_composition;;
    '(IDestination, IServiceNumber, IDisplayTime) ←
      generateCard (position self) newService;
    modify_row p
      (λ r, set_state (if decide (ID newService = "0")
                       then WAIT_STUD else WAIT_OPENING)
              (set_max_pos (img_width IDestination)
                 (set_CurrentService newService
                    (set_IDisplayTime IDisplayTime
                       (set_IServiceNumber IServiceNumber
                          (set_IDestination IDestination r)))))).

Definition delete (p : slot) : B unit :=
  self ← get_row p;
  match IStaticOld self with
  | Some image => _safe_remove_image image
  | None => raise (mkExn AttributeError "IStaticOld")
  end;;
  _safe_remove_image (rectangle self);;
  _safe_remove_image (IDestination self);;
  _safe_remove_image (IServiceNumber self);;
  _safe_remove_image (IDisplayTime self);;
  refresh_composition;;
  sync_forget (position self).

Definition addPartner (p : slot) (partner : slot) : B unit :=
  modify_row p (set_partner (Some partner)).

Definition is_waiting (p : slot) : B bool :=
  modify_row p (λ r, ScrollTime.set_ticks (ScrollTime.ticks r + 1) r);;
  self ← get_row p;
  if decide (delay self < ScrollTime.ticks self) then
    modify_row p (ScrollTime.set_ticks 0);; mret false
  else mret true.

(** *** boardFixed *)

(** [set_initial_cards]; the board is built with [scroll_delay = Args.Delay]. *)
Definition set_initial_cards : B unit :=
  b ← get;
  let '(pinned, rotating) := split_pinned_rotating (Services b) in
  top ← ScrollTime_init (default LiveTimeStud pinned) LiveTimeStud (Delay Args) 0;
  modify (set_top (Some top));;
  svc2 ← (if decide (0 < Z.of_nat (length rotating))
          then getitem rotating 0 else mret LiveTimeStud);
  middle ← ScrollTime_init svc2 LiveTimeStud (Delay Args) 1;
  modify (set_middle (Some middle));;
  svc3 ← (if decide (1 < Z.of_nat (length rotating))
          then getitem rotating 1 else mret LiveTimeStud);
  bottom ← ScrollTime_init svc3 LiveTimeStud (Delay Args) 2;
  modify (set_bottom (Some bottom));;
  addPartner Top Middle;;
  addPartner Middle Bottom;;
  modify (set_rotating_index 0);;
  modify (set_State "alive").

Definition teardown_card (attr : slot) : B unit :=
  b ← get;
  match row attr b with
  | Some _ => delete attr;; modify (set_row attr None)
  | None => pass
  end.

Definition _teardown_cards : B unit :=
  teardown_card Top;; teardown_card Middle;; teardown_card Bottom.

(** The ID a row contributes to [current_visible_ids]. *)
Definition visible_id (r : option ScrollTime.t) : list string :=
  match r with
  | Some r =>
      if decide (ID (CurrentService r) ≠ "0") then [ID (CurrentService r)] else []
  | None => []
  end.

(** [for i, svc in enumerate(rotating): if svc.ID == id: ... break] *)
Definition find_by_id (rotating : list Service) (id : string) : option nat :=
  fst <$> list_find (λ svc, ID svc = id) rotating.

(** The nested loop over the visible IDs: the first visible ID that occurs
    in the rotating list decides. *)
Fixpoint find_visible (visible_ids : list string) (rotating : list Service)
    : option nat :=
  match visible_ids with
  | [] => None
  | vis_id :: rest =>
      match find_by_id rotating vis_id with
      | Some i => Some i
      | None => find_visible rest rotating
      end
  end.

(** The index computed by [update_display_with_new_data] before any row
    is touched. *)
Definition reanchor (rotating : list Service) (current_middle_id : option string)
    (current_visible_ids : list string) (rotating_index : Z) : Z :=
  let current_middle_idx :=
    if decide (current_middle_id ≠ Some "0") then
      match current_middle_id with
      | Some id =>
          match find_by_id rotating id with
          | Some i => Z.of_nat i
          | None => -1
          end
      | None => -1
      end
    else -1 in
  if decide (0 ≤ current_middle_idx) then current_middle_idx
  else if decide (0 < Z.of_nat (length current_visible_ids)) then
    match find_visible current_visible_ids rotating with
    | Some i => Z.of_nat i
    | None => rotating_index
    end
  else rotating_index.

Definition update_display_with_new_data : B unit :=
  b ← get;
  match top b with
  | None => set_initial_cards
  | Some top_row =>
      let '(pinned, rotating) := split_pinned_rotating (Services b) in
      let current_visible_ids :=
        visible_id (top b) ++ visible_id (middle b) ++ visible_id (bottom b) in
      let current_middle_id :=
        match middle b with
        | Some m =>
            if decide (ID (CurrentService m) ≠ "0")
            then Some (ID (CurrentService m)) else None
        | None => None
        end in
      let next_top :=
        match pinned with
        | Some pinned =>
            if FixToArrive Args
               && bool_decide (ID (CurrentService top_row) ≠ ID pinned)
            then Some pinned else None
        | None => if FixToArrive Args then Some LiveTimeStud else None
        end in
      let len := Z.of_nat (length rotating) in
      '(new_rotating_index, next_middle, next_bottom) ←
        (if decide (0 < len) then
           let new_rotating_index :=
             reanchor rotating current_middle_id current_visible_ids
               (rotating_index b) in
           let idx_middle := new_rotating_index `mod` len in
           let idx_bottom :=
             if decide (1 < len) then (new_rotating_index + 1) `mod` len
             else -1 in
           next_middle ← getitem rotating idx_middle;
           next_bottom ← (if decide (0 ≤ idx_bottom)
                          then getitem rotating idx_bottom
                          else mret LiveTimeStud);
           mret (new_rotating_index, next_middle, next_bottom)
         else mret (rotating_index b, LiveTimeStud, LiveTimeStud));
      modify (set_rotating_index new_rotating_index);;
      match next_top with
      | Some svc => changeCard Top svc
      | None => pass
      end;;
      b ← get;
      (if bool_decide (ID <$> (CurrentService <$> middle b) ≠ Some (ID next_middle))
       then changeCard Middle next_middle else pass);;
      b ← get;
      if bool_decide (ID <$> (CurrentService <$> bottom b) ≠ Some (ID next_bottom))
      then changeCard Bottom next_bottom else pass
  end.

Definition force_rotation_cycle : B unit :=
  b ← get;
  if truthy (outage_state b) then pass
  else if decide (Z.of_nat (length (Services b)) ≤ 1) then pass
  else
    let '(pinned, rotating) := split_pinned_rotating (Services b) in
    let len := Z.of_nat (length rotating) in
    if decide (len ≤ 1) then pass
    else
      modify (set_rotating_index ((rotating_index b + 1) `mod` len));;
      b ← get;
      middle_service ← getitem rotating (rotating_index b);
      bottom_service ← getitem rotating ((rotating_index b + 1) `mod` len);
      changeCard Middle middle_service;;
      changeCard Bottom bottom_service.

(** [requestCardChange(card, row)]; [now] is the clock read by
    [LiveTime.TimePassed()]. *)
Definition requestCardChange (now : Z) (card : slot) (row : Z) : B unit :=
  b ← get;
  if truthy (outage_state b) then pass
  else if TimePassed now b then _schedule_fetch;; pass
  else
    let '(pinned, rotating) := split_pinned_rotating (Services b) in
    if bool_decide (row = 1) && FixToArrive Args then refresh Top
    else if decide (row ≠ 2) then pass
    else if rotating_update_pending b then pass
    else
      modify (set_rotating_update_pending true);;
      finally
        (let len := Z.of_nat (length rotating) in
         if decide (len = 0) then
           changeCard Middle LiveTimeStud;;
           changeCard Bottom LiveTimeStud
         else if decide (len = 1) then
           first ← getitem rotating 0;
           changeCard Middle first;;
           changeCard Bottom LiveTimeStud
         else
           b ← get;
           let idx_middle := rotating_index b `mod` len in
           let idx_bottom := (rotating_index b + 1) `mod` len in
           svc_middle ← getitem rotating idx_middle;
           changeCard Middle svc_middle;;
           svc_bottom ← getitem rotating idx_bottom;
           changeCard Bottom svc_bottom;;
           b ← get;
           modify (set_rotating_index ((rotating_index b + 1) `mod` len)))
        (modify (set_rotating_update_pending false)).

(** *** The frame tick of a row *)

(** The head of [tick]: the countdown text of a row that is past its
    opening is redrawn when it is stale.  The record the row shows gets the
    new text; the records of [Services] are read by their ID only. *)
Definition update_display_time (env : TickEnv) (p : slot) : B unit :=
  self ← get_row p;
  if TimePassedStatic env (CurrentService self)
     && bool_decide (state self ∈ [SCROLL_DECIDER; SCROLLING_WAIT; SCROLLING; WAIT_SYNC])
  then
    remove_image (IDisplayTime self);;
    let text := GetDisplayTime env (CurrentService self) in
    modify_row p (set_CurrentService (set_DisplayTime text (CurrentService self)));;
    image ← new_time_image (position self) text;
    modify_row p (set_IDisplayTime image);;
    add_image image;;
    refresh_composition
  else pass.

(** [OPENING_END] and [STUD_END]: the banner and its cover leave the
    composition. *)
Definition remove_banner (p : slot) : B unit :=
  self ← get_row p;
  modify_row p (set_image_x_pos 0);;
  modify_row p (set_image_y_posA 0);;
  match IStaticOld self with
  | Some image => remove_image image
  | None => raise (mkExn AttributeError "IStaticOld")
  end;;
  remove_image (rectangle self);;
  modify_row p (set_IStaticOld None).

Definition ScrollTime_tick (env : TickEnv) (p : slot) : B unit :=
  update_display_time env p;;
  self ← get_row p;
  match state self with
  | WAIT_OPENING =>
      waiting ← is_waiting p;
      if negb waiting then modify_row p (set_state OPENING_SCROLL) else pass
  | OPENING_SCROLL =>
      if decide (image_y_posA self < 16) then
        render p;;
        modify_row p (λ r, set_image_y_posA (image_y_posA r + speed r) r)
      else modify_row p (set_state OPENING_END)
  | OPENING_END =>
      remove_banner p;;
      add_image (IDestination self);;
      add_image (IServiceNumber self);;
      add_image (IDisplayTime self);;
      render p;;
      sync_ready (position self);;
      modify_row p (set_state SCROLL_DECIDER)
  | SCROLL_DECIDER =>
      synchronised ← is_synchronised;
      if (synchronised : bool) then
        waiting ← is_waiting p;
        if negb waiting then
          synchronised ← is_synchronised;
          if (synchronised : bool) then
            sync_busy (position self);;
            if ReducedAnimations Args then modify_row p (set_state WAIT_SYNC)
            else if decide (ID (CurrentService self) = "0") then
              sync_ready (position self);;
              modify_row p (set_state STUD)
            else modify_row p (set_state SCROLLING_WAIT)
          else pass
        else pass
      else pass
  | SCROLLING_WAIT =>
      waiting ← is_waiting p;
      if negb waiting then modify_row p (set_state SCROLLING) else pass
  | SCROLLING =>
      if decide (image_x_pos self < max_pos self) then
        render p;;
        modify_row p (λ r, set_image_x_pos (image_x_pos r + speed r) r)
      else modify_row p (set_state WAIT_SYNC)
  | WAIT_SYNC =>
      if decide (image_x_pos self ≠ 0) then
        modify_row p (set_image_x_pos 0);;
        render p
      else
        waiting ← is_waiting p;
        if negb waiting then requestCardChange (now env) p (position self + 1)
        else pass
  | WAIT_STUD =>
      waiting ← is_waiting p;
      if negb waiting then modify_row p (set_state STUD_SCROLL) else pass
  | STUD_SCROLL =>
      if decide (image_y_posA self < 16) then
        render p;;
        modify_row p (λ r, set_image_y_posA (image_y_posA r + speed r) r)
      else modify_row p (set_state STUD_END)
  | STUD_END =>
      remove_banner p;;
      render p;;
      sync_ready (position self);;
      modify_row p (set_state STUD)
  | STUD =>
      waiting ← is_waiting p;
      if negb waiting then requestCardChange (now env) p (position self + 1)
      else pass
  end.

(** *** Outage overlay, network state and the frame of the board *)

(** [self.NoServices], built once in [__init__] and never reassigned:
    image object 0, centred on the device. *)
Definition NoServices : ComposableImage :=
  mkImage 0 NoService
    (width device `div` 2 - NoService_width device `div` 2,
     height device `div` 2 - 16 `div` 2)
    (width device).

Definition _remove_if_present (image : option ComposableImage) : B unit :=
  match image with
  | None => pass
  | Some image =>
      try_excepts (remove_image image)
        (λ e, if decide (exn_cls e = ValueError) then Some pass else None)
  end.

Definition show_outage (reason : string) (details : option string) : B unit :=
  b ← get;
  let shown :=
    bool_decide (outage_state b = Some reason)
    && bool_decide (outage_overlay b ≠ None) in
  if shown && bool_decide (outage_details b = details) then
    modify (set_outage_details details)
  else
    (if shown then _remove_if_present (outage_overlay b) else pass);;
    modify (set_outage_state (Some reason));;
    modify (set_outage_details details);;
    _teardown_cards;;
    _remove_if_present (Some NoServices);;
    b ← get;
    _remove_if_present (outage_overlay b);;
    overlay ← new_image (OutageImage reason details) (0, 0) (width device);
    modify (set_outage_overlay (Some overlay));;
    add_image overlay;;
    refresh_composition;;
    modify (set_State "outage").

Definition clear_outage : B unit :=
  b ← get;
  let previous_reason := outage_state b in
  match outage_overlay b with
  | Some overlay =>
      _remove_if_present (Some overlay);;
      modify (set_outage_overlay None)
  | None => pass
  end;;
  modify (set_outage_state None);;
  modify (set_outage_details None);;
  b ← get;
  (if bool_decide (previous_reason = Some "wifi")
      || bool_decide (network_state b = "offline")
   then modify (set_network_state "online");;
        modify (set_network_details None)
   else pass);;
  b ← get;
  if decide (State b = "dead") then
    _remove_if_present (Some NoServices);;
    modify (set_State "alive")
  else pass.

Definition update_network_state (online : bool) (details : option string)
    : B unit :=
  b ← get;
  if online then
    if bool_decide (network_state b ≠ "online")
       || bool_decide (outage_state b = Some "wifi")
    then
      modify (set_network_state "online");;
      modify (set_network_details None);;
      if decide (outage_state b = Some "wifi") then clear_outage else pass
    else pass
  else if bool_decide (network_state b = "offline")
          && bool_decide (outage_state b = Some "wifi")
          && bool_decide (network_details b = details)
  then pass
  else
    modify (set_network_state "offline");;
    modify (set_network_details details);;
    show_outage "wifi" details.

(** The body of the loop of [process_pending_updates] for one item.  A
    payload is a list built by the fetch that queued it, of records built
    by that fetch; Python compares the records by identity, so
    [self.Services != data] fails only when both lists are empty. *)
Definition handle_update (item : Update) : B unit :=
  match item with
  | UData data =>
      b ← get;
      let changed := bool_decide (Services b ≠ [] ∨ data ≠ []) in
      (if changed then modify (set_Services data) else pass);;
      update_network_state true None;;
      b ← get;
      (if truthy (outage_state b) then clear_outage else pass);;
      if changed then
        b ← get;
        match top b with
        | None => _teardown_cards;; set_initial_cards
        | Some _ => update_display_with_new_data
        end
      else pass
  | UError reason details =>
      if decide (reason = "wifi") then update_network_state false (Some details)
      else
        b ← get;
        (if decide (network_state b ≠ "online") then
           modify (set_network_state "online");;
           modify (set_network_details None)
         else pass);;
        show_outage reason (Some details)
  end.

(** The loop of [process_pending_updates]; one round per item that was
    queued when the loop was entered.  Nothing else runs between the test
    of the queue and the [get]. *)
Fixpoint process_loop (queued : list Update) (processed : bool) : B bool :=
  match queued with
  | [] => mret processed
  | _ :: rest =>
      b ← get;
      if Queue.empty (update_queue b) then mret processed
      else
        item ← with_queue Queue.get_nowait;
        handle_update item;;
        with_queue Queue.task_done;;
        process_loop rest true
  end.

Definition process_pending_updates : B bool :=
  b ← get;
  process_loop (Queue.items (update_queue b)) false.

(** [boardFixed.tick]: one frame. *)
Definition tick (env : TickEnv) : B unit :=
  process_pending_updates;;
  b ← get;
  if truthy (outage_state b) then
    if TimePassed (now env) b then _schedule_fetch;; pass else pass
  else if decide (length (Services b) = 0%nat) then
    if decide (State b ≠ "dead") then
      _remove_if_present (outage_overlay b);;
      _teardown_cards;;
      add_image NoServices;;
      modify (set_State "dead")
    else pass
  else
    (if decide (State b = "dead") then
       _remove_if_present (Some NoServices);;
       modify (set_State "alive");;
       b ← get;
       match top b with
       | None => set_initial_cards
       | Some _ => pass
       end
     else pass);;
    b ← get;
    (if bool_decide (top b = None ∨ middle b = None ∨ bottom b = None)
     then set_initial_cards else pass);;
    ScrollTime_tick env Top;;
    ScrollTime_tick env Middle;;
    ScrollTime_tick env Bottom;;
    modify (λ b, boardFixed.set_ticks (boardFixed.ticks b + 1) b);;
    b ← get;
    (if decide (Delay Args * 4 ≤ boardFixed.ticks b) then
       modify (boardFixed.set_ticks 0);;
       force_rotation_cycle
     else pass);;
    b ← get;
    if TimePassed (now env) b then _schedule_fetch;; pass else pass.

(** [first_fetch]: the fetch at startup and the first build of the rows. *)
Definition first_fetch (env : FetchEnv) : B unit :=
  fetch_and_sort_services env;;
  process_pending_updates;;
  b ← get;
  if negb (truthy (outage_state b)) then set_initial_cards else pass.

(** [_on_fetch_task_done]: the finished task is let go. *)
Definition _on_fetch_task_done : B unit := modify (set_fetch_task None).

End WithConfig.

(** [boardFixed.__init__]: no rows, no services, an empty queue of three
    slots, an empty composition and an empty synchroniser.  The "no
    services" image built here is image object 0. *)
Definition new_board (LastUpdate : Z) : boardFixed.t :=
  boardFixed.mk None None None [] "alive" 0 (Queue.new 3) 0 false
    None None None "online" None None
    [] ∅ 1 ∅ false LastUpdate.

End Board.

(** ** Well-formed boards *)

Module WellFormed.
Import Board.

(** The attributes of the controller proper: everything but the rows, the
    image composition and the synchroniser. *)
Definition same_controller (b b' : boardFixed.t) : Prop :=
  Services b' = Services b
  ∧ State b' = State b
  ∧ boardFixed.ticks b' = boardFixed.ticks b
  ∧ update_queue b' = update_queue b
  ∧ rotating_index b' = rotating_index b
  ∧ rotating_update_pending b' = rotating_update_pending b
  ∧ outage_state b' = outage_state b
  ∧ outage_details b' = outage_details b
  ∧ outage_overlay b' = outage_overlay b
  ∧ network_state b' = network_state b
  ∧ network_details b' = network_details b
  ∧ _fetch_task b' = _fetch_task b
  ∧ FetchInProgress b' = FetchInProgress b
  ∧ LastUpdate b' = LastUpdate b.

(** The three rows exist (as they do from [set_initial_cards] until a
    teardown). *)
Definition all_rows (b : boardFixed.t) : Prop :=
  is_Some (top b) ∧ is_Some (middle b) ∧ is_Some (bottom b).

(** A step that, on a board with its three rows, returns, keeps the three
    rows in place and leaves the controller's attributes alone. *)
Definition card_step (m : B unit) : Prop :=
  ∀ b, all_rows b →
       ∃ b', m b = (inr tt, b') ∧ same_controller b b' ∧ all_rows b'.

(** Image identities are handed out in increasing order: every image held
    by a row is older than the next image. *)
Definition row_ids_below (n : nat) (r : ScrollTime.t) : Prop :=
  (img_id (rectangle r) < n)%nat
  ∧ (img_id (IDestination r) < n)%nat
  ∧ (img_id (IServiceNumber r) < n)%nat
  ∧ (img_id (IDisplayTime r) < n)%nat.

Definition ids_ok (b : boardFixed.t) : Prop :=
  ∀ p r, row p b = Some r → row_ids_below (next_image b) r.

End WellFormed.

(** ** What a card change builds *)

Module CardSpec.
Import Board.

Section WithConfig.
Context (Args : Config) (device : Device).

(** The three images of a card for [service] on the row at [position],
    the first of them being image object [n]. *)
Definition card_images (position : Z) (service : Service) (n : nat)
    : ComposableImage * ComposableImage * ComposableImage :=
  let time_width := TextImage_width device (DisplayTime service) in
  (mkImage n (TextImageComplex (Destination service) (Via service))
     (number_width Args, 16 * position)
     (TextImageComplex_width device (Destination service) (Via service)
        time_width + 10),
   mkImage (S n) (TextImageServiceNumber (ServiceNumber service))
     (0, 16 * position) (number_width Args),
   mkImage (S (S n)) (TextImage (DisplayTime service))
     (width device - time_width, 16 * position) (width device)).

(** The two-line banner: the new service below the one shown so far. *)
Definition banner_image (position : Z) (service previous_service : Service)
    (n : nat) : ComposableImage :=
  mkImage n (StaticTextImage service previous_service)
    (0, 16 * position) (width device).

(** The row [self] after a card change to [newService] that plays the
    banner, [n] being the next image object before the call. *)
Definition changed_card (self : ScrollTime.t) (newService : Service) (n : nat)
    : ScrollTime.t :=
  let '(IDestination, IServiceNumber, IDisplayTime) :=
    card_images (position self) newService (S n) in
  ScrollTime.mk (speed self) (position self) (rectangle self) newService
    IDestination IServiceNumber IDisplayTime
    (Some (banner_image (position self) newService (CurrentService self) n))
    (img_width IDestination) (image_y_posA self) (image_x_pos self)
    (partner self) (delay self) (ScrollTime.ticks self)
    (if decide (ID newService = "0") then WAIT_STUD else WAIT_OPENING).

(** The record a row holds after [changeCard(new)] when it held [old]: the
    new one, except that a blank row given a blank record keeps its own. *)
Definition assigned (old new : Service) : Service :=
  if decide (ID new = "0" ∧ ID old = "0") then old else new.

(** The banner-slide animation is under way on a row: it waits to slide
    or to show a blank, and its banner is composed. *)
Definition banner_triggered (r : ScrollTime.t) (b : boardFixed.t) : Prop :=
  (state r = WAIT_OPENING ∨ state r = WAIT_STUD)
  ∧ ∃ banner, IStaticOld r = Some banner
              ∧ is_banner banner = true
              ∧ banner ∈ composed_images b.

End WithConfig.
End CardSpec.

(** ** The two parties on the update queue *)

Module QueueTrace.
Import Board.

(** The pipeline calls [_enqueue_update]; the consumer
    ([process_pending_updates]) takes an item with [get] and, once it has
    handled it, calls [task_done]. *)
Inductive event :=
| Enqueue (item : Update)
| ConsumerGet
| ConsumerDone.

(** One event on a board; [holding] says that the consumer has taken an
    item and not yet reported it done.  [None]: the event is not enabled
    or the call did not return. *)
Definition step (ev : event) (st : boardFixed.t * bool)
    : option (boardFixed.t * bool) :=
  let '(b, holding) := st in
  match ev with
  | Enqueue item =>
      match _enqueue_update item b with
      | (inr _, b') => Some (b', holding)
      | _ => None
      end
  | ConsumerGet =>
      if holding then None
      else match with_queue Queue.get_nowait b with
           | (inr _, b') => Some (b', true)
           | _ => None
           end
  | ConsumerDone =>
      if holding then
        match with_queue Queue.task_done b with
        | (inr _, b') => Some (b', false)
        | _ => None
        end
      else None
  end.

Fixpoint run (evs : list event) (st : boardFixed.t * bool)
    : option (boardFixed.t * bool) :=
  match evs with
  | [] => Some st
  | ev :: rest =>
      match step ev st with
      | Some st' => run rest st'
      | None => None
      end
  end.

(** Every queued item was counted by [put]: the queue never holds more
    items than it has unfinished tasks. *)
Definition counted (q : Queue.t) : Prop :=
  Z.of_nat (length (Queue.items q)) ≤ Queue.unfinished_tasks q.

(** What holds of every board the two parties can reach: the items in the
    queue and the one the consumer holds are all counted, and at most one
    item is queued. *)
Definition queue_inv (st : boardFixed.t * bool) : Prop :=
  let q := update_queue st.1 in
  Z.of_nat (length (Queue.items q)) + (if st.2 then 1 else 0)
    ≤ Queue.unfinished_tasks q
  ∧ (length (Queue.items q) ≤ 1)%nat.

End QueueTrace.

(** ** The failure classification, in the words of the specification *)

Module FetchSpec.

(** Connectivity failure: network-unreachable (["wifi"]); upstream HTTP or
    protocol failure: upstream-error (["api"]); anything else:
    unknown-error (["unknown"]). *)
Definition outage_kind (e : exn) : string :=
  match exn_cls e with
  | RequestsConnectionError => "wifi"
  | RequestException => "api"
  | _ => "unknown"
  end.

(** The fetch path raises [e]: at the reachability check, or at the round
    trip that follows a successful check. *)
Definition raises (env : FetchEnv) (e : exn) : Prop :=
  check_network_async env = inl e
  ∨ (check_network_async env = inr true ∧ GetDataAsync env = inl e).

End FetchSpec.

(** ** The synchroniser and the rows: what a run of the board can reach *)

Module System.
Import Board.

(** The position the row of a slot is built with. *)
Definition slot_position (p : slot) : Z :=
  match p with
  | Top => 0
  | Middle => 1
  | Bottom => 2
  end.

(** A row holds the scroll slot from the moment it leaves [SCROLL_DECIDER]
    for the horizontal scroll until the scroll is over. *)
Definition scrolling (s : AnimState) : Prop :=
  s = SCROLLING_WAIT ∨ s = SCROLLING.

(** What the synchronisation of the rows depends on: the state and the
    position of each row, and the synchroniser's dictionary. *)
Record view := mkView {
  vtop : option (AnimState * Z);
  vmiddle : option (AnimState * Z);
  vbottom : option (AnimState * Z);
  vsync : gmap Z bool
}.

Definition key (r : ScrollTime.t) : AnimState * Z := (state r, position r).

Definition view_of (b : boardFixed.t) : view :=
  mkView (key <$> top b) (key <$> middle b) (key <$> bottom b) (synchronised b).

Definition vrow (p : slot) (v : view) : option (AnimState * Z) :=
  match p with
  | Top => vtop v
  | Middle => vmiddle v
  | Bottom => vbottom v
  end.

Definition vset_row (p : slot) (x : option (AnimState * Z)) (v : view) : view :=
  match p with
  | Top => mkView x (vmiddle v) (vbottom v) (vsync v)
  | Middle => mkView (vtop v) x (vbottom v) (vsync v)
  | Bottom => mkView (vtop v) (vmiddle v) x (vsync v)
  end.

Definition vset_state (p : slot) (s : AnimState) (v : view) : view :=
  vset_row p ((λ k, (s, k.2)) <$> vrow p v) v.

Definition vset_sync (f : gmap Z bool → gmap Z bool) (v : view) : view :=
  mkView (vtop v) (vmiddle v) (vbottom v) (f (vsync v)).

(** The invariant: every row sits at the position of its slot; a row that
    holds the scroll slot is marked busy; and at most one row holds it. *)
Definition sync_inv (v : view) : Prop :=
  (∀ p s z, vrow p v = Some (s, z) → z = slot_position p)
  ∧ (∀ p s z, vrow p v = Some (s, z) → scrolling s →
              vsync v !! slot_position p = Some false)
  ∧ (∀ p q s z s' z',
       vrow p v = Some (s, z) → vrow q v = Some (s', z') →
       scrolling s → scrolling s' → p = q).

(** The row of a slot sits at the slot's position and does not hold the
    scroll slot. *)
Definition quiet_row (p : slot) (v : view) : Prop :=
  ∃ s, vrow p v = Some (s, slot_position p) ∧ ¬ scrolling s.

(** No row holds the scroll slot in [v] that did not hold it, in the same
    state, in [v0]. *)
Definition no_new_scroll (v0 v : view) : Prop :=
  ∀ q s z, vrow q v = Some (s, z) → scrolling s → vrow q v0 = Some (s, z).

(** How a row can hold the scroll slot after the frame of the row of [p]
    took the view from [v] to [v']: it held it before, in the same state;
    or it is the row of [p], which waited for its scroll and now scrolls;
    or it is the row of [p], which was deciding while the synchroniser
    reported every row ready, and is now marked busy. *)
Definition scroll_entry (p : slot) (v v' : view) : Prop :=
  ∀ q s z, vrow q v' = Some (s, z) → scrolling s →
    vrow q v = Some (s, z)
    ∨ (q = p ∧ s = SCROLLING ∧ vrow p v = Some (SCROLLING_WAIT, z))
    ∨ (q = p ∧ s = SCROLLING_WAIT ∧ vrow p v = Some (SCROLL_DECIDER, z)
       ∧ Synchroniser.is_synchronised (vsync v) = true
       ∧ vsync v' !! z = Some false).

(** A computation that leaves the view alone, whatever its outcome. *)
Definition cosmetic {A} (m : B A) : Prop :=
  ∀ b, view_of (m b).2 = view_of b.

(** When [m] returns from a board whose view satisfies [P], the view it
    leaves satisfies [Q]. *)
Definition vhoare {A} (P : view → Prop) (m : B A) (Q : A → view → Prop) : Prop :=
  ∀ b a b', P (view_of b) → m b = (inr a, b') → Q a (view_of b').

Section WithConfig.
Context (Args : Config) (device : Device).

(** One step of the system.  The frames of the tick loop and the fetches
    of the pipeline are what the program runs; the calls a frame is made
    of are steps of their own, so that the states inside a frame are
    reached too.  A call that raises ends the run, except in the pipeline,
    whose task swallows what it raises. *)
Inductive step : boardFixed.t → boardFixed.t → Prop :=
| step_first_fetch env b b' :
    first_fetch Args device env b = (inr tt, b') → step b b'
| step_tick env b b' :
    tick Args device env b = (inr tt, b') → step b b'
| step_fetch env b :
    step b (fetch_and_sort_services Args env b).2
| step_fetch_done b :
    step b (_on_fetch_task_done b).2
| step_row_tick env p b b' :
    ScrollTime_tick Args device env p b = (inr tt, b') → step b b'
| step_process b r b' :
    process_pending_updates Args device b = (inr r, b') → step b b'
| step_force b b' :
    force_rotation_cycle Args device b = (inr tt, b') → step b b'
| step_request now card row b b' :
    requestCardChange Args device now card row b = (inr tt, b') → step b b'
| step_update_display b b' :
    update_display_with_new_data Args device b = (inr tt, b') → step b b'
| step_initial_cards b b' :
    set_initial_cards Args device b = (inr tt, b') → step b b'
| step_teardown b b' :
    _teardown_cards b = (inr tt, b') → step b b'
| step_show_outage reason details b b' :
    show_outage device reason details b = (inr tt, b') → step b b'
| step_changeCard p svc b b' :
    changeCard Args device p svc b = (inr tt, b') → step b b'
| step_updateCard p svc b b' :
    updateCard device p svc b = (inr tt, b') → step b b'
| step_refresh p b b' :
    refresh p b = (inr tt, b') → step b b'.

(** [n] frames of the tick loop, as long as none raises. *)
Fixpoint run_ticks (env : TickEnv) (n : nat) (b : boardFixed.t)
    : option boardFixed.t :=
  match n with
  | O => Some b
  | S n =>
      match tick Args device env b with
      | (inr _, b') => run_ticks env n b'
      | (inl _, _) => None
      end
  end.

(** The boards a run can reach from a new board. *)
Inductive reachable (t0 : Z) : boardFixed.t → Prop :=
| reachable_new : reachable t0 (new_board t0)
| reachable_step b b' : reachable t0 b → step b b' → reachable t0 b'.

End WithConfig.
End System.

(** ** Sample data *)

Module Samples.
Import QueueTrace.

(** Sample records: three arrivals at 120 s, 540 s and 1200 s; [svB']
    repeats the ID of [svB]. *)
Definition svA : Service := mkService "a" "10" "Bern" "Wankdorf" "2'00" 120 None.
Definition svB : Service := mkService "b" "12" "Thun" "Muri" "9'00" 500 (Some 540).
Definition svB' : Service := mkService "b" "12" "Thun" "Muri" "9'30" 570 None.
Definition svC : Service := mkService "c" "19" "Biel" "Lyss" " 12:20" 1200 None.

Definition sample_config : Config :=
  mkConfig 1 2 true false false false 60 "api.opentransportdata.swiss" "443".

Definition sample_device : Device :=
  mkDevice 256 64 (λ text, 5 + 6 * Z.of_nat (String.length text))
    (λ destination via offset,
       Z.max (256 - offset)
         (6 * Z.of_nat (String.length destination + String.length via) + 6))
    162.

(** Two fetches that failed, one that succeeded, the consumer taking an
    item, and two more fetches. *)
Definition sample_events : list event :=
  [Enqueue (UError "wifi" "down"); Enqueue (UData []); ConsumerGet;
   Enqueue (UError "api" "503"); Enqueue (UData [svA])].

(** A fetch whose round trip times out at the feed, and one that is
    cancelled during the round trip. *)
Definition sample_fetch_timeout : FetchEnv :=
  mkFetchEnv 100 (inr true) (inl (mkExn RequestException "read timed out")).

Definition sample_fetch_cancelled : FetchEnv :=
  mkFetchEnv 100 (inr true) (inl (mkExn CancelledError "")).


Definition sample_board_single : boardFixed.t :=
  (Board.set_initial_cards sample_config sample_device
     (boardFixed.set_Services [svA; svB] (Board.new_board 0))).2.

Definition sample_board : boardFixed.t :=
  (Board.set_initial_cards sample_config sample_device
     (boardFixed.set_Services [svA; svB; svB'; svC] (Board.new_board 0))).2.

(** The board of the four services after a fetch that brought the order
    A, C, B. *)
Definition sample_board_new_data : boardFixed.t :=
  boardFixed.set_Services [svA; svC; svB] sample_board.

(** A run of the program: the fetch at startup brings three services, and
    89 frames later the top row scrolls. *)
Definition sample_fetch_ok : FetchEnv :=
  mkFetchEnv 100 (inr true) (inr [svC; svA; svB]).

Definition sample_tick_env : TickEnv := mkTickEnv 110 (λ _, false) DisplayTime.

Definition sample_started_board : boardFixed.t :=
  (Board.first_fetch sample_config sample_device sample_fetch_ok
     (Board.new_board 0)).2.

Definition sample_running_board : boardFixed.t :=
  default sample_started_board
    (System.run_ticks sample_config sample_device sample_tick_env 89
       sample_started_board).

Definition sample_blank_board : boardFixed.t :=
  (Board.set_initial_cards sample_config sample_device (Board.new_board 0)).2.

End Samples.
Module Frame.
Import Board.

(** [m] leaves a part of the board as it was, whatever its outcome. *)
Definition unchanged {X A} (proj : boardFixed.t → X) (m : B A) : Prop :=
  ∀ b, proj (m b).2 = proj b.

(** [J] holds of the board [m] leaves, whatever its outcome. *)
Definition always {A} (J : boardFixed.t → Prop) (m : B A) : Prop :=
  ∀ b, J b → J (m b).2.

(** [J] depends on the services and the update queue only. *)
Definition data_only (J : boardFixed.t → Prop) : Prop :=
  ∀ b b', Services b' = Services b → update_queue b' = update_queue b →
          J b → J b'.

(** What the order of the services depends on: the list the board shows
    and the payloads that wait in the queue. *)
Definition sorted_item (item : Update) : Prop :=
  match item with
  | UData data => Sorted arrives_before data
  | UError _ _ => True
  end.

Definition services_sorted (b : boardFixed.t) : Prop :=
  Sorted arrives_before (Services b)
  ∧ Forall sorted_item (Queue.items (update_queue b)).

(** The update queue is [q]. *)
Definition queue_is (q : Queue.t) (b : boardFixed.t) : Prop :=
  update_queue b = q.

End Frame.

(** ** Repeated calls *)

Module Runs.
Import Board.

(** [n] calls of [is_waiting] on the row of a slot, and what they return. *)
Fixpoint is_waiting_calls (p : slot) (n : nat) : B (list bool) :=
  match n with
  | O => mret []
  | S n =>
      waiting ← is_waiting p;
      rest ← is_waiting_calls p n;
      mret (waiting :: rest)
  end.

End Runs.

(** ** More sample boards *)

Module MoreSamples.
Import Samples.

(** The running board after a fetch that timed out. *)
Definition sample_failed_fetch_board : boardFixed.t :=
  (Board.fetch_and_sort_services sample_config sample_fetch_timeout
     sample_running_board).2.

(** A new board after a fetch that brought three services. *)
Definition sample_fetched_board : boardFixed.t :=
  (Board.fetch_and_sort_services sample_config sample_fetch_ok
     (Board.new_board 0)).2.

(** The board of the four services after a fetch that brought a later
    arrival for the service of the middle row. *)
Definition sample_board_refetched : boardFixed.t :=
  boardFixed.set_Services [svA; svB'; svC] sample_board.

(** A new board on which an outage of the feed was reported. *)
Definition sample_outage_board : boardFixed.t :=
  (Board.show_outage sample_device "api" (Some "503") (Board.new_board 0)).2.

End MoreSamples.

(** ** Inactive hours *)

Module Clock.

(** A naive [datetime.time]; Python orders these by hour, minute, second
    and microsecond, in this order. *)
Record time := mkTime {
  hour : Z;
  minute : Z;
  second : Z;
  microsecond : Z
}.

#[global] Instance time_eq_dec : EqDecision time.
Proof. solve_decision. Defined.

Definition time_lt (a b : time) : Prop :=
  hour a < hour b
  ∨ (hour a = hour b
     ∧ (minute a < minute b
        ∨ (minute a = minute b
           ∧ (second a < second b
              ∨ (second a = second b ∧ microsecond a < microsecond b))))).

Definition time_le (a b : time) : Prop := time_lt a b ∨ a = b.

#[global] Instance time_lt_dec : RelDecision time_lt.
Proof. intros a b. unfold time_lt. apply _. Defined.

#[global] Instance time_le_dec : RelDecision time_le.
Proof. intros a b. unfold time_le. apply _. Defined.

(** [is_time_between]: [InactiveHours] is the pair of times parsed from
    ["XX:XX-YY:YY"], and [check_time] the time of day now. *)
Definition is_time_between (InactiveHours : time * time) (check_time : time)
    : bool :=
  if decide (time_lt InactiveHours.1 InactiveHours.2) then
    bool_decide (time_le InactiveHours.1 check_time)
    && bool_decide (time_le check_time InactiveHours.2)
  else
    bool_decide (time_le InactiveHours.1 check_time)
    || bool_decide (time_le check_time InactiveHours.2).

End Clock.
(** ** Properties of the partition *)

Module PartitionFacts.
Import Partition.

Section WithPinned.
Variable pid : string.

Let keep (svc : Service) : Prop := ID svc ≠ pid.

Lemma unique_loop_spec (l earlier acc : list Service) (seen : gset string) :
  (∀ i, i ∈ seen ↔ i ∈ ID <$> filter keep earlier) →
  unique_loop (filter keep l) acc seen
  = acc ++ filter keep (keep_first_occurrences earlier l).
Proof.
  revert earlier acc seen.
  induction l as [|x l IH]; intros earlier acc seen Hseen.
  - simpl. by rewrite app_nil_r.
  - rewrite filter_cons. simpl keep_first_occurrences.
    destruct (decide (keep x)) as [Hk|Hk].
    + simpl unique_loop.
      assert (Hin : ID x ∈ seen ↔ ID x ∈ ID <$> earlier).
      { rewrite Hseen. rewrite !list_elem_of_fmap. split.
        - intros (y & -> & Hy). apply list_elem_of_filter in Hy as [_ Hy]. eauto.
        - intros (y & Hxy & Hy). exists y. split; [done|].
          apply list_elem_of_filter. split; [|done].
          unfold keep in *. congruence. }
      destruct (decide (ID x ∈ seen)) as [Hs|Hs];
        destruct (decide (ID x ∈ ID <$> earlier)) as [He|He]; try tauto.
      * apply IH. intros i. rewrite filter_app, fmap_app, elem_of_app.
        rewrite filter_cons_True by done. rewrite <- Hseen. simpl.
        rewrite list_elem_of_singleton. split; [tauto|].
        intros [?| ->]; done.
      * rewrite filter_cons_True by done.
        rewrite (IH (earlier ++ [x]) (acc ++ [x]) ({[ID x]} ∪ seen)).
        { by rewrite <- app_assoc. }
        intros i. rewrite filter_app, fmap_app, elem_of_app.
        rewrite filter_cons_True by done. rewrite <- Hseen. simpl.
        rewrite list_elem_of_singleton, elem_of_union, elem_of_singleton.
        tauto.
    + assert (Hrest : ∀ i, i ∈ seen ↔ i ∈ ID <$> filter keep (earlier ++ [x])).
      { intros i. rewrite filter_app, filter_cons_False by done.
        simpl. rewrite app_nil_r. apply Hseen. }
      destruct (decide (ID x ∈ ID <$> earlier)).
      * by apply IH.
      * rewrite filter_cons_False by done. by apply IH.
Qed.
End WithPinned.

Lemma keep_first_occurrences_sublist (l earlier : list Service) :
  sublist (keep_first_occurrences earlier l) l.
Proof.
  revert earlier. induction l as [|x l IH]; intros earlier; simpl.
  - constructor.
  - destruct (decide (ID x ∈ ID <$> earlier)).
    + apply sublist_cons, IH.
    + apply sublist_skip, IH.
Qed.

Lemma keep_first_occurrences_fresh (l earlier : list Service) (x : Service) :
  x ∈ keep_first_occurrences earlier l → ID x ∉ ID <$> earlier.
Proof.
  revert earlier. induction l as [|y l IH]; intros earlier; simpl.
  - by intros ?%elem_of_nil.
  - assert (Hrec : x ∈ keep_first_occurrences (earlier ++ [y]) l →
                   ID x ∉ ID <$> earlier).
    { intros Hx%IH Hin. apply Hx. rewrite fmap_app, elem_of_app. by left. }
    destruct (decide (ID y ∈ ID <$> earlier)) as [Hy|Hy]; [done|].
    intros [->|Hx]%elem_of_cons; [done|by apply Hrec].
Qed.

Lemma keep_first_occurrences_NoDup (l earlier : list Service) :
  NoDup (ID <$> keep_first_occurrences earlier l).
Proof.
  revert earlier. induction l as [|y l IH]; intros earlier; simpl.
  - constructor.
  - destruct (decide (ID y ∈ ID <$> earlier)); [apply IH|].
    rewrite fmap_cons. constructor; [|apply IH].
    intros (z & Hyz & Hz)%list_elem_of_fmap.
    apply keep_first_occurrences_fresh in Hz. apply Hz.
    rewrite fmap_app, elem_of_app. right. rewrite <- Hyz. simpl. by left.
Qed.

Lemma split_rotating_spec (pinned : Service) (tail : list Service) :
  (split_pinned_rotating (pinned :: tail)).2 = rotating_spec pinned tail.
Proof.
  unfold split_pinned_rotating, rotating_spec. simpl.
  rewrite (unique_loop_spec (ID pinned) tail [] [] ∅); [done|].
  intros i. simpl. set_solver.
Qed.

Lemma rotating_spec_sublist (pinned : Service) (tail : list Service) :
  sublist (rotating_spec pinned tail) tail.
Proof.
  unfold rotating_spec. etrans; [apply sublist_filter|].
  apply keep_first_occurrences_sublist.
Qed.

Lemma rotating_spec_NoDup (pinned : Service) (tail : list Service) :
  NoDup (ID <$> rotating_spec pinned tail).
Proof.
  unfold rotating_spec.
  apply (sublist_NoDup _ (ID <$> keep_first_occurrences [] tail)).
  - apply keep_first_occurrences_NoDup.
  - apply fmap_sublist, sublist_filter.
Qed.

Lemma StronglySorted_sublist {A} (R : relation A) (l1 l2 : list A) :
  sublist l1 l2 → StronglySorted R l2 → StronglySorted R l1.
Proof.
  induction 1 as [|x l1 l2 Hsub IH|x l1 l2 Hsub IH]; intros Hs.
  - constructor.
  - apply StronglySorted_inv in Hs as [Hs Hall]. constructor; [by apply IH|].
    rewrite Forall_forall in Hall |- *.
    intros y Hy. apply Hall. by eapply sublist_subseteq.
  - apply StronglySorted_inv in Hs as [Hs _]. by apply IH.
Qed.

Lemma Sorted_sublist {A} (R : relation A) `{!Transitive R} (l1 l2 : list A) :
  sublist l1 l2 → Sorted R l2 → Sorted R l1.
Proof.
  intros Hsub Hs. apply StronglySorted_Sorted.
  eapply StronglySorted_sublist; [done|]. by apply Sorted_StronglySorted.
Qed.

Lemma Sorted_head_least (x : Service) (l : list Service) :
  Sorted arrives_before (x :: l) → ∀ y, y ∈ x :: l → arrives_before x y.
Proof.
  intros Hs%(Sorted_StronglySorted _) y [->|Hy]%elem_of_cons.
  - unfold arrives_before. lia.
  - apply StronglySorted_inv in Hs as [_ Hall].
    rewrite Forall_forall in Hall. by apply Hall.
Qed.

End PartitionFacts.

(** ** Claims on the partition *)

Module PartitionClaims.
Import Partition PartitionFacts Samples.

Lemma sample_sorted : Sorted arrives_before [svA; svB; svB'; svC].
Proof.
  repeat first [apply Sorted_nil | apply Sorted_cons | apply HdRel_nil
               | apply HdRel_cons]; vm_compute; discriminate.
Defined.

(** C1.  For a service list sorted ascending by estimated-or-scheduled
    arrival: the empty list splits into (none, empty list); a non-empty
    list has its head pinned, the head arrives no later than any record of
    the list, no rotating record carries the pinned ID and no two rotating
    records share an ID. *)
Theorem split_pinned_rotating_sorted (Services : list Service) :
  Sorted arrives_before Services →
  match Services with
  | [] => split_pinned_rotating Services = (None, [])
  | first :: _ =>
      ∃ rotating,
        split_pinned_rotating Services = (Some first, rotating)
        ∧ (∀ svc, svc ∈ Services → arrives_before first svc)
        ∧ (∀ svc, svc ∈ rotating → ID svc ≠ ID first)
        ∧ NoDup (ID <$> rotating)
  end.
Proof.
  intros Hsorted. destruct Services as [|first tail]; [done|].
  exists (rotating_spec first tail).
  split_and!.
  - rewrite <- split_rotating_spec. done.
  - by apply Sorted_head_least.
  - unfold rotating_spec. by intros svc [? _]%list_elem_of_filter.
  - apply rotating_spec_NoDup.
Qed.

Lemma split_pinned_rotating_sorted_witness :
  ∃ rotating,
    split_pinned_rotating [svA; svB; svB'; svC] = (Some svA, rotating)
    ∧ (∀ svc, svc ∈ [svA; svB; svB'; svC] → arrives_before svA svc)
    ∧ (∀ svc, svc ∈ rotating → ID svc ≠ ID svA)
    ∧ NoDup (ID <$> rotating).
Proof.
  apply (split_pinned_rotating_sorted [svA; svB; svB'; svC]).
  exact sample_sorted.
Defined.

(** C10.  The rotating list is the tail of the input with the first
    occurrence of each ID kept and the records of the pinned ID dropped;
    it is a subsequence of that tail, in the same order; and when the
    service list is sorted ascending by arrival, so is the rotating list. *)
Theorem split_rotating_keeps_order (pinned : Service) (tail : list Service) :
  let rotating := (split_pinned_rotating (pinned :: tail)).2 in
  rotating = rotating_spec pinned tail
  ∧ sublist rotating tail
  ∧ (Sorted arrives_before (pinned :: tail) → Sorted arrives_before rotating).
Proof.
  intros rotating. unfold rotating. rewrite split_rotating_spec.
  split_and!; [done|apply rotating_spec_sublist|].
  intros Hs. apply (Sorted_sublist _ _ tail); [apply rotating_spec_sublist|].
  by apply Sorted_inv in Hs as [Hs _].
Qed.

Lemma split_rotating_keeps_order_witness :
  Sorted arrives_before [svA; svB; svB'; svC]
  ∧ (split_pinned_rotating [svA; svB; svB'; svC]).2 = [svB; svC]
  ∧ Sorted arrives_before (split_pinned_rotating [svA; svB; svB'; svC]).2.
Proof.
  split; [exact sample_sorted|]. split; [reflexivity|].
  apply (split_rotating_keeps_order svA [svB; svB'; svC]).
  exact sample_sorted.
Defined.

End PartitionClaims.

(** ** The update queue *)

Module QueueFacts.
Import Board QueueTrace.

Lemma set_update_queue_id (b : boardFixed.t) :
  set_update_queue (update_queue b) b = b.
Proof. by destruct b. Qed.

Lemma drain_loop_spec (queued : list Update) (b : boardFixed.t) :
  Queue.items (update_queue b) = queued →
  counted (update_queue b) →
  drain_loop queued b
  = (inr tt,
     set_update_queue
       (Queue.mk [] (Queue.unfinished_tasks (update_queue b)
                     - Z.of_nat (length queued))
                 (Queue.maxsize (update_queue b))) b).
Proof.
  revert b. induction queued as [|x rest IH]; intros b Hitems Hcount.
  - simpl. rewrite Z.sub_0_r. rewrite <- Hitems.
    destruct b as [? ? ? ? ? ? [] ? ? ? ? ? ? ? ? ? ? ? ? ? ?]. done.
  - unfold counted in Hcount. rewrite Hitems in Hcount.
    simpl drain_loop. unfold mbind, M_bind, get at 1.
    unfold Queue.empty. rewrite Hitems.
    rewrite bool_decide_eq_false_2 by done.
    unfold try_excepts, with_queue, Queue.get_nowait, Queue.task_done.
    rewrite Hitems. simpl.
    destruct (decide (Queue.unfinished_tasks (update_queue b) ≤ 0)) as [Hle|Hgt].
    { simpl length in Hcount. lia. }
    simpl. rewrite IH.
    + simpl. do 3 f_equal. simpl length. lia.
    + done.
    + unfold counted. simpl. simpl length in Hcount. lia.
Qed.

(** One call of [_enqueue_update] on a queue that counts its items:
    the call returns and leaves exactly the new item. *)
Lemma enqueue_update_eq (item : Update) (b : boardFixed.t) :
  counted (update_queue b) →
  _enqueue_update item b
  = (inr tt,
     set_update_queue
       (Queue.mk [item]
          (Queue.unfinished_tasks (update_queue b)
           - Z.of_nat (length (Queue.items (update_queue b))) + 1)
          (Queue.maxsize (update_queue b))) b).
Proof.
  intros Hcount. unfold _enqueue_update.
  unfold mbind, M_bind, get at 1.
  rewrite drain_loop_spec by done.
  unfold with_queue, Queue.put, Queue.full. simpl.
  destruct (decide (Queue.maxsize (update_queue b) ≤ 0)); [done|].
  rewrite bool_decide_eq_false_2 by (simpl; lia). done.
Qed.

Lemma queue_inv_counted (b : boardFixed.t) (holding : bool) :
  queue_inv (b, holding) → counted (update_queue b).
Proof. unfold queue_inv, counted. simpl. destruct holding; lia. Qed.

Lemma step_inv (ev : event) (st st' : boardFixed.t * bool) :
  queue_inv st → step ev st = Some st' → queue_inv st'.
Proof.
  destruct st as [b holding]. intros Hinv Hstep.
  pose proof (queue_inv_counted _ _ Hinv) as Hcount.
  unfold queue_inv in *. simpl in Hinv. destruct Hinv as [Hc Hl].
  destruct ev as [item| |]; simpl in Hstep.
  - rewrite enqueue_update_eq in Hstep by done.
    simplify_eq. simpl. split; [destruct holding; lia|lia].
  - destruct holding; [done|]. unfold with_queue, Queue.get_nowait in Hstep.
    destruct (Queue.items (update_queue b)) as [|x rest] eqn:Hitems; [done|].
    simplify_eq. simpl in *. lia.
  - destruct holding; [|done]. unfold with_queue, Queue.task_done in Hstep.
    destruct (decide (Queue.unfinished_tasks (update_queue b) ≤ 0)); [done|].
    simplify_eq. simpl in *. lia.
Qed.

Lemma run_inv (evs : list event) (st st' : boardFixed.t * bool) :
  queue_inv st → run evs st = Some st' → queue_inv st'.
Proof.
  revert st. induction evs as [|ev evs IH]; intros st Hinv Hrun; simpl in Hrun.
  - by simplify_eq.
  - destruct (step ev st) as [st1|] eqn:Hstep; [|done].
    eapply IH; [|done]. by eapply step_inv.
Qed.

(** C6.  From a fresh board, after any sequence of enqueues by the
    pipeline and of takes and completions by the consumer, the queue holds
    at most one item; and a further [_enqueue_update] returns and leaves
    exactly one item, the new one. *)
Theorem enqueue_update_keeps_newest (t0 : Z) (evs : list event)
    (b : boardFixed.t) (holding : bool) (item : Update) :
  run evs (new_board t0, false) = Some (b, holding) →
  (length (Queue.items (update_queue b)) ≤ 1)%nat
  ∧ ∃ b', _enqueue_update item b = (inr tt, b')
          ∧ Queue.items (update_queue b') = [item].
Proof.
  intros Hrun.
  assert (Hinv : queue_inv (b, holding)).
  { eapply run_inv; [|done]. unfold queue_inv. simpl. lia. }
  pose proof (queue_inv_counted _ _ Hinv) as Hcount.
  destruct Hinv as [_ Hl]. simpl in Hl. split; [done|].
  eexists. split; [by apply enqueue_update_eq|done].
Qed.

Lemma enqueue_update_keeps_newest_witness :
  ∃ b holding,
    run Samples.sample_events (new_board 0, false) = Some (b, holding)
    ∧ (length (Queue.items (update_queue b)) ≤ 1)%nat
    ∧ ∃ b', _enqueue_update (UData []) b = (inr tt, b')
            ∧ Queue.items (update_queue b') = [UData []].
Proof.
  destruct (run Samples.sample_events (new_board 0, false))
    as [[b holding]|] eqn:Hrun; [|vm_compute in Hrun; discriminate].
  exists b, holding. split; [reflexivity|].
  exact (enqueue_update_keeps_newest 0 Samples.sample_events b holding
           (UData []) Hrun).
Defined.

End QueueFacts.

(** ** The fetch pipeline *)

Module FetchFacts.
Import Board QueueTrace QueueFacts FetchSpec.

Section WithConfig.
Context (Args : Config).

(** The reachability check fails without raising: the outcome published
    is the network-unreachable kind. *)
Lemma fetch_offline (env : FetchEnv) (b : boardFixed.t) :
  FetchInProgress b = false →
  counted (update_queue b) →
  check_network_async env = inr false →
  ∃ b', fetch_and_sort_services Args env b = (inr false, b')
        ∧ FetchInProgress b' = false
        ∧ Queue.items (update_queue b')
          = [UError "wifi"
               ("Cannot reach " +:+ API_HOST Args +:+ ":" +:+ API_PORT Args)].
Proof.
  intros Hidle Hcount Hnet. unfold fetch_and_sort_services.
  unfold mbind at 1, M_bind, get at 1. rewrite Hidle.
  unfold finally, try_excepts. rewrite Hnet.
  unfold mbind, M_bind, modify, await, mret, M_ret. simpl.
  rewrite enqueue_update_eq by done. simpl.
  eexists. split; [reflexivity|]. done.
Qed.

(** C5, as the code has it.  When the fetch path raises an exception
    other than a cancellation, [fetch_and_sort_services] returns [False],
    raises nothing and leaves on the queue exactly one error item, of the
    kind the specification gives for the exception, with [str(e)] as its
    details; a cancellation is re-raised and the queue is left as it was.
    The fetch-in-progress flag is cleared in both cases. *)
Theorem fetch_failure_classified (env : FetchEnv) (b : boardFixed.t) (e : exn) :
  FetchInProgress b = false →
  counted (update_queue b) →
  raises env e →
  exn_cls e ≠ Suspended →
  ∃ b', FetchInProgress b' = false
    ∧ if decide (exn_cls e = CancelledError)
      then fetch_and_sort_services Args env b = (inl e, b')
           ∧ update_queue b' = update_queue b
      else fetch_and_sort_services Args env b = (inr false, b')
           ∧ Queue.items (update_queue b')
             = [UError (outage_kind e) (exn_str e)].
Proof.
  intros Hidle Hcount Hraises Hreal.
  destruct e as [cls msg]. simpl in Hreal.
  unfold outage_kind.
  destruct Hraises as [Hnet|[Hnet Hdata]];
    destruct cls; try done; simpl;
    unfold fetch_and_sort_services;
    unfold mbind at 1, M_bind, get at 1; rewrite Hidle;
    unfold finally, try_excepts, is_RequestException, is_Exception;
    rewrite Hnet, ?Hdata;
    unfold mbind, M_bind, modify, await, mret, M_ret, raise; simpl;
    try (rewrite enqueue_update_eq by done; simpl);
    eexists; (split; [|split; [reflexivity|]]); simpl; done.
Qed.

End WithConfig.

Lemma fetch_failure_classified_witness :
  ∃ b', FetchInProgress b' = false
    ∧ fetch_and_sort_services Samples.sample_config
        Samples.sample_fetch_timeout (new_board 0) = (inr false, b')
    ∧ Queue.items (update_queue b') = [UError "api" "read timed out"].
Proof.
  destruct (fetch_failure_classified Samples.sample_config
              Samples.sample_fetch_timeout (new_board 0)
              (mkExn RequestException "read timed out"))
    as (b' & Hflag & Hrun); [reflexivity|vm_compute; discriminate
                            |right; split; reflexivity|discriminate|].
  exists b'. split; [exact Hflag|]. exact Hrun.
Defined.

(** C5, as stated, fails on a cancellation: the fetch path raises
    [CancelledError], the exception leaves [fetch_and_sort_services] and
    nothing is published. *)
Lemma fetch_cancelled_escapes :
  raises Samples.sample_fetch_cancelled (mkExn CancelledError "")
  ∧ (fetch_and_sort_services Samples.sample_config
       Samples.sample_fetch_cancelled (new_board 0)).1
    = inl (mkExn CancelledError "")
  ∧ Queue.items
      (update_queue
         (fetch_and_sort_services Samples.sample_config
            Samples.sample_fetch_cancelled (new_board 0)).2) = [].
Proof. split; [right; split; reflexivity|]. split; reflexivity. Qed.

End FetchFacts.
Module CardFacts.
Import Board WellFormed CardSpec.

Lemma elem_of_remove_if_present (x image : ComposableImage)
    (l : list ComposableImage) :
  x ∈ l → img_id x ≠ img_id image → x ∈ remove_if_present image l.
Proof.
  unfold remove_if_present. intros Hin Hne.
  destruct (remove_first (img_id image) l) as [l'|] eqn:Hrem; [|done].
  revert l' Hrem. induction l as [|y l IH]; intros l' Hrem; simpl in Hrem.
  - done.
  - destruct (decide (img_id y = img_id image)) as [Heq|Hneq].
    + simplify_eq. apply elem_of_cons in Hin as [->|Hin]; [done|done].
    + destruct (remove_first (img_id image) l) as [l''|] eqn:Hrem'; [|done].
      simpl in Hrem. simplify_eq.
      apply elem_of_cons in Hin as [->|Hin]; [by left|].
      right. by apply IH.
Qed.

(** The images of a card, as [refresh] and [changeCard] take them out of
    the composition. *)
Lemma elem_of_remove_card (x : ComposableImage) (r : ScrollTime.t)
    (l : list ComposableImage) :
  x ∈ l →
  img_id x ≠ img_id (IDestination r) →
  img_id x ≠ img_id (IServiceNumber r) →
  img_id x ≠ img_id (IDisplayTime r) →
  x ∈ remove_if_present (IDisplayTime r)
        (remove_if_present (IServiceNumber r)
           (remove_if_present (IDestination r) l)).
Proof. intros. by repeat apply elem_of_remove_if_present. Qed.

Section WithConfig.
Context (Args : Config) (device : Device).

Ltac mrun :=
  unfold generateCard, new_time_image, new_image, sync_busy, sync_ready,
    add_image, modify_row, _safe_remove_image, refresh_composition, get_row,
    pass, modify, mbind, M_bind, get, mret, M_ret, raise; simpl.

Lemma get_row_Some (p : slot) (b : boardFixed.t) (r : ScrollTime.t) :
  row p b = Some r → get_row p b = (inr r, b).
Proof. intros H. unfold get_row, mbind, M_bind, get. by rewrite H. Qed.

Lemma refresh_eq (q : slot) (b : boardFixed.t) (r : ScrollTime.t) :
  row q b = Some r →
  refresh q b
  = (inr tt,
     set_composed_images
       (((remove_if_present (IDisplayTime r)
            (remove_if_present (IServiceNumber r)
               (remove_if_present (IDestination r) (composed_images b)))
          ++ [IDestination r]) ++ [IServiceNumber r]) ++ [IDisplayTime r]) b).
Proof.
  intros Hrow. unfold refresh. unfold mbind at 1, M_bind at 1.
  rewrite (get_row_Some _ _ _ Hrow). mrun. done.
Qed.

(** The partner's refresh touches the composition only, and takes out no
    image but the partner's own card. *)
Lemma refresh_partner_spec (partner : option slot) (b : boardFixed.t) :
  (∀ q, partner = Some q → is_Some (row q b)) →
  ∃ l, refresh_partner partner b = (inr tt, set_composed_images l b)
       ∧ ∀ x, x ∈ composed_images b →
              (∀ q r, row q b = Some r →
                      img_id x ≠ img_id (IDestination r)
                      ∧ img_id x ≠ img_id (IServiceNumber r)
                      ∧ img_id x ≠ img_id (IDisplayTime r)) →
              x ∈ l.
Proof.
  intros Hpartner. unfold refresh_partner. destruct partner as [q|].
  - destruct (Hpartner q eq_refl) as [below Hbelow].
    unfold mbind, M_bind. rewrite (get_row_Some _ _ _ Hbelow).
    destruct (decide (ID (CurrentService below) ≠ "0")).
    + rewrite (refresh_eq _ _ _ Hbelow). eexists. split; [done|].
      intros x Hx Hids. destruct (Hids q below Hbelow) as (?&?&?).
      rewrite !elem_of_app. do 3 left. by apply elem_of_remove_card.
    + exists (composed_images b). split; [by destruct b|done].
  - exists (composed_images b). split; [by destruct b|done].
Qed.

Lemma changeCard_spec (p : slot) (newService : Service) (b : boardFixed.t)
    (self : ScrollTime.t) :
  row p b = Some self →
  (∀ q, partner self = Some q → is_Some (row q b)) →
  ¬ (ID newService = "0" ∧ ID (CurrentService self) = "0") →
  ∃ b', changeCard Args device p newService b = (inr tt, b')
    ∧ row p b' = Some (changed_card Args device self newService (next_image b))
    ∧ (∀ q, q ≠ p → row q b' = row q b)
    ∧ same_controller b b'
    ∧ synchronised b' = <[position self := false]> (synchronised b)
    ∧ next_image b' = (next_image b + 4)%nat
    ∧ (ids_ok b →
       banner_image device (position self) newService (CurrentService self)
         (next_image b) ∈ composed_images b').
Proof.
  intros Hrow Hpartner Hne.
  unfold changeCard. unfold mbind at 1, M_bind at 1.
  rewrite (get_row_Some _ _ _ Hrow). rewrite decide_False by done.
  assert (Hself : ids_ok b → row_ids_below (next_image b) self).
  { intros H. exact (H p self Hrow). }
  destruct p; simpl in Hrow; mrun; rewrite Hrow; simpl.
  all: destruct (decide (ID (CurrentService self) ≠ "0")); simpl.
  all: match goal with
       | |- context [refresh_partner ?pt ?bx] =>
           destruct (refresh_partner_spec pt bx) as (l & -> & Hmem);
             [intros q Hq; destruct (Hpartner q Hq) as [r Hr];
              destruct q; simpl in Hr |- *; rewrite ?Hr; done|]
       end; simpl.
  all: rewrite ?Hrow; simpl.
  all: eexists; split; [reflexivity|]; simpl.
  all: split; [unfold changed_card; simpl; done|].
  all: split; [intros [] ?; done|].
  all: split; [done|].
  all: split; [done|].
  all: split; [lia|].
  all: intros Hids; destruct (Hself Hids) as (?&?&?&?); apply Hmem; simpl.
  all: try (intros q r Hr; pose proof (Hids q r) as Hq;
            destruct q; simpl in Hr, Hq; simplify_eq; simpl;
            try (destruct (Hq Hr) as (?&?&?&?)); lia).
  all: try (apply elem_of_remove_card; simpl; [|lia..]).
  all: rewrite !elem_of_app, !list_elem_of_singleton; left; right; done.
Qed.


(** Both the new and the shown service are blank: the row goes to [STUD]
    and nothing else happens. *)
Lemma changeCard_blank (p : slot) (newService : Service) (b : boardFixed.t)
    (self : ScrollTime.t) :
  row p b = Some self →
  ID newService = "0" ∧ ID (CurrentService self) = "0" →
  ∃ b', changeCard Args device p newService b = (inr tt, b')
    ∧ row p b' = Some (set_state STUD self)
    ∧ (∀ q, q ≠ p → row q b' = row q b)
    ∧ same_controller b b'
    ∧ synchronised b' = <[position self := true]> (synchronised b)
    ∧ next_image b' = next_image b
    ∧ composed_images b' = composed_images b.
Proof.
  intros Hrow Hblank.
  unfold changeCard. unfold mbind at 1, M_bind at 1.
  rewrite (get_row_Some _ _ _ Hrow). rewrite decide_True by done.
  destruct p; simpl in Hrow; mrun; rewrite Hrow; simpl.
  all: eexists; split; [reflexivity|]; simpl.
  all: split_and!; try done; intros []; done.
Qed.

Lemma remove_first_subseteq (id : nat) (l l' : list ComposableImage) :
  remove_first id l = Some l' → l' ⊆ l.
Proof.
  revert l'. induction l as [|y l IH]; intros l' Hrem; simpl in Hrem; [done|].
  destruct (decide (img_id y = id)).
  - simplify_eq. intros x Hx. by right.
  - destruct (remove_first id l) as [l''|]; simpl in Hrem; [|done].
    simplify_eq. specialize (IH _ eq_refl).
    intros x [->|Hx]%elem_of_cons; [by left|]. right. by apply IH.
Qed.

(** [updateCard]: whether or not the old time image was composed, the row
    ends in [SCROLL_DECIDER] with the banner attribute it had, and every
    banner composed afterwards was composed before. *)
Lemma updateCard_spec (p : slot) (newService : Service) (b : boardFixed.t)
    (self : ScrollTime.t) :
  row p b = Some self →
  let b' := (updateCard device p newService b).2 in
  ∃ self', row p b' = Some self'
    ∧ state self' = SCROLL_DECIDER
    ∧ IStaticOld self' = IStaticOld self
    ∧ ∀ image, is_banner image = true →
               image ∈ composed_images b' → image ∈ composed_images b.
Proof.
  intros Hrow. unfold updateCard, remove_image.
  destruct p; simpl in Hrow; mrun; rewrite Hrow; simpl.
  all: destruct (remove_first (img_id (IDisplayTime self)) (composed_images b))
         as [l|] eqn:Hrem; simpl; rewrite ?Hrow; simpl.
  all: eexists; split; [reflexivity|]; simpl; split_and!; try done.
  all: intros image Hb [Hin|Hin]%elem_of_app;
         [by eapply remove_first_subseteq
         |apply list_elem_of_singleton in Hin; by subst].
Qed.

End WithConfig.
End CardFacts.

(** ** Card changes: the claims *)

Module CardClaims.
Import Board WellFormed CardSpec CardFacts Samples.

Lemma sample_board_ids_ok : ids_ok sample_board.
Proof.
  intros [] r Hr; vm_compute in Hr; simplify_eq;
    unfold row_ids_below; vm_compute; repeat split; lia.
Defined.

Lemma sample_blank_board_ids_ok : ids_ok sample_blank_board.
Proof.
  intros [] r Hr; vm_compute in Hr; simplify_eq;
    unfold row_ids_below; vm_compute; repeat split; lia.
Defined.

Lemma sample_board_partner (r : ScrollTime.t) (q : slot) :
  partner r = Some q → is_Some (row q sample_board).
Proof. intros _. destruct q; vm_compute; eauto. Defined.

Section WithConfig.
Context (Args : Config) (device : Device).

(** C8, as the code has it.  A card change on a row whose partner, if
    any, exists returns.  Unless both the new and the shown service are
    the blank record, the row then holds the new record, its destination,
    number and time images are new ones built from it, the two-line banner
    (new service below the old one) is its banner and is composed, and its
    state is [WAIT_OPENING] for a service and [WAIT_STUD] for the blank
    record.  When both are blank the row only goes to [STUD]. *)
Theorem changeCard_rebuilds_card (p : slot) (newService : Service)
    (b : boardFixed.t) (self : ScrollTime.t) :
  row p b = Some self →
  (∀ q, partner self = Some q → is_Some (row q b)) →
  ids_ok b →
  ∃ b' self',
    changeCard Args device p newService b = (inr tt, b')
    ∧ row p b' = Some self'
    ∧ if decide (ID newService = "0" ∧ ID (CurrentService self) = "0")
      then self' = set_state STUD self
           ∧ composed_images b' = composed_images b
      else CurrentService self' = newService
           ∧ (IDestination self', IServiceNumber self', IDisplayTime self')
             = card_images Args device (position self) newService
                 (S (next_image b))
           ∧ IStaticOld self'
             = Some (banner_image device (position self) newService
                       (CurrentService self) (next_image b))
           ∧ banner_image device (position self) newService
               (CurrentService self) (next_image b) ∈ composed_images b'
           ∧ state self'
             = (if decide (ID newService = "0") then WAIT_STUD else WAIT_OPENING).
Proof.
  intros Hrow Hpartner Hids.
  destruct (decide (ID newService = "0" ∧ ID (CurrentService self) = "0"))
    as [Hblank|Hcard].
  - destruct (changeCard_blank Args device p newService b self Hrow Hblank)
      as (b' & Hrun & Hrow' & _ & _ & _ & _ & Hcomp).
    by exists b', (set_state STUD self).
  - destruct (changeCard_spec Args device p newService b self Hrow Hpartner Hcard)
      as (b' & Hrun & Hrow' & _ & _ & _ & _ & Hbanner).
    exists b', (changed_card Args device self newService (next_image b)).
    split_and!; try done. by apply Hbanner.
Qed.

(** C7, as the code has it.  [updateCard] never re-triggers the
    banner-slide animation, whatever the ID of the record it is given: the
    row ends in [SCROLL_DECIDER] and no banner is added to the composition.
    [changeCard] re-triggers it exactly when the new or the shown service
    is not the blank record, whether or not the two IDs differ. *)
Theorem banner_retriggered_by_changeCard (p : slot) (newService : Service)
    (b : boardFixed.t) (self : ScrollTime.t) :
  row p b = Some self →
  (∀ q, partner self = Some q → is_Some (row q b)) →
  ids_ok b →
  (∃ self',
     row p (updateCard device p newService b).2 = Some self'
     ∧ state self' = SCROLL_DECIDER
     ∧ ¬ banner_triggered self' (updateCard device p newService b).2
     ∧ ∀ image, is_banner image = true →
                image ∈ composed_images (updateCard device p newService b).2 →
                image ∈ composed_images b)
  ∧ (∃ b' self',
       changeCard Args device p newService b = (inr tt, b')
       ∧ row p b' = Some self'
       ∧ (banner_triggered self' b'
          ↔ ¬ (ID newService = "0" ∧ ID (CurrentService self) = "0"))
       ∧ (ID newService ≠ ID (CurrentService self) → banner_triggered self' b')).
Proof.
  intros Hrow Hpartner Hids. split.
  - destruct (updateCard_spec device p newService b self Hrow)
      as (self' & Hrow' & Hstate & _ & Hbanners).
    exists self'. split_and!; try done.
    intros [[Hs|Hs] _]; congruence.
  - assert (∃ b' self',
        changeCard Args device p newService b = (inr tt, b')
        ∧ row p b' = Some self'
        ∧ if decide (ID newService = "0" ∧ ID (CurrentService self) = "0")
          then self' = set_state STUD self
               ∧ composed_images b' = composed_images b
          else CurrentService self' = newService
               ∧ (IDestination self', IServiceNumber self', IDisplayTime self')
                 = card_images Args device (position self) newService
                     (S (next_image b))
               ∧ IStaticOld self'
                 = Some (banner_image device (position self) newService
                           (CurrentService self) (next_image b))
               ∧ banner_image device (position self) newService
                   (CurrentService self) (next_image b) ∈ composed_images b'
               ∧ state self'
                 = (if decide (ID newService = "0")
                    then WAIT_STUD else WAIT_OPENING))
      as (b' & self' & Hrun & Hrow' & Hcase).
    { destruct (decide (ID newService = "0" ∧ ID (CurrentService self) = "0"))
        as [Hblank|Hcard].
      - destruct (changeCard_blank Args device p newService b self Hrow Hblank)
          as (b' & Hrun & Hrow' & _ & _ & _ & _ & Hcomp).
        by exists b', (set_state STUD self).
      - destruct (changeCard_spec Args device p newService b self Hrow
                    Hpartner Hcard)
          as (b' & Hrun & Hrow' & _ & _ & _ & _ & Hbanner).
        exists b', (changed_card Args device self newService (next_image b)).
        split_and!; try done. by apply Hbanner. }
    exists b', self'. split_and!; try done.
    + destruct (decide (ID newService = "0" ∧ ID (CurrentService self) = "0"))
        as [Hblank|Hcard].
      * destruct Hcase as [-> _]. split; [|done].
        intros [[Hs|Hs] _]; simpl in Hs; congruence.
      * destruct Hcase as (_ & _ & Hold & Hin & Hstate). split; [done|].
        intros _. split.
        -- rewrite Hstate. destruct (decide (ID newService = "0")); auto.
        -- eexists. split_and!; [done|done|done].
    + intros Hdiff.
      destruct (decide (ID newService = "0" ∧ ID (CurrentService self) = "0"))
        as [[H1 H2]|Hcard]; [congruence|].
      destruct Hcase as (_ & _ & Hold & Hin & Hstate). split.
      * rewrite Hstate. destruct (decide (ID newService = "0")); auto.
      * eexists. split_and!; [done|done|done].
Qed.

End WithConfig.

Lemma changeCard_rebuilds_card_witness :
  ∃ b' self',
    changeCard sample_config sample_device Middle svC sample_board = (inr tt, b')
    ∧ row Middle b' = Some self'
    ∧ CurrentService self' = svC
    ∧ state self' = WAIT_OPENING.
Proof.
  destruct (middle sample_board) as [self|] eqn:Hrow;
    [|vm_compute in Hrow; discriminate].
  destruct (changeCard_rebuilds_card sample_config sample_device Middle svC
              sample_board self Hrow (sample_board_partner self)
              sample_board_ids_ok)
    as (b' & self' & Hrun & Hrow' & Hcase).
  rewrite decide_False in Hcase by (intros [? _]; discriminate).
  destruct Hcase as (Hsvc & _ & _ & _ & Hstate).
  exists b', self'. split; [exact Hrun|]. split; [exact Hrow'|].
  split; [exact Hsvc|]. exact Hstate.
Defined.

(** C8, as stated, fails when a blank row is given the blank record: the
    row goes to [STUD], not to [WAIT_STUD], keeps the record and the
    images it had, and no banner is composed. *)
Lemma changeCard_blank_on_blank :
  ∃ self b' self',
    row Top sample_blank_board = Some self
    ∧ changeCard sample_config sample_device Top LiveTimeStud
        sample_blank_board = (inr tt, b')
    ∧ row Top b' = Some self'
    ∧ state self' = STUD
    ∧ IDestination self' = IDestination self
    ∧ composed_images b' = composed_images sample_blank_board.
Proof. eexists _, _, _. vm_compute. repeat split; reflexivity. Qed.

Lemma banner_retriggered_by_changeCard_witness :
  ∃ b' self',
    changeCard sample_config sample_device Middle svC sample_board = (inr tt, b')
    ∧ row Middle b' = Some self'
    ∧ banner_triggered self' b'.
Proof.
  destruct (middle sample_board) as [self|] eqn:Hrow;
    [|vm_compute in Hrow; discriminate].
  destruct (banner_retriggered_by_changeCard sample_config sample_device
              Middle svC sample_board self Hrow (sample_board_partner self)
              sample_board_ids_ok)
    as (_ & b' & self' & Hrun & Hrow' & Hiff & _).
  exists b', self'. split; [exact Hrun|]. split; [exact Hrow'|].
  apply Hiff. intros [? _]; discriminate.
Defined.

(** C7, as stated, fails: a card change to a record with the ID the row
    already shows re-triggers the banner-slide animation. *)
Lemma changeCard_same_ID_retriggers :
  ∃ self b' self',
    row Middle sample_board = Some self
    ∧ ID svB' = ID (CurrentService self)
    ∧ changeCard sample_config sample_device Middle svB' sample_board
      = (inr tt, b')
    ∧ row Middle b' = Some self'
    ∧ state self' = WAIT_OPENING
    ∧ ∃ banner, IStaticOld self' = Some banner
                ∧ is_banner banner = true
                ∧ bool_decide (banner ∈ composed_images b') = true.
Proof.
  eexists _, _, _. vm_compute.
  repeat split; try reflexivity. eexists. repeat split; reflexivity.
Qed.

End CardClaims.

(** ** Row-driven rotation *)

Module RotationFacts.
Import Partition Board WellFormed CardSpec CardFacts.

Lemma py_index_lookup {A} (l : list A) (i : Z) :
  0 ≤ i < Z.of_nat (length l) → py_index l i = l !! Z.to_nat i.
Proof. intros Hi. unfold py_index. by rewrite decide_True. Qed.

Lemma py_index_mod_Some {A} (l : list A) (i : Z) :
  0 < Z.of_nat (length l) →
  ∃ x, py_index l (i `mod` Z.of_nat (length l)) = Some x
       ∧ l !! Z.to_nat (i `mod` Z.of_nat (length l)) = Some x.
Proof.
  intros Hlen.
  pose proof (Z.mod_pos_bound i (Z.of_nat (length l)) Hlen) as Hb.
  rewrite py_index_lookup by done.
  destruct (lookup_lt_is_Some_2 l (Z.to_nat (i `mod` Z.of_nat (length l))))
    as [x Hx]; [lia|]. by exists x.
Qed.

Lemma getitem_Some {A} (l : list A) (i : Z) (x : A) (b : boardFixed.t) :
  py_index l i = Some x → getitem l i b = (inr x, b).
Proof. intros H. unfold getitem. by rewrite H. Qed.

(** Stepping through a sequence of calls. *)
Lemma bind_get {A} (f : boardFixed.t → B A) (b : boardFixed.t) :
  (get ≫= f) b = f b b.
Proof. reflexivity. Qed.

Lemma bind_modify {A} (g : boardFixed.t → boardFixed.t) (f : unit → B A)
    (b : boardFixed.t) :
  (modify g ≫= f) b = f tt (g b).
Proof. reflexivity. Qed.

Lemma bind_inr {A C} (m : B A) (f : A → B C) (b b1 : boardFixed.t) (a : A) :
  m b = (inr a, b1) → (m ≫= f) b = f a b1.
Proof. intros H. unfold mbind, M_bind. by rewrite H. Qed.

Lemma finally_inr {A} (body : B A) (g : boardFixed.t → boardFixed.t)
    (b b1 : boardFixed.t) (a : A) :
  body b = (inr a, b1) → finally body (modify g) b = (inr a, g b1).
Proof. intros H. unfold finally. by rewrite H. Qed.

Section WithConfig.
Context (Args : Config) (device : Device).

(** A card change on a board with its three rows: it returns, the row
    holds the assigned record, and nothing of the other rows or of the
    controller changes. *)
Lemma changeCard_total (p : slot) (newService : Service) (b : boardFixed.t)
    (self : ScrollTime.t) :
  all_rows b →
  row p b = Some self →
  ∃ b' self',
    changeCard Args device p newService b = (inr tt, b')
    ∧ row p b' = Some self'
    ∧ CurrentService self' = assigned (CurrentService self) newService
    ∧ (∀ q, q ≠ p → row q b' = row q b)
    ∧ same_controller b b'
    ∧ all_rows b'.
Proof.
  intros Hall Hrow.
  assert (Hpartner : ∀ q, partner self = Some q → is_Some (row q b)).
  { intros q _. destruct Hall as (?&?&?). by destruct q. }
  assert (Hkeep : ∀ b' self', row p b' = Some self' →
            (∀ q, q ≠ p → row q b' = row q b) → all_rows b').
  { intros b' self' Hp Hq. destruct Hall as (?&?&?).
    pose proof (Hq Top) as Ht. pose proof (Hq Middle) as Hm.
    pose proof (Hq Bottom) as Hb. unfold all_rows.
    destruct p; simpl in *;
      rewrite ?Hp, ?Ht, ?Hm, ?Hb by done; eauto. }
  unfold assigned.
  destruct (decide (ID newService = "0" ∧ ID (CurrentService self) = "0"))
    as [Hblank|Hcard].
  - destruct (changeCard_blank Args device p newService b self Hrow Hblank)
      as (b' & Hrun & Hrow' & Hothers & Hctl & _).
    exists b', (set_state STUD self). split_and!; eauto.
  - destruct (changeCard_spec Args device p newService b self Hrow Hpartner Hcard)
      as (b' & Hrun & Hrow' & Hothers & Hctl & _).
    exists b', (changed_card Args device self newService (next_image b)).
    split_and!; eauto.
Qed.


(** Two card changes in a row, on the middle and on the bottom row. *)
Lemma change_two_cards (svc2 svc3 : Service) (b : boardFixed.t)
    (m bt : ScrollTime.t) :
  all_rows b → middle b = Some m → bottom b = Some bt →
  ∃ b2 m' bt',
    (changeCard Args device Middle svc2;;
     changeCard Args device Bottom svc3) b = (inr tt, b2)
    ∧ middle b2 = Some m' ∧ bottom b2 = Some bt' ∧ top b2 = top b
    ∧ CurrentService m' = assigned (CurrentService m) svc2
    ∧ CurrentService bt' = assigned (CurrentService bt) svc3
    ∧ same_controller b b2
    ∧ all_rows b2.
Proof.
  intros Hall Hm Hbt.
  destruct (changeCard_total Middle svc2 b m Hall Hm)
    as (b1 & m' & Hrun1 & Hm1 & Hsvc1 & Hothers1 & Hctl1 & Hall1).
  assert (Hbt1 : row Bottom b1 = Some bt) by (rewrite Hothers1; done).
  destruct (changeCard_total Bottom svc3 b1 bt Hall1 Hbt1)
    as (b2 & bt' & Hrun2 & Hbt2 & Hsvc2 & Hothers2 & Hctl2 & Hall2).
  exists b2, m', bt'.
  rewrite (bind_inr _ _ _ _ _ Hrun1), Hrun2.
  pose proof (Hothers2 Middle ltac:(done)) as Hm2.
  pose proof (Hothers2 Top ltac:(done)) as Ht2.
  pose proof (Hothers1 Top ltac:(done)) as Ht1.
  simpl in *. split_and!; try done; try congruence.
  unfold same_controller in *. destruct_and!. split_and!; congruence.
Qed.

End WithConfig.
End RotationFacts.

(** ** Row-driven rotation: the claims *)

Module RotationClaims.
Import Partition Board WellFormed CardSpec CardFacts RotationFacts Samples.

Section WithConfig.
Context (Args : Config) (device : Device).

(** C2, as the code has it.  A request from row 2 with no outage, no fetch
    due and no rotation pending returns.  With [L ≥ 2] rotating services
    and rotation index [i], the middle row is assigned [rotating[i mod L]],
    the bottom row [rotating[(i+1) mod L]], and the index becomes
    [(i+1) mod L].  With one rotating service the middle row is assigned
    it, the bottom row the blank record, and the index stays; with none
    both rows are assigned the blank record and the index stays. *)
Theorem requestCardChange_rotates (now : Z) (card : slot) (b : boardFixed.t)
    (m bt : ScrollTime.t) :
  all_rows b → middle b = Some m → bottom b = Some bt →
  truthy (outage_state b) = false →
  TimePassed Args now b = false →
  rotating_update_pending b = false →
  let rotating := (split_pinned_rotating (Services b)).2 in
  let L := Z.of_nat (length rotating) in
  let i := rotating_index b in
  ∃ b' m' bt',
    requestCardChange Args device now card 2 b = (inr tt, b')
    ∧ middle b' = Some m' ∧ bottom b' = Some bt' ∧ top b' = top b
    ∧ rotating_update_pending b' = false
    ∧ if decide (2 ≤ L) then
        ∃ r2 r3,
          rotating !! Z.to_nat (i `mod` L) = Some r2
          ∧ rotating !! Z.to_nat ((i + 1) `mod` L) = Some r3
          ∧ CurrentService m' = assigned (CurrentService m) r2
          ∧ CurrentService bt' = assigned (CurrentService bt) r3
          ∧ rotating_index b' = (i + 1) `mod` L
      else if decide (L = 1) then
        ∃ r,
          rotating !! 0%nat = Some r
          ∧ CurrentService m' = assigned (CurrentService m) r
          ∧ CurrentService bt' = assigned (CurrentService bt) LiveTimeStud
          ∧ rotating_index b' = i
      else
        CurrentService m' = assigned (CurrentService m) LiveTimeStud
        ∧ CurrentService bt' = assigned (CurrentService bt) LiveTimeStud
        ∧ rotating_index b' = i.
Proof.
  intros Hall Hm Hbt Houtage Htime Hpending rotating L i.
  unfold requestCardChange. rewrite bind_get, Houtage, Htime.
  subst rotating L. destruct (split_pinned_rotating (Services b))
    as [pinned rotating] eqn:Hsplit. cbn [snd].
  rewrite bool_decide_eq_false_2 by done. cbn [andb].
  rewrite decide_False by (intros H; by apply H).
  rewrite Hpending, bind_modify.
  set (b0 := set_rotating_update_pending true b).
  assert (Hall0 : all_rows b0) by done.
  destruct (decide (Z.of_nat (length rotating) = 0)) as [H0|Hn0];
    [|destruct (decide (Z.of_nat (length rotating) = 1)) as [H1|Hn1]].
  - destruct (change_two_cards Args device LiveTimeStud LiveTimeStud b0 m bt
                Hall0 Hm Hbt)
      as (b2 & m' & bt' & Hrun & Hm2 & Hbt2 & Ht2 & Hs2 & Hs3 & Hctl & _).
    exists (set_rotating_update_pending false b2), m', bt'.
    split; [by apply finally_inr|].
    rewrite decide_False by lia. rewrite decide_False by lia.
    simpl. split_and!; try done. unfold same_controller in Hctl. by destruct_and!.
  - destruct rotating as [|r [|? ?]]; simpl in H1; try lia.
    destruct (change_two_cards Args device r LiveTimeStud b0 m bt
                Hall0 Hm Hbt)
      as (b2 & m' & bt' & Hrun & Hm2 & Hbt2 & Ht2 & Hs2 & Hs3 & Hctl & _).
    exists (set_rotating_update_pending false b2), m', bt'.
    split.
    { apply finally_inr.
      by rewrite (bind_inr _ _ _ _ _ (getitem_Some [r] 0 r b0 eq_refl)). }
    rewrite decide_False by (simpl; lia).
    simpl. split_and!; try done. exists r.
    split_and!; try done. unfold same_controller in Hctl. by destruct_and!.
  - assert (Hlen : 0 < Z.of_nat (length rotating)) by lia.
    destruct (py_index_mod_Some rotating (rotating_index b0) Hlen)
      as (r2 & Hget2 & Hr2).
    destruct (py_index_mod_Some rotating (rotating_index b0 + 1) Hlen)
      as (r3 & Hget3 & Hr3).
    destruct (changeCard_total Args device Middle r2 b0 m Hall0 Hm)
      as (b1 & m' & Hrun1 & Hm1 & Hsvc1 & Hothers1 & Hctl1 & Hall1).
    assert (Hbt1 : row Bottom b1 = Some bt) by (rewrite Hothers1; done).
    destruct (changeCard_total Args device Bottom r3 b1 bt Hall1 Hbt1)
      as (b2 & bt' & Hrun2 & Hbt2 & Hsvc2 & Hothers2 & Hctl2 & Hall2).
    pose proof (Hothers2 Middle ltac:(done)) as Hm2.
    pose proof (Hothers2 Top ltac:(done)) as Ht2.
    pose proof (Hothers1 Top ltac:(done)) as Ht1.
    unfold same_controller in Hctl1, Hctl2. destruct_and!.
    eexists _, m', bt'. split.
    { apply finally_inr. rewrite bind_get.
      rewrite (bind_inr _ _ _ _ _ (getitem_Some _ _ _ b0 Hget2)).
      rewrite (bind_inr _ _ _ _ _ Hrun1).
      rewrite (bind_inr _ _ _ _ _ (getitem_Some _ _ _ b1 Hget3)).
      rewrite (bind_inr _ _ _ _ _ Hrun2).
      rewrite bind_get. reflexivity. }
    rewrite decide_True by lia.
    simpl in *. split_and!; try congruence.
    exists r2, r3. subst i. split_and!; try done.
    replace (rotating_index b2) with (rotating_index b) by congruence. done.
Qed.

(** What a request from row 1 does: it returns and leaves the three rows
    (their records, states and images), the rotation index and the service
    list as they were.  With no outage and no fetch due, the branch for
    pin-to-earliest takes the destination, number and time images of the
    top row out of the composition and puts them back at its end; with
    pin-to-earliest disabled the request falls through to the guard for
    row 2 and nothing changes at all. *)
Theorem requestCardChange_row1 (now : Z) (card : slot) (b : boardFixed.t)
    (t : ScrollTime.t) :
  top b = Some t →
  ∃ b',
    requestCardChange Args device now card 1 b = (inr tt, b')
    ∧ top b' = top b ∧ middle b' = middle b ∧ bottom b' = bottom b
    ∧ rotating_index b' = rotating_index b
    ∧ Services b' = Services b
    ∧ (truthy (outage_state b) = false →
       TimePassed Args now b = false →
       if FixToArrive Args then
         b' = set_composed_images
                (((remove_if_present (IDisplayTime t)
                     (remove_if_present (IServiceNumber t)
                        (remove_if_present (IDestination t)
                           (composed_images b)))
                   ++ [IDestination t]) ++ [IServiceNumber t])
                 ++ [IDisplayTime t]) b
       else b' = b).
Proof.
  intros Htop. unfold requestCardChange. rewrite bind_get.
  destruct (truthy (outage_state b)).
  { exists b. split_and!; done. }
  destruct (TimePassed Args now b).
  { unfold _schedule_fetch.
    unfold mbind, M_bind, get, modify, mret, M_ret, pass.
    destruct (bool_decide (_fetch_task b = Some false));
      [|destruct (FetchInProgress b)];
      eexists; (split; [reflexivity|]); simpl; split_and!; done. }
  destruct (split_pinned_rotating (Services b)) as [pinned rotating].
  rewrite bool_decide_eq_true_2 by done. cbn [andb].
  destruct (FixToArrive Args).
  - rewrite (refresh_eq Top b t Htop). eexists. split; [reflexivity|].
    simpl. split_and!; done.
  - rewrite decide_True by done. exists b. split_and!; done.
Qed.

End WithConfig.

Lemma requestCardChange_row1_witness :
  ∃ b',
    requestCardChange sample_config sample_device 10 Top 1 sample_board
    = (inr tt, b')
    ∧ top b' = top sample_board
    ∧ rotating_index b' = rotating_index sample_board.
Proof.
  destruct (top sample_board) as [t|] eqn:Ht;
    [|vm_compute in Ht; discriminate].
  destruct (requestCardChange_row1 sample_config sample_device 10 Top
              sample_board t Ht)
    as (b' & Hrun & Htop & _ & _ & Hidx & _).
  exists b'. split; [exact Hrun|]. split; [|exact Hidx].
  rewrite Htop. exact Ht.
Defined.


Lemma sample_board_rows : all_rows sample_board.
Proof. unfold all_rows. repeat split; eexists; vm_compute; reflexivity. Defined.

Lemma requestCardChange_rotates_witness :
  ∃ b' m' bt',
    requestCardChange sample_config sample_device 10 Middle 2 sample_board
    = (inr tt, b')
    ∧ middle b' = Some m' ∧ bottom b' = Some bt'
    ∧ CurrentService m' = svB ∧ CurrentService bt' = svC
    ∧ rotating_index b' = 1.
Proof.
  destruct (middle sample_board) as [m|] eqn:Hm;
    [|vm_compute in Hm; discriminate].
  destruct (bottom sample_board) as [bt|] eqn:Hbt;
    [|vm_compute in Hbt; discriminate].
  destruct (requestCardChange_rotates sample_config sample_device 10 Middle
              sample_board m bt sample_board_rows Hm Hbt
              eq_refl eq_refl eq_refl)
    as (b' & m' & bt' & Hrun & Hm' & Hbt' & _ & _ & Hcase).
  rewrite decide_True in Hcase by (vm_compute; discriminate).
  destruct Hcase as (r2 & r3 & Hr2 & Hr3 & Hs2 & Hs3 & Hidx).
  vm_compute in Hr2, Hr3.
  injection Hr2 as <-. injection Hr3 as <-.
  exists b', m', bt'. split; [exact Hrun|]. split; [exact Hm'|].
  split; [exact Hbt'|]. split; [exact Hs2|]. split; [exact Hs3|]. exact Hidx.
Defined.

(** C2, as stated, fails with one rotating service: the bottom row is
    given the blank record, not [rotating[(i+1) mod 1]]. *)
Lemma requestCardChange_single_rotating :
  ∃ b' bt',
    (split_pinned_rotating (Services sample_board_single)).2 = [svB]
    ∧ requestCardChange sample_config sample_device 10 Middle 2
        sample_board_single = (inr tt, b')
    ∧ bottom b' = Some bt'
    ∧ CurrentService bt' = LiveTimeStud
    ∧ CurrentService bt' ≠ svB.
Proof. eexists _, _. vm_compute. repeat split; try reflexivity. discriminate. Qed.

End RotationClaims.

(** ** Reassignment on new data *)

Module ReanchorFacts.
Import Partition PartitionFacts Board WellFormed CardSpec CardFacts RotationFacts.

Lemma find_by_id_Some (rotating : list Service) (id : string) (k : nat) :
  find_by_id rotating id = Some k →
  ∃ svc, rotating !! k = Some svc ∧ ID svc = id.
Proof.
  unfold find_by_id. intros H.
  destruct (list_find (λ svc, ID svc = id) rotating) as [[i svc]|] eqn:Hfind;
    simpl in H; [|done].
  simplify_eq. apply list_find_Some in Hfind as (Hk & Hid & _). eauto.
Qed.

Lemma find_by_id_None (rotating : list Service) (id : string) :
  find_by_id rotating id = None ↔ id ∉ ID <$> rotating.
Proof.
  unfold find_by_id. rewrite fmap_None, list_find_None, Forall_forall.
  rewrite list_elem_of_fmap. split.
  - intros H (svc & -> & Hin). by apply (H svc).
  - intros H svc Hin Hid. apply H. eauto.
Qed.

(** In a list without duplicate IDs a record is found where it stands. *)
Lemma find_by_id_NoDup (rotating : list Service) (svc : Service) (k : nat) :
  NoDup (ID <$> rotating) →
  rotating !! k = Some svc →
  find_by_id rotating (ID svc) = Some k.
Proof.
  intros Hnodup Hk.
  destruct (find_by_id rotating (ID svc)) as [j|] eqn:Hfind.
  - apply find_by_id_Some in Hfind as (svc' & Hj & Hid).
    f_equal. eapply NoDup_lookup; [exact Hnodup| |].
    + rewrite list_lookup_fmap, Hj. simpl. by rewrite Hid.
    + by rewrite list_lookup_fmap, Hk.
  - apply find_by_id_None in Hfind. destruct Hfind.
    apply list_elem_of_fmap. exists svc. split; [done|].
    by eapply list_elem_of_lookup_2.
Qed.

(** The visible IDs are tried in order; the first that occurs decides. *)
Lemma find_visible_Some (visible_ids : list string) (rotating : list Service)
    (k : nat) :
  find_visible visible_ids rotating = Some k →
  ∃ before vis_id after svc,
    visible_ids = before ++ vis_id :: after
    ∧ (∀ v, v ∈ before → v ∉ ID <$> rotating)
    ∧ rotating !! k = Some svc ∧ ID svc = vis_id.
Proof.
  induction visible_ids as [|v rest IH]; simpl; [done|].
  destruct (find_by_id rotating v) as [i|] eqn:Hfind.
  - intros ?. simplify_eq.
    apply find_by_id_Some in Hfind as (svc & Hk & Hid).
    exists [], v, rest, svc. split_and!; try done.
    intros ? ?%elem_of_nil. done.
  - intros (before & vis_id & after & svc & -> & Hbefore & Hk & Hid)%IH.
    exists (v :: before), vis_id, after, svc. split_and!; try done.
    intros v' [->|Hin]%elem_of_cons; [by apply find_by_id_None|by apply Hbefore].
Qed.

Lemma find_visible_None (visible_ids : list string) (rotating : list Service) :
  find_visible visible_ids rotating = None ↔
  ∀ v, v ∈ visible_ids → v ∉ ID <$> rotating.
Proof.
  induction visible_ids as [|v rest IH]; simpl.
  - split; [intros _ ? ?%elem_of_nil; done|done].
  - destruct (find_by_id rotating v) as [i|] eqn:Hfind.
    + split; [done|]. intros H.
      apply find_by_id_Some in Hfind as (svc & Hk & Hid).
      destruct (H v); [by left|].
      apply list_elem_of_fmap. exists svc. split; [done|].
      by eapply list_elem_of_lookup_2.
    + rewrite IH. apply find_by_id_None in Hfind. split.
      * intros H v' [->|Hin]%elem_of_cons; [done|by apply H].
      * intros H v' Hin. apply H. by right.
Qed.

Lemma same_controller_refl (b : boardFixed.t) : same_controller b b.
Proof. unfold same_controller. split_and!; done. Qed.

Lemma same_controller_trans (b1 b2 b3 : boardFixed.t) :
  same_controller b1 b2 → same_controller b2 b3 → same_controller b1 b3.
Proof.
  unfold same_controller. intros H1 H2. destruct_and!.
  split_and!; congruence.
Qed.

Lemma card_step_pass : card_step pass.
Proof. intros b Hall. exists b. split_and!; [done|apply same_controller_refl|done]. Qed.

Lemma card_step_bind (m k : B unit) :
  card_step m → card_step k → card_step (m;; k).
Proof.
  intros Hm Hk b Hall.
  destruct (Hm b Hall) as (b1 & Hrun1 & Hctl1 & Hall1).
  destruct (Hk b1 Hall1) as (b2 & Hrun2 & Hctl2 & Hall2).
  exists b2. rewrite (bind_inr _ _ _ _ _ Hrun1).
  split_and!; [done|by eapply same_controller_trans|done].
Qed.

Lemma card_step_get (f : boardFixed.t → B unit) :
  (∀ b0, card_step (f b0)) → card_step (get ≫= f).
Proof. intros Hf b Hall. rewrite bind_get. by apply Hf. Qed.

Lemma card_step_if (c : bool) (m k : B unit) :
  card_step m → card_step k → card_step (if c then m else k).
Proof. by destruct c. Qed.

Section WithConfig.
Context (Args : Config) (device : Device).

Lemma card_step_changeCard (p : slot) (svc : Service) :
  card_step (changeCard Args device p svc).
Proof.
  intros b Hall.
  assert (Hrow : is_Some (row p b)).
  { destruct Hall as (?&?&?). by destruct p. }
  destruct Hrow as [self Hrow].
  destruct (changeCard_total Args device p svc b self Hall Hrow)
    as (b' & self' & Hrun & _ & _ & _ & Hctl & Hall').
  by exists b'.
Qed.

(** With rows on the board, [update_display_with_new_data] returns, and
    the rotation index it leaves is the re-anchored one when there are
    rotating services and the old one when there are none. *)
Lemma update_display_index (b : boardFixed.t) (t : ScrollTime.t) :
  all_rows b → top b = Some t →
  ∃ b',
    update_display_with_new_data Args device b = (inr tt, b')
    ∧ rotating_index b'
      = let rotating := (split_pinned_rotating (Services b)).2 in
        if decide (0 < Z.of_nat (length rotating)) then
          reanchor rotating
            (match middle b with
             | Some m =>
                 if decide (ID (CurrentService m) ≠ "0")
                 then Some (ID (CurrentService m)) else None
             | None => None
             end)
            (visible_id (top b) ++ visible_id (middle b) ++ visible_id (bottom b))
            (rotating_index b)
        else rotating_index b.
Proof.
  intros Hall Htop. unfold update_display_with_new_data.
  rewrite bind_get, Htop.
  destruct (split_pinned_rotating (Services b)) as [pinned rotating]. cbn [snd].
  cbv zeta.
  set (current_middle_id :=
         match middle b with
         | Some m =>
             if decide (ID (CurrentService m) ≠ "0")
             then Some (ID (CurrentService m)) else None
         | None => None
         end).
  set (visible := visible_id (Some t) ++ visible_id (middle b) ++ visible_id (bottom b)).
  set (next_top :=
         match pinned with
         | Some pinned0 =>
             if FixToArrive Args
                && bool_decide (ID (CurrentService t) ≠ ID pinned0)
             then Some pinned0 else None
         | None => if FixToArrive Args then Some LiveTimeStud else None
         end).
  assert (Htail : ∀ next_middle next_bottom,
    card_step
      (match next_top with
       | Some svc => changeCard Args device Top svc
       | None => pass
       end;;
       b ← get;
       (if bool_decide
             (ID <$> (CurrentService <$> middle b) ≠ Some (ID next_middle))
        then changeCard Args device Middle next_middle else pass);;
       b ← get;
       if bool_decide
            (ID <$> (CurrentService <$> bottom b) ≠ Some (ID next_bottom))
       then changeCard Args device Bottom next_bottom else pass)).
  { intros next_middle next_bottom.
    apply card_step_bind.
    { destruct next_top; [apply card_step_changeCard|apply card_step_pass]. }
    apply card_step_get. intros b0. apply card_step_bind.
    { apply card_step_if; [apply card_step_changeCard|apply card_step_pass]. }
    apply card_step_get. intros b1.
    apply card_step_if; [apply card_step_changeCard|apply card_step_pass]. }
  destruct (decide (0 < Z.of_nat (length rotating))) as [Hlen|Hlen].
  - set (idx := reanchor rotating current_middle_id visible (rotating_index b)).
    destruct (py_index_mod_Some rotating idx Hlen) as (next_middle & Hget2 & _).
    assert (Hcalc : ∃ next_bottom,
      (getitem rotating (idx `mod` Z.of_nat (length rotating)) ≫= λ next_middle,
         (if decide (0 ≤ (if decide (1 < Z.of_nat (length rotating))
                          then (idx + 1) `mod` Z.of_nat (length rotating)
                          else -1))
          then getitem rotating
                 (if decide (1 < Z.of_nat (length rotating))
                  then (idx + 1) `mod` Z.of_nat (length rotating) else -1)
          else mret LiveTimeStud) ≫= λ next_bottom,
           mret (idx, next_middle, next_bottom)) b
      = (inr (idx, next_middle, next_bottom), b)).
    { rewrite (bind_inr _ _ _ _ _ (getitem_Some _ _ _ b Hget2)).
      destruct (decide (1 < Z.of_nat (length rotating))).
      - destruct (py_index_mod_Some rotating (idx + 1) Hlen)
          as (next_bottom & Hget3 & _).
        pose proof (Z.mod_pos_bound (idx + 1) _ Hlen).
        rewrite decide_True by lia. exists next_bottom.
        by rewrite (bind_inr _ _ _ _ _ (getitem_Some _ _ _ b Hget3)).
      - rewrite decide_False by lia. by exists LiveTimeStud. }
    destruct Hcalc as (next_bottom & Hcalc).
    rewrite (bind_inr _ _ _ _ _ Hcalc), bind_modify.
    destruct (Htail next_middle next_bottom (set_rotating_index idx b) Hall)
      as (b' & Hrun & Hctl & _).
    exists b'. split; [exact Hrun|].
    unfold same_controller in Hctl. destruct_and!.
    by replace (rotating_index b') with idx.
  - unfold mbind at 1, M_bind at 1, mret at 1, M_ret at 1.
    rewrite bind_modify.
    destruct (Htail LiveTimeStud LiveTimeStud
                (set_rotating_index (rotating_index b) b) Hall)
      as (b' & Hrun & Hctl & _).
    exists b'. split; [exact Hrun|].
    unfold same_controller in Hctl. by destruct_and!.
Qed.

End WithConfig.

Lemma split_rotating_NoDup (Services : list Service) :
  NoDup (ID <$> (split_pinned_rotating Services).2).
Proof.
  destruct Services as [|pinned tail]; [constructor|].
  rewrite split_rotating_spec. apply rotating_spec_NoDup.
Qed.

End ReanchorFacts.

(** ** Reassignment on new data: the claim *)

Module ReanchorClaims.
Import Partition Board WellFormed ReanchorFacts Samples.

Section WithConfig.
Context (Args : Config) (device : Device).

(** C3.  On a board with its three rows, [update_display_with_new_data]
    returns, and the rotation index it leaves is: the position in the new
    rotating list of the service the middle row shows, when that row shows
    a service and its ID occurs there; otherwise, when the ID of some
    visible service occurs in the new list, the position of the first
    visible ID (top, middle, bottom) that occurs; and the old index when
    no visible ID occurs. *)
Theorem update_display_reanchors (b : boardFixed.t) (t m bt : ScrollTime.t) :
  top b = Some t → middle b = Some m → bottom b = Some bt →
  let rotating := (split_pinned_rotating (Services b)).2 in
  let visible :=
    visible_id (top b) ++ visible_id (middle b) ++ visible_id (bottom b) in
  ∃ b',
    update_display_with_new_data Args device b = (inr tt, b')
    ∧ (∀ k svc,
         ID (CurrentService m) ≠ "0" →
         rotating !! k = Some svc →
         ID svc = ID (CurrentService m) →
         rotating_index b' = Z.of_nat k)
    ∧ (ID (CurrentService m) = "0" ∨ ID (CurrentService m) ∉ ID <$> rotating →
       (∃ v, v ∈ visible ∧ v ∈ ID <$> rotating) →
       ∃ before v after k svc,
         visible = before ++ v :: after
         ∧ (∀ u, u ∈ before → u ∉ ID <$> rotating)
         ∧ rotating !! k = Some svc ∧ ID svc = v
         ∧ rotating_index b' = Z.of_nat k)
    ∧ ((∀ v, v ∈ visible → v ∉ ID <$> rotating) →
       rotating_index b' = rotating_index b).
Proof.
  intros Htop Hm Hbt rotating visible.
  assert (Hall : all_rows b).
  { unfold all_rows. rewrite Htop, Hm, Hbt. eauto. }
  destruct (update_display_index Args device b t Hall Htop) as (b' & Hrun & Hidx).
  exists b'. split; [exact Hrun|].
  pose proof (split_rotating_NoDup (Services b)) as Hnodup.
  fold rotating in Hnodup. cbv zeta in Hidx. fold rotating visible in Hidx.
  rewrite Hm in Hidx. unfold reanchor in Hidx.
  assert (Hne : ∀ x, x ∈ ID <$> rotating → 0 < Z.of_nat (length rotating)).
  { intros x Hx. destruct rotating; [by apply elem_of_nil in Hx|simpl; lia]. }
  split_and!.
  - intros k svc Hshown Hk Hid.
    rewrite decide_True in Hidx.
    2: { apply (Hne (ID svc)), list_elem_of_fmap. exists svc.
         split; [done|]. by eapply list_elem_of_lookup_2. }
    rewrite (decide_True _ _ Hshown) in Hidx.
    assert (Hsome : Some (ID (CurrentService m)) ≠ Some "0") by congruence.
    rewrite !(decide_True _ _ Hsome) in Hidx.
    rewrite <- Hid, (find_by_id_NoDup _ _ _ Hnodup Hk) in Hidx.
    by rewrite decide_True in Hidx by lia.
  - intros Hmiddle (v & Hv & Hocc).
    rewrite (decide_True _ _ (Hne v Hocc)) in Hidx.
    assert (Hmid :
      (if decide ((if decide (ID (CurrentService m) ≠ "0")
                   then Some (ID (CurrentService m)) else None) ≠ Some "0")
       then match (if decide (ID (CurrentService m) ≠ "0")
                   then Some (ID (CurrentService m)) else None) with
            | Some id =>
                match find_by_id rotating id with
                | Some i => Z.of_nat i
                | None => -1
                end
            | None => -1
            end
       else -1) = -1).
    { destruct (decide (ID (CurrentService m) ≠ "0")) as [Hs|Hs].
      - destruct Hmiddle as [?|Hocc']; [done|].
        apply find_by_id_None in Hocc'. rewrite Hocc'.
        by destruct (decide (Some (ID (CurrentService m)) ≠ Some "0")).
      - by destruct (decide (None ≠ Some "0")). }
    rewrite Hmid in Hidx. rewrite decide_False in Hidx by lia.
    rewrite decide_True in Hidx.
    2: { destruct visible; [by apply elem_of_nil in Hv|simpl; lia]. }
    destruct (find_visible visible rotating) as [k|] eqn:Hfind.
    + apply find_visible_Some in Hfind
        as (before & v' & after & svc & Heq & Hbefore & Hk & Hid).
      exists before, v', after, k, svc. split_and!; done.
    + destruct (proj1 (find_visible_None _ _) Hfind v Hv Hocc).
  - intros Hnone. case_decide as Hlen; [|done].
    assert (Hmid :
      (if decide ((if decide (ID (CurrentService m) ≠ "0")
                   then Some (ID (CurrentService m)) else None) ≠ Some "0")
       then match (if decide (ID (CurrentService m) ≠ "0")
                   then Some (ID (CurrentService m)) else None) with
            | Some id =>
                match find_by_id rotating id with
                | Some i => Z.of_nat i
                | None => -1
                end
            | None => -1
            end
       else -1) = -1).
    { destruct (decide (ID (CurrentService m) ≠ "0")) as [Hs|Hs].
      - assert (Hocc : ID (CurrentService m) ∉ ID <$> rotating).
        { apply Hnone. unfold visible. rewrite Hm. simpl.
          rewrite (decide_True _ _ Hs). rewrite !elem_of_app.
          right. left. by left. }
        apply find_by_id_None in Hocc. rewrite Hocc.
        by destruct (decide (Some (ID (CurrentService m)) ≠ Some "0")).
      - by destruct (decide (None ≠ Some "0")). }
    rewrite Hmid in Hidx. rewrite decide_False in Hidx by lia.
    rewrite (proj2 (find_visible_None _ _) Hnone) in Hidx.
    by destruct (decide (0 < Z.of_nat (length visible))).
Qed.

End WithConfig.

Lemma update_display_reanchors_witness :
  ∃ b',
    update_display_with_new_data sample_config sample_device
      sample_board_new_data = (inr tt, b')
    ∧ rotating_index sample_board_new_data = 0
    ∧ rotating_index b' = 1.
Proof.
  destruct (top sample_board_new_data) as [t|] eqn:Ht;
    [|vm_compute in Ht; discriminate].
  destruct (middle sample_board_new_data) as [m|] eqn:Hm;
    [|vm_compute in Hm; discriminate].
  destruct (bottom sample_board_new_data) as [bt|] eqn:Hbt;
    [|vm_compute in Hbt; discriminate].
  destruct (update_display_reanchors sample_config sample_device
              sample_board_new_data t m bt Ht Hm Hbt)
    as (b' & Hrun & Hfound & _ & _).
  exists b'. split; [exact Hrun|]. split; [reflexivity|].
  vm_compute in Hm. injection Hm as <-.
  apply (Hfound 1%nat svB); [discriminate|reflexivity|reflexivity].
Defined.

End ReanchorClaims.

(** ** The synchroniser and the rows *)

Module SystemFacts.
Import Partition Board System.

(** *** Computations that leave the view alone *)

Lemma cosmetic_ret {A} (a : A) : cosmetic (mret a : B A).
Proof. by intros b. Qed.

Lemma cosmetic_raise {A} (e : exn) : cosmetic (raise e : B A).
Proof. by intros b. Qed.

Lemma cosmetic_get : cosmetic (get : B boardFixed.t).
Proof. by intros b. Qed.

Lemma cosmetic_modify (f : boardFixed.t → boardFixed.t) :
  (∀ b, view_of (f b) = view_of b) → cosmetic (modify f).
Proof. intros Hf b. apply Hf. Qed.

Lemma cosmetic_bind {A C} (m : B A) (f : A → B C) :
  cosmetic m → (∀ a, cosmetic (f a)) → cosmetic (m ≫= f).
Proof.
  intros Hm Hf b. unfold mbind, M_bind. specialize (Hm b).
  destruct (m b) as [[e|a] b1]; simpl in *; [done|].
  by rewrite Hf.
Qed.

Lemma cosmetic_try_excepts {A} (body : B A) (select : exn → option (B A)) :
  cosmetic body → (∀ e h, select e = Some h → cosmetic h) →
  cosmetic (try_excepts body select).
Proof.
  intros Hbody Hsel b. unfold try_excepts. specialize (Hbody b).
  destruct (body b) as [[e|a] b1]; simpl in *; [|done].
  destruct (select e) as [h|] eqn:He; simpl; [|done].
  by rewrite (Hsel e h He).
Qed.

Lemma cosmetic_finally {A} (body : B A) (fin : B unit) :
  cosmetic body → cosmetic fin → cosmetic (finally body fin).
Proof.
  intros Hbody Hfin b. unfold finally. specialize (Hbody b).
  destruct (body b) as [[e|a] b1]; simpl in *.
  - destruct (decide (exn_cls e = Suspended)); simpl; [done|].
    specialize (Hfin b1). destruct (fin b1) as [[?|?] ?]; simpl in *; congruence.
  - specialize (Hfin b1). destruct (fin b1) as [[?|?] ?]; simpl in *; congruence.
Qed.

Lemma cosmetic_with_queue {A} (m : M Queue.t A) : cosmetic (with_queue m).
Proof.
  intros b. unfold with_queue. by destruct (m (update_queue b)) as [r q].
Qed.

Lemma cosmetic_await {A} (r : exn + A) : cosmetic (await r).
Proof. destruct r; [apply cosmetic_raise|apply cosmetic_ret]. Qed.

Lemma cosmetic_getitem {A} (l : list A) (i : Z) :
  cosmetic (getitem l i : B A).
Proof. unfold getitem. destruct (py_index l i); [apply cosmetic_ret|apply cosmetic_raise]. Qed.

(** A change of a row that keeps its state and its position. *)
Lemma cosmetic_modify_row (p : slot) (f : ScrollTime.t → ScrollTime.t) :
  (∀ r, key (f r) = key r) → cosmetic (modify_row p f).
Proof.
  intros Hf. apply cosmetic_modify. intros b. unfold view_of.
  destruct p; simpl;
    destruct (top b), (middle b), (bottom b); simpl; by rewrite ?Hf.
Qed.

Create HintDb cosmetic discriminated.
Create HintDb preserves discriminated.
#[local] Hint Resolve cosmetic_get cosmetic_with_queue cosmetic_await
  cosmetic_getitem : cosmetic.
#[local] Hint Extern 0 (cosmetic (mret _)) => apply cosmetic_ret : cosmetic.
#[local] Hint Extern 0 (cosmetic pass) => apply cosmetic_ret : cosmetic.
#[local] Hint Extern 0 (cosmetic (raise _)) => apply cosmetic_raise : cosmetic.

Ltac cosm :=
  repeat first
    [ solve [auto with cosmetic]
    | apply cosmetic_bind; [|intros ?]
    | apply cosmetic_finally
    | apply cosmetic_try_excepts; [|intros ? ? ?]
    | apply cosmetic_modify_row; intros ?; reflexivity
    | apply cosmetic_modify; intros ?; reflexivity
    | match goal with
      | |- cosmetic (if ?c then _ else _) => destruct c
      | |- cosmetic (match ?x with _ => _ end) => destruct x
      | |- cosmetic (let '(_, _) := ?x in _) => destruct x
      | H : (if ?c then _ else _) = Some _ |- _ => destruct c; simplify_eq
      | H : None = Some _ |- _ => discriminate H
      end ].

Lemma cosmetic_drain_loop (queued : list Update) : cosmetic (drain_loop queued).
Proof. induction queued as [|x rest IH]; simpl; cosm. Qed.
#[local] Hint Resolve cosmetic_drain_loop : cosmetic.

Lemma cosmetic_enqueue_update (item : Update) : cosmetic (_enqueue_update item).
Proof. unfold _enqueue_update. cosm. Qed.
#[local] Hint Resolve cosmetic_enqueue_update : cosmetic.

(** *** Triples on the view *)

Lemma vhoare_cosmetic {A} (P : view → Prop) (m : B A) :
  cosmetic m → vhoare P m (λ _, P).
Proof.
  intros Hm b a b' HP Hrun. specialize (Hm b). rewrite Hrun in Hm.
  simpl in Hm. by rewrite Hm.
Qed.

Lemma vhoare_conseq {A} (P P' : view → Prop) (Q Q' : A → view → Prop) (m : B A) :
  vhoare P' m Q' → (∀ v, P v → P' v) → (∀ a v, Q' a v → Q a v) →
  vhoare P m Q.
Proof. intros Hm HP HQ b a b' Hb Hrun. eapply HQ, Hm; eauto. Qed.

Lemma vhoare_post {A} (P : view → Prop) (Q Q' : A → view → Prop) (m : B A) :
  vhoare P m Q' → (∀ a v, Q' a v → Q a v) → vhoare P m Q.
Proof. intros Hm HQ. eapply vhoare_conseq; eauto. Qed.

Lemma vhoare_bind {A C} (P : view → Prop) (R : A → view → Prop)
    (Q : C → view → Prop) (m : B A) (f : A → B C) :
  vhoare P m R → (∀ a, vhoare (R a) (f a) Q) → vhoare P (m ≫= f) Q.
Proof.
  intros Hm Hf b c b' HP Hrun. unfold mbind, M_bind in Hrun.
  destruct (m b) as [[e|a] b1] eqn:Hmb; [done|].
  eapply Hf; [|exact Hrun]. eapply Hm; eauto.
Qed.

Lemma vhoare_ret {A} (P : view → Prop) (Q : A → view → Prop) (a : A) :
  (∀ v, P v → Q a v) → vhoare P (mret a) Q.
Proof. intros H b a' b' HP Hrun. injection Hrun as <- <-. by apply H. Qed.

Lemma vhoare_raise {A} (P : view → Prop) (Q : A → view → Prop) (e : exn) :
  vhoare P (raise e) Q.
Proof. intros b a b' _ Hrun. discriminate Hrun. Qed.

Lemma vhoare_false {A} (Q : A → view → Prop) (m : B A) :
  vhoare (λ _, False) m Q.
Proof. by intros b a b' []. Qed.

Lemma vhoare_finally {A} (P R : view → Prop) (Q : A → view → Prop)
    (body : B A) (fin : B unit) :
  vhoare P body (λ _, R) → (∀ a, vhoare R fin (λ _, Q a)) →
  vhoare P (finally body fin) Q.
Proof.
  intros Hbody Hfin b a b' HP Hrun. unfold finally in Hrun.
  destruct (body b) as [[e|a1] b1] eqn:Hb.
  - destruct (decide (exn_cls e = Suspended)); [done|].
    by destruct (fin b1) as [[?|?] ?].
  - destruct (fin b1) as [[?|[]] b2] eqn:Hf; [done|].
    injection Hrun as <- <-.
    eapply Hfin; [|exact Hf]. eapply Hbody; eauto.
Qed.

Lemma view_of_row (p : slot) (b : boardFixed.t) :
  vrow p (view_of b) = key <$> row p b.
Proof. by destruct p. Qed.

Lemma vhoare_get_row (P : view → Prop) (p : slot) :
  vhoare P (get_row p) (λ self v, P v ∧ vrow p v = Some (key self)).
Proof.
  intros b self b' HP Hrun. unfold get_row, mbind, M_bind, get in Hrun.
  destruct (row p b) as [r|] eqn:Hrow; [|done].
  injection Hrun as <- <-. split; [done|].
  by rewrite view_of_row, Hrow.
Qed.

Lemma vhoare_is_synchronised (P : view → Prop) :
  vhoare P is_synchronised
    (λ r v, P v ∧ r = Synchroniser.is_synchronised (vsync v)).
Proof. intros b r b' HP Hrun. injection Hrun as <- <-. done. Qed.

(** The strongest postconditions of the steps that change the view. *)
Lemma vhoare_set_state (P : view → Prop) (p : slot)
    (f : ScrollTime.t → ScrollTime.t) (s : AnimState) :
  (∀ r, key (f r) = (s, position r)) →
  vhoare P (modify_row p f) (λ _ v', ∃ v, P v ∧ v' = vset_state p s v).
Proof.
  intros Hf b [] b' HP Hrun. injection Hrun as <-.
  exists (view_of b). split; [done|]. unfold view_of, vset_state.
  destruct p; simpl;
    destruct (top b), (middle b), (bottom b); simpl; by rewrite ?Hf.
Qed.

Lemma vhoare_sync (P : view → Prop) (g : gmap Z bool → gmap Z bool) :
  vhoare P (modify (λ b, set_synchronised (g (synchronised b)) b))
    (λ _ v', ∃ v, P v ∧ v' = vset_sync g v).
Proof.
  intros b [] b' HP Hrun. injection Hrun as <-.
  exists (view_of b). by split.
Qed.

Lemma vhoare_set_row (P : view → Prop) (p : slot) (x : option ScrollTime.t) :
  vhoare P (modify (set_row p x))
    (λ _ v', ∃ v, P v ∧ v' = vset_row p (key <$> x) v).
Proof.
  intros b [] b' HP Hrun. injection Hrun as <-.
  exists (view_of b). split; [done|]. by destruct p.
Qed.

(** *** The invariant under the steps that change the view *)

Lemma scrolling_dec (s : AnimState) : {scrolling s} + {¬ scrolling s}.
Proof. unfold scrolling. destruct s; first [left; tauto | right; intros [?|?]; discriminate]. Qed.

Lemma vrow_vset_row (p q : slot) (x : option (AnimState * Z)) (v : view) :
  vrow q (vset_row p x v) = if decide (q = p) then x else vrow q v.
Proof. by destruct p, q. Qed.

Lemma vsync_vset_row (p : slot) (x : option (AnimState * Z)) (v : view) :
  vsync (vset_row p x v) = vsync v.
Proof. by destruct p. Qed.

Lemma vrow_vset_sync (p : slot) (g : gmap Z bool → gmap Z bool) (v : view) :
  vrow p (vset_sync g v) = vrow p v.
Proof. by destruct p. Qed.

Lemma slot_position_inj (p q : slot) : slot_position p = slot_position q → p = q.
Proof. by destruct p, q. Qed.

(** A row changes to a state that does not hold the scroll slot. *)
Lemma sync_inv_set_state (p : slot) (s : AnimState) (v : view) :
  sync_inv v → ¬ scrolling s → sync_inv (vset_state p s v).
Proof.
  intros (Hpos & Hbusy & Huniq) Hs. unfold vset_state. split_and!.
  - intros q s' z. rewrite vrow_vset_row. destruct (decide (q = p)) as [Hq|Hq]; [|apply Hpos].
    subst q. destruct (vrow p v) as [[s0 z0]|] eqn:Hp; intros [= <- <-].
    by eapply Hpos.
  - intros q s' z. rewrite vrow_vset_row, vsync_vset_row.
    destruct (decide (q = p)) as [Hq|Hq]; [|apply Hbusy].
    destruct (vrow p v) as [[s0 z0]|]; intros [= <- <-]. done.
  - intros q q' s1 z1 s2 z2. rewrite !vrow_vset_row.
    repeat case_decide; subst;
      try (destruct (vrow p v) as [[s0 z0]|]; intros [= <- <-]; done).
    + intros ?. destruct (vrow p v) as [[s0 z0]|]; intros [= <- <-]; done.
    + apply Huniq.
Qed.

Lemma sync_inv_busy (z : Z) (v : view) :
  sync_inv v → sync_inv (vset_sync (Synchroniser.busy z) v).
Proof.
  intros (Hpos & Hbusy & Huniq). split_and!; [done| |done].
  intros p s z' Hp Hs. rewrite vrow_vset_sync in Hp.
  simpl. unfold Synchroniser.busy.
  destruct (decide (z = slot_position p)) as [->|Hne].
  - by rewrite lookup_insert_eq.
  - rewrite lookup_insert_ne by done. by eapply Hbusy.
Qed.

(** A row is marked ready while it does not hold the scroll slot. *)
Lemma sync_inv_ready (p : slot) (s : AnimState) (z : Z) (v : view) :
  sync_inv v → vrow p v = Some (s, z) → ¬ scrolling s →
  sync_inv (vset_sync (Synchroniser.ready z) v).
Proof.
  intros (Hpos & Hbusy & Huniq) Hp Hs. split_and!; [done| |done].
  intros q s' z' Hq Hs'. rewrite vrow_vset_sync in Hq.
  simpl. unfold Synchroniser.ready.
  pose proof (Hpos _ _ _ Hp) as ->.
  destruct (decide (q = p)) as [Heq|Hne].
  - subst q. assert (s' = s) by congruence. by subst.
  - rewrite lookup_insert_ne; [by eapply Hbusy|].
    intros ?%slot_position_inj. done.
Qed.

(** The row that waits for its scroll starts it. *)
Lemma sync_inv_scroll (p : slot) (z : Z) (v : view) :
  sync_inv v → vrow p v = Some (SCROLLING_WAIT, z) →
  sync_inv (vset_state p SCROLLING v).
Proof.
  intros (Hpos & Hbusy & Huniq) Hp. unfold vset_state. rewrite Hp.
  change ((λ k : AnimState * Z, (SCROLLING, k.2)) <$> Some (SCROLLING_WAIT, z))
    with (Some (SCROLLING, z)).
  assert (Hsw : scrolling SCROLLING_WAIT) by by left.
  split_and!.
  - intros q s' z'. rewrite vrow_vset_row.
    destruct (decide (q = p)) as [Hq|Hq]; [|apply Hpos].
    subst q. intros [= <- <-]. by eapply Hpos.
  - intros q s' z'. rewrite vrow_vset_row, vsync_vset_row.
    destruct (decide (q = p)) as [Hq|Hq]; [|apply Hbusy].
    subst q. intros _ _. by eapply Hbusy.
  - intros q q' s1 z1 s2 z2. rewrite !vrow_vset_row.
    repeat case_decide; subst; try done.
    + intros _ Hq' _ Hs2. symmetry. by eapply Huniq.
    + intros Hq _ Hs1 _. by eapply Huniq.
    + apply Huniq.
Qed.

(** The row that holds the scroll slot changes state. *)
Lemma sync_inv_stay (p : slot) (s0 s : AnimState) (z : Z) (v : view) :
  sync_inv v → vrow p v = Some (s0, z) → scrolling s0 →
  sync_inv (vset_state p s v).
Proof.
  intros (Hpos & Hbusy & Huniq) Hp Hsw. unfold vset_state. rewrite Hp.
  change ((λ k : AnimState * Z, (s, k.2)) <$> Some (s0, z))
    with (Some (s, z)).
  split_and!.
  - intros q s' z'. rewrite vrow_vset_row.
    destruct (decide (q = p)) as [Hq|Hq]; [|apply Hpos].
    subst q. intros [= <- <-]. by eapply Hpos.
  - intros q s' z'. rewrite vrow_vset_row, vsync_vset_row.
    destruct (decide (q = p)) as [Hq|Hq]; [|apply Hbusy].
    subst q. intros _ _. by eapply Hbusy.
  - intros q q' s1 z1 s2 z2. rewrite !vrow_vset_row.
    repeat case_decide; subst; try done.
    + intros _ Hq' _ Hs2. symmetry. by eapply Huniq.
    + intros Hq _ Hs1 _. by eapply Huniq.
    + apply Huniq.
Qed.

(** No row holds the scroll slot, and one that is marked busy claims it. *)
Lemma sync_inv_claim (p : slot) (v : view) :
  sync_inv v →
  (∀ q s z, vrow q v = Some (s, z) → ¬ scrolling s) →
  vsync v !! slot_position p = Some false →
  sync_inv (vset_state p SCROLLING_WAIT v).
Proof.
  intros (Hpos & Hbusy & Huniq) Hnone Hp. unfold vset_state. split_and!.
  - intros q s' z'. rewrite vrow_vset_row. destruct (decide (q = p)) as [Hq|Hq]; [|apply Hpos].
    subst q. destruct (vrow p v) as [[s0 z0]|] eqn:Hpv; intros [= <- <-].
    by eapply Hpos.
  - intros q s' z'. rewrite vrow_vset_row, vsync_vset_row.
    destruct (decide (q = p)) as [Hq|Hq]; [by subst|apply Hbusy].
  - intros q q' s1 z1 s2 z2. rewrite !vrow_vset_row.
    repeat case_decide; subst; try done.
    + intros _ Hq' _ Hs2. by destruct (Hnone _ _ _ Hq').
    + intros Hq _ Hs1 _. by destruct (Hnone _ _ _ Hq).
    + apply Huniq.
Qed.

(** While the synchroniser reports every row ready, none holds the slot. *)
Lemma synchronised_no_scrolling (v : view) :
  sync_inv v → Synchroniser.is_synchronised (vsync v) = true →
  ∀ q s z, vrow q v = Some (s, z) → ¬ scrolling s.
Proof.
  intros (Hpos & Hbusy & Huniq) Hsync q s z Hq Hs.
  unfold Synchroniser.is_synchronised in Hsync.
  apply bool_decide_eq_true in Hsync.
  specialize (Hsync _ _ (Hbusy _ _ _ Hq Hs)). done.
Qed.

Section WithConfig.
Context (Args : Config) (device : Device).

Lemma cosmetic_fetch (env : FetchEnv) :
  cosmetic (fetch_and_sort_services Args env).
Proof. unfold fetch_and_sort_services. cosm. Qed.

Lemma cosmetic_schedule_fetch : cosmetic _schedule_fetch.
Proof. unfold _schedule_fetch. cosm. Qed.

Lemma cosmetic_new_image content position w :
  cosmetic (new_image content position w).
Proof. unfold new_image. cosm. Qed.

Lemma cosmetic_add_image image : cosmetic (add_image image).
Proof. unfold add_image. cosm. Qed.

Lemma cosmetic_remove_image image : cosmetic (remove_image image).
Proof. unfold remove_image. cosm. Qed.

Lemma cosmetic_safe_remove_image image : cosmetic (_safe_remove_image image).
Proof. unfold _safe_remove_image. cosm. Qed.

Lemma cosmetic_set_offset image offset : cosmetic (set_offset image offset).
Proof. unfold set_offset. cosm. Qed.

Lemma cosmetic_get_row p : cosmetic (get_row p).
Proof. unfold get_row. cosm. Qed.

#[local] Hint Resolve cosmetic_schedule_fetch cosmetic_new_image
  cosmetic_add_image cosmetic_remove_image cosmetic_safe_remove_image
  cosmetic_set_offset cosmetic_get_row cosmetic_fetch : cosmetic.
#[local] Hint Extern 0 (cosmetic refresh_composition) =>
  apply cosmetic_ret : cosmetic.

Lemma cosmetic_render_row self : cosmetic (render_row self).
Proof. unfold render_row. cosm. Qed.
#[local] Hint Resolve cosmetic_render_row : cosmetic.

Lemma cosmetic_render p : cosmetic (render p).
Proof. unfold render. cosm. Qed.

Lemma cosmetic_refresh p : cosmetic (refresh p).
Proof. unfold refresh. cosm. Qed.
#[local] Hint Resolve cosmetic_render cosmetic_refresh : cosmetic.

Lemma cosmetic_refresh_partner partner : cosmetic (refresh_partner partner).
Proof. unfold refresh_partner. cosm. Qed.

Lemma cosmetic_generateCard position service :
  cosmetic (generateCard Args device position service).
Proof. unfold generateCard. cosm. Qed.

Lemma cosmetic_new_time_image position text :
  cosmetic (new_time_image device position text).
Proof. unfold new_time_image. cosm. Qed.
#[local] Hint Resolve cosmetic_refresh_partner cosmetic_generateCard
  cosmetic_new_time_image : cosmetic.

Lemma cosmetic_is_waiting p : cosmetic (is_waiting p).
Proof. unfold is_waiting. cosm. Qed.

Lemma cosmetic_update_display_time env p :
  cosmetic (update_display_time device env p).
Proof. unfold update_display_time. cosm. Qed.

Lemma cosmetic_remove_banner p : cosmetic (remove_banner p).
Proof. unfold remove_banner. cosm. Qed.

Lemma cosmetic_remove_if_present image : cosmetic (_remove_if_present image).
Proof. unfold _remove_if_present. cosm. Qed.

Lemma cosmetic_addPartner p q : cosmetic (addPartner p q).
Proof. unfold addPartner. cosm. Qed.
#[local] Hint Resolve cosmetic_is_waiting cosmetic_update_display_time
  cosmetic_remove_banner cosmetic_remove_if_present cosmetic_addPartner
  : cosmetic.

(** *** The invariant under the methods *)

Lemma vrow_vset_state_eq (p : slot) (s s0 : AnimState) (z : Z) (v : view) :
  vrow p v = Some (s0, z) → vrow p (vset_state p s v) = Some (s, z).
Proof.
  intros Hp. unfold vset_state. rewrite vrow_vset_row, decide_True by done.
  by rewrite Hp.
Qed.

Lemma vhoare_pre {A} (P P' : view → Prop) (Q : A → view → Prop) (m : B A) :
  vhoare P' m Q → (∀ v, P v → P' v) → vhoare P m Q.
Proof. intros Hm HP. eapply vhoare_conseq; eauto. Qed.

(** A method keeps the invariant. *)
Abbreviation preserves m := (vhoare sync_inv m (λ _, sync_inv)).

Lemma preserves_cosmetic {A} (m : B A) : cosmetic m → preserves m.
Proof. apply vhoare_cosmetic. Qed.

Lemma preserves_bind {A C} (m : B A) (f : A → B C) :
  preserves m → (∀ a, preserves (f a)) → preserves (m ≫= f).
Proof. intros Hm Hf. eapply vhoare_bind; [exact Hm|exact Hf]. Qed.

Lemma preserves_finally {A} (body : B A) (fin : B unit) :
  preserves body → preserves fin → preserves (finally body fin).
Proof. intros Hb Hf. eapply vhoare_finally; [exact Hb|intros _; exact Hf]. Qed.

Lemma keeps_bind {A C} (I : view → Prop) (m : B A) (f : A → B C) :
  vhoare I m (λ _, I) → (∀ a, vhoare I (f a) (λ _, I)) →
  vhoare I (m ≫= f) (λ _, I).
Proof. intros Hm Hf. eapply vhoare_bind; [exact Hm|exact Hf]. Qed.

Lemma keeps_finally {A} (I : view → Prop) (body : B A) (fin : B unit) :
  vhoare I body (λ _, I) → vhoare I fin (λ _, I) →
  vhoare I (finally body fin) (λ _, I).
Proof. intros Hb Hf. eapply vhoare_finally; [exact Hb|intros _; exact Hf]. Qed.

(** A row goes to a state that does not hold the scroll slot. *)
Lemma preserves_quiet_state (p : slot) (f : ScrollTime.t → ScrollTime.t)
    (s : AnimState) :
  (∀ r, key (f r) = (s, position r)) → ¬ scrolling s →
  preserves (modify_row p f).
Proof.
  intros Hf Hs. eapply vhoare_post; [by apply vhoare_set_state|].
  intros _ v' (v & Hv & ->). by apply sync_inv_set_state.
Qed.

Lemma preserves_sync_busy (z : Z) : preserves (sync_busy z).
Proof.
  eapply vhoare_post; [apply vhoare_sync|].
  intros _ v' (v & Hv & ->). by apply sync_inv_busy.
Qed.

(** The row at [p] is marked ready while its state is [s], which does not
    hold the scroll slot. *)
Lemma ready_keeps_inv (p : slot) (s : AnimState) (z : Z) :
  ¬ scrolling s →
  vhoare (λ v, sync_inv v ∧ vrow p v = Some (s, z)) (sync_ready z)
    (λ _ v, sync_inv v ∧ vrow p v = Some (s, z)).
Proof.
  intros Hs. eapply vhoare_post; [apply vhoare_sync|].
  intros _ v' (v & [Hv Hp] & ->). split.
  - by eapply sync_inv_ready.
  - by rewrite vrow_vset_sync.
Qed.

(** A row in state [s0] at [p] is put in state [s]. *)
Lemma set_state_keeps_inv (p : slot) (f : ScrollTime.t → ScrollTime.t)
    (s0 s : AnimState) (z : Z) :
  (∀ r, key (f r) = (s, position r)) →
  (scrolling s → scrolling s0) →
  vhoare (λ v, sync_inv v ∧ vrow p v = Some (s0, z)) (modify_row p f)
    (λ _ v, sync_inv v ∧ vrow p v = Some (s, z)).
Proof.
  intros Hf Hs. eapply vhoare_post; [by apply vhoare_set_state|].
  intros _ v' (v & [Hv Hp] & ->). split; [|by eapply vrow_vset_state_eq].
  destruct (scrolling_dec s) as [Hsc|Hsc].
  - eapply sync_inv_stay; eauto.
  - by apply sync_inv_set_state.
Qed.

Ltac vcos :=
  eapply vhoare_bind;
    [apply vhoare_cosmetic; solve [cosm]
    |intros ?; repeat match goal with x : _ * _ |- _ => destruct x end].
Ltac quiet := intros [?|?]; discriminate.

Lemma preserves_changeCard (p : slot) (svc : Service) :
  preserves (changeCard Args device p svc).
Proof.
  unfold changeCard.
  eapply vhoare_bind; [apply vhoare_get_row|]. intros self.
  destruct (decide (ID svc = "0" ∧ ID (CurrentService self) = "0")).
  - eapply vhoare_bind.
    { apply (set_state_keeps_inv p (set_state STUD) (state self) STUD
               (position self)); [by intros r|quiet]. }
    intros []. eapply vhoare_post; [apply ready_keeps_inv; quiet|].
    by intros _ v [? _].
  - eapply vhoare_pre with (P' := sync_inv); [|by intros v [? _]].
    apply preserves_bind; [apply preserves_sync_busy|]. intros [].
    repeat vcos.
    eapply (preserves_quiet_state p _
              (if decide (ID svc = "0") then WAIT_STUD else WAIT_OPENING));
      [by intros r|].
    destruct (decide (ID svc = "0")); quiet.
Qed.


Lemma vh_cos_inv {A} (R : view → Prop) (m : B A) :
  cosmetic m → vhoare (λ v, sync_inv v ∧ R v) m (λ _, sync_inv).
Proof.
  intros Hm. eapply vhoare_post; [by apply vhoare_cosmetic|].
  by intros _ v [? _].
Qed.

Lemma vh_cos {A} (P : view → Prop) (m : B A) :
  cosmetic m → (∀ v, P v → sync_inv v) → vhoare P m (λ _, sync_inv).
Proof.
  intros Hm HP. eapply vhoare_conseq; [by apply (vhoare_cosmetic sync_inv)|done|done].
Qed.

Lemma vh_state_inv (p : slot) (f : ScrollTime.t → ScrollTime.t)
    (s0 s : AnimState) (z : Z) :
  (∀ r, key (f r) = (s, position r)) →
  (scrolling s → scrolling s0) →
  vhoare (λ v, sync_inv v ∧ vrow p v = Some (s0, z)) (modify_row p f)
    (λ _, sync_inv).
Proof.
  intros Hf Hs. eapply vhoare_post; [by eapply set_state_keeps_inv|].
  by intros _ v [? _].
Qed.

Lemma preserves_updateCard (p : slot) (svc : Service) :
  preserves (updateCard device p svc).
Proof.
  unfold updateCard.
  eapply vhoare_bind.
  { eapply vhoare_post;
      [apply (vhoare_set_state sync_inv p (set_state SCROLL_DECIDER)
                SCROLL_DECIDER); by intros r|].
    intros [] v' (v & Hv & ->).
    instantiate (1 := λ _ v', sync_inv v'
      ∧ ∀ s z, vrow p v' = Some (s, z) → s = SCROLL_DECIDER).
    split; [apply sync_inv_set_state; [done|quiet]|].
    intros s z. unfold vset_state. rewrite vrow_vset_row, decide_True by done.
    destruct (vrow p v) as [[s0 z0]|]; by intros [= <- <-]. }
  intros []. eapply vhoare_bind; [apply vhoare_get_row|]. intros self.
  eapply vhoare_pre with
    (P' := λ v, sync_inv v ∧ vrow p v = Some (SCROLL_DECIDER, position self)).
  2:{ intros v [[Hv Hs] Hp]. split; [done|].
      rewrite Hp. unfold key. by rewrite (Hs _ _ Hp). }
  eapply vhoare_bind; [apply ready_keeps_inv; quiet|]. intros [].
  apply vh_cos_inv. cosm.
Qed.

#[local] Hint Resolve preserves_changeCard preserves_updateCard : preserves.

Ltac pres :=
  repeat first
    [ apply vhoare_cosmetic; solve [cosm]
    | solve [auto with preserves]
    | apply keeps_bind; [|intros ?]
    | apply keeps_finally
    | match goal with
      | |- vhoare _ (if ?c then _ else _) _ => destruct c
      | |- vhoare _ (match ?x with _ => _ end) _ => destruct x
      | |- vhoare _ (let '(_, _) := ?x in _) _ => destruct x
      end ].

Lemma preserves_requestCardChange (now : Z) (card : slot) (row : Z) :
  preserves (requestCardChange Args device now card row).
Proof. unfold requestCardChange. pres. Qed.

Lemma preserves_force_rotation_cycle :
  preserves (force_rotation_cycle Args device).
Proof. unfold force_rotation_cycle. pres. Qed.

#[local] Hint Resolve preserves_requestCardChange
  preserves_force_rotation_cycle : preserves.


(** *** The frame of a row *)

(** The row that decides to scroll has seen every row ready and marks
    itself busy. *)
Lemma busy_claims (p : slot) (z : Z) :
  vhoare (λ v, (sync_inv v ∧ vrow p v = Some (SCROLL_DECIDER, z))
               ∧ true = Synchroniser.is_synchronised (vsync v))
    (sync_busy z)
    (λ _ v, (sync_inv v ∧ vrow p v = Some (SCROLL_DECIDER, z))
            ∧ (∀ q s z', vrow q v = Some (s, z') → ¬ scrolling s)
            ∧ vsync v !! slot_position p = Some false).
Proof.
  eapply vhoare_post; [apply vhoare_sync|].
  intros [] v' (v & [[Hv Hp] Hs] & ->). split_and!.
  - by apply sync_inv_busy.
  - by rewrite vrow_vset_sync.
  - intros q s z'. rewrite vrow_vset_sync.
    by eapply synchronised_no_scrolling.
  - destruct Hv as (Hpos & _). rewrite (Hpos _ _ _ Hp). simpl.
    unfold Synchroniser.busy. by rewrite lookup_insert_eq.
Qed.

Lemma claim_state (p : slot) (f : ScrollTime.t → ScrollTime.t) (z : Z) :
  (∀ r, key (f r) = (SCROLLING_WAIT, position r)) →
  vhoare (λ v, (sync_inv v ∧ vrow p v = Some (SCROLL_DECIDER, z))
               ∧ (∀ q s z', vrow q v = Some (s, z') → ¬ scrolling s)
               ∧ vsync v !! slot_position p = Some false)
    (modify_row p f) (λ _, sync_inv).
Proof.
  intros Hf. eapply vhoare_post; [by apply vhoare_set_state|].
  intros [] v' (v & ([Hv Hp] & Hq & Hb) & ->). by apply sync_inv_claim.
Qed.

Ltac vstate := eapply vh_state_inv; [intros ?; unfold key; simpl; reflexivity|try quiet; try tauto].
Ltac vcosend := apply vh_cos; [cosm|simpl; tauto].

Lemma preserves_ScrollTime_tick (env : TickEnv) (p : slot) :
  preserves (ScrollTime_tick Args device env p).
Proof.
  unfold ScrollTime_tick.
  apply preserves_bind; [apply preserves_cosmetic; cosm|]. intros [].
  eapply vhoare_bind; [apply vhoare_get_row|]. intros self.
  unfold key. destruct (state self) eqn:Hst.
  - (* WAIT_OPENING *)
    vcos. destruct a; simpl; [vcosend|vstate].
  - (* OPENING_SCROLL *)
    destruct (decide _); [vcosend|vstate].
  - (* OPENING_END *)
    repeat vcos.
    eapply vhoare_bind; [apply ready_keeps_inv; quiet|]. intros [].
    vstate.
  - (* SCROLL_DECIDER *)
    eapply vhoare_bind; [apply vhoare_is_synchronised|]. intros [|]; [|vcosend].
    eapply vhoare_pre with
      (P' := λ v, sync_inv v ∧ vrow p v = Some (SCROLL_DECIDER, position self));
      [|by intros v [? _]].
    vcos. destruct a; simpl; [vcosend|].
    eapply vhoare_bind; [apply vhoare_is_synchronised|]. intros [|]; [|vcosend].
    eapply vhoare_bind; [apply busy_claims|]. intros [].
    destruct (ReducedAnimations Args).
    { eapply vhoare_pre; [|intros v [H _]; exact H]. vstate. }
    destruct (decide _).
    + eapply vhoare_pre; [|intros v [H _]; exact H].
      eapply vhoare_bind; [apply ready_keeps_inv; quiet|]. intros [].
      vstate.
    + by apply claim_state.
  - (* SCROLLING_WAIT *)
    vcos. destruct a; simpl; [vcosend|].
    eapply vh_state_inv; [intros ?; unfold key; simpl; reflexivity|]. intros _. by left.
  - (* SCROLLING *)
    destruct (decide _); [vcosend|vstate].
  - (* WAIT_SYNC *)
    destruct (decide _); [vcosend|].
    vcos. destruct a; simpl; [vcosend|].
    eapply vhoare_pre; [apply preserves_requestCardChange|by intros v [? _]].
  - (* WAIT_STUD *)
    vcos. destruct a; simpl; [vcosend|vstate].
  - (* STUD_SCROLL *)
    destruct (decide _); [vcosend|vstate].
  - (* STUD_END *)
    repeat vcos.
    eapply vhoare_bind; [apply ready_keeps_inv; quiet|]. intros [].
    vstate.
  - (* STUD *)
    vcos. destruct a; simpl; [vcosend|].
    eapply vhoare_pre; [apply preserves_requestCardChange|by intros v [? _]].
Qed.

#[local] Hint Resolve preserves_ScrollTime_tick : preserves.


(** *** Building and tearing down the rows *)

Lemma quiet_rows_inv (v : view) :
  quiet_row Top v → quiet_row Middle v → quiet_row Bottom v → sync_inv v.
Proof.
  intros (s1 & H1 & Hs1) (s2 & H2 & Hs2) (s3 & H3 & Hs3).
  assert (Hall : ∀ p s z, vrow p v = Some (s, z) →
                          z = slot_position p ∧ ¬ scrolling s).
  { intros [] s z Hp; simpl in *; by simplify_eq. }
  split_and!.
  - intros p s z Hp. by destruct (Hall _ _ _ Hp).
  - intros p s z Hp Hs. by destruct (Hall _ _ _ Hp).
  - intros p q s z s' z' Hp _ Hs. by destruct (Hall _ _ _ Hp).
Qed.

Lemma vhoare_ScrollTime_init (P : view → Prop) (service previous : Service)
    (delay z : Z) :
  (∀ v g, P v → P (vset_sync g v)) →
  vhoare P (ScrollTime_init Args device service previous delay z)
    (λ r v, P v ∧ position r = z ∧ ¬ scrolling (state r)).
Proof.
  intros HP. unfold ScrollTime_init. repeat vcos.
  eapply vhoare_bind; [apply vhoare_sync|]. intros [].
  apply vhoare_ret. intros v' (v & Hv & ->). split_and!; [by apply HP|done|].
  simpl. destruct (decide _); quiet.
Qed.

Lemma vhoare_place_row (P : view → Prop) (p : slot) (r : ScrollTime.t) :
  (∀ v x, P v → P (vset_row p x v)) →
  position r = slot_position p → ¬ scrolling (state r) →
  vhoare P (modify (set_row p (Some r))) (λ _ v, P v ∧ quiet_row p v).
Proof.
  intros HP Hz Hs. eapply vhoare_post; [apply vhoare_set_row|].
  intros [] v' (v & Hv & ->). split; [by apply HP|].
  exists (state r). split; [|done].
  rewrite vrow_vset_row, decide_True by done. simpl. unfold key. by rewrite Hz.
Qed.

Lemma quiet_row_vset_sync (p : slot) (g : gmap Z bool → gmap Z bool) (v : view) :
  quiet_row p v → quiet_row p (vset_sync g v).
Proof. intros (s & Hp & Hs). exists s. by rewrite vrow_vset_sync. Qed.

Lemma quiet_row_vset_row (p q : slot) (x : option (AnimState * Z)) (v : view) :
  p ≠ q → quiet_row p v → quiet_row p (vset_row q x v).
Proof.
  intros Hne (s & Hp & Hs). exists s.
  by rewrite vrow_vset_row, decide_False.
Qed.

(** Whatever the rows were, [set_initial_cards] leaves three new rows, none
    of which holds the scroll slot. *)
Lemma vhoare_pure {A} (φ : Prop) (P : view → Prop) (Q : A → view → Prop)
    (m : B A) :
  (φ → vhoare P m Q) → vhoare (λ v, P v ∧ φ) m Q.
Proof. intros H b a b' [HP Hφ]. by apply H. Qed.

(** A new row is built and put in its slot. *)
Lemma vhoare_new_row {A} (P : view → Prop) (Q : A → view → Prop)
    (p : slot) (service : Service) (delay : Z) (k : B A) :
  (∀ v g, P v → P (vset_sync g v)) →
  (∀ v x, P v → P (vset_row p x v)) →
  vhoare (λ v, P v ∧ quiet_row p v) k Q →
  vhoare P
    (r ← ScrollTime_init Args device service LiveTimeStud delay (slot_position p);
     modify (set_row p (Some r));; k) Q.
Proof.
  intros Hsync Hrow Hk.
  eapply vhoare_bind; [by apply vhoare_ScrollTime_init|]. intros r.
  apply vhoare_pure. intros [Hz Hs].
  eapply vhoare_bind; [by apply vhoare_place_row|]. by intros [].
Qed.

(** Whatever the rows were, [set_initial_cards] leaves three new rows, none
    of which holds the scroll slot. *)
Lemma set_initial_cards_inv :
  vhoare (λ _, True) (set_initial_cards Args device) (λ _, sync_inv).
Proof.
  unfold set_initial_cards. vcos.
  destruct (split_pinned_rotating _) as [pinned rotating].
  apply (vhoare_new_row (λ _, True) _ Top); [done|done|].
  vcos.
  apply (vhoare_new_row (λ v, True ∧ quiet_row Top v) _ Middle).
  { intros v g [_ H]. split; [done|by apply quiet_row_vset_sync]. }
  { intros v x [_ H]. split; [done|by apply quiet_row_vset_row]. }
  vcos.
  apply (vhoare_new_row
           (λ v, (True ∧ quiet_row Top v) ∧ quiet_row Middle v) _ Bottom).
  { intros v g [[_ H1] H2]. split_and!; [done|..]; by apply quiet_row_vset_sync. }
  { intros v x [[_ H1] H2]. split_and!; [done|..]; by apply quiet_row_vset_row. }
  apply vh_cos; [cosm|].
  intros v [[[_ H1] H2] H3]. by apply quiet_rows_inv.
Qed.

Lemma preserves_set_initial_cards : preserves (set_initial_cards Args device).
Proof. eapply vhoare_pre; [apply set_initial_cards_inv|done]. Qed.

#[local] Hint Resolve preserves_set_initial_cards : preserves.

Lemma preserves_update_display_with_new_data :
  preserves (update_display_with_new_data Args device).
Proof. unfold update_display_with_new_data. pres. Qed.

#[local] Hint Resolve preserves_update_display_with_new_data : preserves.


(** A row is forgotten by the synchroniser and leaves its slot. *)
Lemma sync_inv_forget (p : slot) (s : AnimState) (z : Z) (v : view) :
  sync_inv v → vrow p v = Some (s, z) →
  sync_inv (vset_row p None (vset_sync (Synchroniser.forget z) v)).
Proof.
  intros (Hpos & Hbusy & Huniq) Hp.
  pose proof (Hpos _ _ _ Hp) as ->. split_and!.
  - intros q s' z'. rewrite vrow_vset_row.
    destruct (decide (q = p)); [done|]. rewrite vrow_vset_sync. apply Hpos.
  - intros q s' z'. rewrite vrow_vset_row, vsync_vset_row.
    destruct (decide (q = p)) as [|Hne]; [done|]. rewrite vrow_vset_sync.
    intros Hq Hs. simpl. unfold Synchroniser.forget.
    rewrite lookup_delete_ne; [by eapply Hbusy|].
    intros ?%slot_position_inj. done.
  - intros q q' s1 z1 s2 z2. rewrite !vrow_vset_row.
    repeat case_decide; try done. rewrite !vrow_vset_sync. apply Huniq.
Qed.

Lemma preserves_teardown_card (p : slot) : preserves (teardown_card p).
Proof.
  unfold teardown_card. vcos.
  destruct (row p a); [|apply preserves_cosmetic; cosm].
  unfold delete.
  eapply vhoare_bind with
    (R := λ _ v', ∃ v s z, (sync_inv v ∧ vrow p v = Some (s, z))
                           ∧ v' = vset_sync (Synchroniser.forget z) v).
  { eapply vhoare_bind; [apply vhoare_get_row|]. intros self.
    repeat vcos. eapply vhoare_post; [apply vhoare_sync|].
    intros [] v' (v & Hv & ->). by exists v, (state self), (position self). }
  intros []. eapply vhoare_post; [apply vhoare_set_row|].
  intros [] v2 (v1 & (v & s & z & [Hv Hp] & ->) & ->).
  by eapply sync_inv_forget.
Qed.

#[local] Hint Resolve preserves_teardown_card : preserves.

Lemma preserves_teardown_cards : preserves _teardown_cards.
Proof. unfold _teardown_cards. pres. Qed.

#[local] Hint Resolve preserves_teardown_cards : preserves.

Lemma preserves_show_outage (reason : string) (details : option string) :
  preserves (show_outage device reason details).
Proof. unfold show_outage. pres. Qed.

Lemma cosmetic_clear_outage : cosmetic (clear_outage device).
Proof. unfold clear_outage. cosm. Qed.

#[local] Hint Resolve preserves_show_outage : preserves.
#[local] Hint Resolve cosmetic_clear_outage : cosmetic.

Lemma preserves_update_network_state (online : bool) (details : option string) :
  preserves (update_network_state device online details).
Proof. unfold update_network_state. pres. Qed.

#[local] Hint Resolve preserves_update_network_state : preserves.

Lemma preserves_handle_update (item : Update) :
  preserves (handle_update Args device item).
Proof. unfold handle_update. pres. Qed.

#[local] Hint Resolve preserves_handle_update : preserves.

Lemma preserves_process_loop (queued : list Update) (processed : bool) :
  preserves (process_loop Args device queued processed).
Proof.
  revert processed. induction queued as [|x rest IH]; intros processed; simpl.
  - pres.
  - pres.
Qed.

#[local] Hint Resolve preserves_process_loop : preserves.

Lemma preserves_process_pending_updates :
  preserves (process_pending_updates Args device).
Proof. unfold process_pending_updates. pres. Qed.

#[local] Hint Resolve preserves_process_pending_updates : preserves.

Lemma preserves_tick (env : TickEnv) : preserves (tick Args device env).
Proof. unfold tick. pres. Qed.

Lemma preserves_first_fetch (env : FetchEnv) :
  preserves (first_fetch Args device env).
Proof. unfold first_fetch. pres. Qed.

(** Every step of the system keeps the invariant. *)
Lemma step_sync_inv (b b' : boardFixed.t) :
  step Args device b b' → sync_inv (view_of b) → sync_inv (view_of b').
Proof.
  intros Hstep Hb. destruct Hstep as
    [env b b' H|env b b' H|env b|b|env p b b' H|b r b' H|b b' H
    |now card row b b' H|b b' H|b b' H|b b' H|reason details b b' H
    |p svc b b' H|p svc b b' H|p b b' H].
  - eapply preserves_first_fetch; eauto.
  - eapply preserves_tick; eauto.
  - by rewrite cosmetic_fetch.
  - unfold _on_fetch_task_done. by rewrite cosmetic_modify.
  - eapply preserves_ScrollTime_tick; eauto.
  - eapply preserves_process_pending_updates; eauto.
  - eapply preserves_force_rotation_cycle; eauto.
  - eapply preserves_requestCardChange; eauto.
  - eapply preserves_update_display_with_new_data; eauto.
  - eapply preserves_set_initial_cards; eauto.
  - eapply preserves_teardown_cards; eauto.
  - eapply preserves_show_outage; eauto.
  - eapply preserves_changeCard; eauto.
  - eapply preserves_updateCard; eauto.
  - eapply (preserves_cosmetic (refresh p)); eauto. cosm.
Qed.

Lemma reachable_sync_inv (t0 : Z) (b : boardFixed.t) :
  reachable Args device t0 b → sync_inv (view_of b).
Proof.
  induction 1 as [|b b' _ IH Hstep].
  - split_and!; by intros [] ?.
  - by eapply step_sync_inv.
Qed.


(** *** How a row comes to hold the scroll slot *)

Lemma no_new_scroll_refl (v : view) : no_new_scroll v v.
Proof. by intros q s z. Qed.

Lemma no_new_scroll_entry (p : slot) (v0 v : view) :
  no_new_scroll v0 v → scroll_entry p v0 v.
Proof. intros H q s z Hq Hs. left. by apply H. Qed.

Lemma no_new_scroll_set_state (p : slot) (s : AnimState) (v0 v : view) :
  ¬ scrolling s → no_new_scroll v0 v → no_new_scroll v0 (vset_state p s v).
Proof.
  intros Hs H q s' z. unfold vset_state. rewrite vrow_vset_row.
  destruct (decide (q = p)) as [->|]; [|apply H].
  destruct (vrow p v) as [[s0 z0]|]; [|done]. by intros [= <- <-].
Qed.

Lemma entry_start (p : slot) (z : Z) (v0 : view) :
  vrow p v0 = Some (SCROLLING_WAIT, z) →
  scroll_entry p v0 (vset_state p SCROLLING v0).
Proof.
  intros Hp q s z'. unfold vset_state. rewrite vrow_vset_row, Hp.
  destruct (decide (q = p)) as [->|]; [|by left].
  intros [= <- <-] _. right. by left.
Qed.

Lemma entry_claim (p : slot) (z : Z) (v0 : view) :
  vrow p v0 = Some (SCROLL_DECIDER, z) →
  Synchroniser.is_synchronised (vsync v0) = true →
  scroll_entry p v0
    (vset_state p SCROLLING_WAIT (vset_sync (Synchroniser.busy z) v0)).
Proof.
  intros Hp Hs q s z'. unfold vset_state.
  rewrite vrow_vset_row, vsync_vset_row, !vrow_vset_sync, Hp.
  destruct (decide (q = p)) as [->|]; [|by left].
  intros [= <- <-] _. right. right. split_and!; try done.
  simpl. unfold Synchroniser.busy. by rewrite lookup_insert_eq.
Qed.

Lemma keeps_nns_quiet (v0 : view) (p : slot) (f : ScrollTime.t → ScrollTime.t)
    (s : AnimState) :
  (∀ r, key (f r) = (s, position r)) → ¬ scrolling s →
  vhoare (no_new_scroll v0) (modify_row p f) (λ _, no_new_scroll v0).
Proof.
  intros Hf Hs. eapply vhoare_post; [by apply vhoare_set_state|].
  intros [] v' (v & Hv & ->). by apply no_new_scroll_set_state.
Qed.

Lemma keeps_nns_sync (v0 : view) (g : gmap Z bool → gmap Z bool) :
  vhoare (no_new_scroll v0)
    (modify (λ b, set_synchronised (g (synchronised b)) b))
    (λ _, no_new_scroll v0).
Proof.
  eapply vhoare_post; [apply vhoare_sync|].
  intros [] v' (v & Hv & ->) q s z. rewrite vrow_vset_sync. apply Hv.
Qed.

Lemma keeps_nns_sync_ready (v0 : view) (z : Z) :
  vhoare (no_new_scroll v0) (sync_ready z) (λ _, no_new_scroll v0).
Proof. apply keeps_nns_sync. Qed.

Lemma keeps_nns_sync_busy (v0 : view) (z : Z) :
  vhoare (no_new_scroll v0) (sync_busy z) (λ _, no_new_scroll v0).
Proof. apply keeps_nns_sync. Qed.

#[local] Hint Resolve keeps_nns_sync_ready keeps_nns_sync_busy : preserves.
#[local] Hint Extern 1 (vhoare (no_new_scroll _) (modify_row _ _) _) =>
  eapply keeps_nns_quiet; [intros ?; unfold key; simpl; reflexivity|quiet]
  : preserves.

Lemma keeps_nns_changeCard (v0 : view) (p : slot) (svc : Service) :
  vhoare (no_new_scroll v0) (changeCard Args device p svc)
    (λ _, no_new_scroll v0).
Proof.
  unfold changeCard. apply keeps_bind; [apply vhoare_cosmetic; cosm|].
  intros self. destruct (decide (_ ∧ _)); [pres|].
  destruct (decide (ID svc = "0")); pres.
Qed.

#[local] Hint Resolve keeps_nns_changeCard : preserves.

Lemma keeps_nns_requestCardChange (v0 : view) (now : Z) (card : slot) (row : Z) :
  vhoare (no_new_scroll v0) (requestCardChange Args device now card row)
    (λ _, no_new_scroll v0).
Proof. unfold requestCardChange. pres. Qed.

#[local] Hint Resolve keeps_nns_requestCardChange : preserves.

Ltac vnns v0 :=
  eapply (vhoare_conseq _ (no_new_scroll v0) _ (λ _, no_new_scroll v0));
    [pres
    |intros ? ?; repeat match goal with H : _ ∧ _ |- _ => destruct H end;
     subst; apply no_new_scroll_refl
    |intros ? ?; apply no_new_scroll_entry].

Lemma ScrollTime_tick_scroll_entry (env : TickEnv) (p : slot) (v0 : view) :
  vhoare (λ v, v = v0) (ScrollTime_tick Args device env p)
    (λ _ v', scroll_entry p v0 v').
Proof.
  unfold ScrollTime_tick. vcos.
  eapply vhoare_bind; [apply vhoare_get_row|]. intros self.
  unfold key. destruct (state self) eqn:Hst; try (vnns v0; fail).
  - (* SCROLL_DECIDER *)
    destruct (ReducedAnimations Args); [vnns v0|].
    destruct (decide (ID (CurrentService self) = "0")); [vnns v0|].
    eapply vhoare_bind; [apply vhoare_is_synchronised|]. intros [|]; [|vnns v0].
    vcos. destruct a0; simpl; [vnns v0|].
    eapply vhoare_bind; [apply vhoare_is_synchronised|]. intros [|]; [|vnns v0].
    eapply vhoare_bind; [apply vhoare_sync|]. intros [].
    eapply vhoare_post;
      [apply (vhoare_set_state _ p (set_state SCROLLING_WAIT) SCROLLING_WAIT);
       by intros r|].
    intros [] v2 (v1 & (v & [[[-> Hp] Hs] _] & ->) & ->).
    by apply entry_claim.
  - (* SCROLLING_WAIT *)
    vcos. destruct a0; simpl; [vnns v0|].
    eapply vhoare_post;
      [apply (vhoare_set_state _ p (set_state SCROLLING) SCROLLING);
       by intros r|].
    intros [] v2 (v & [-> Hp] & ->). by eapply entry_start.
Qed.

End WithConfig.
End SystemFacts.

Module SystemClaims.
Import Board System SystemFacts Samples.

Lemma run_ticks_reachable (Args : Config) (device : Device) (t0 : Z)
    (env : TickEnv) (n : nat) (b b' : boardFixed.t) :
  reachable Args device t0 b → run_ticks Args device env n b = Some b' →
  reachable Args device t0 b'.
Proof.
  revert b. induction n as [|n IH]; intros b Hb Hrun; simpl in Hrun.
  - by injection Hrun as <-.
  - destruct (tick Args device env b) as [[e|[]] b1] eqn:Htick; [done|].
    eapply IH; [|exact Hrun].
    eapply reachable_step; [exact Hb|]. eapply step_tick, Htick.
Qed.

(** C4. In every board a run reaches from a new board, at most one row is
    in the state [SCROLLING].  A row that holds the scroll slot (it waits
    for its scroll or scrolls) is marked busy, so the synchroniser does not
    report the rows ready and no other row can claim the slot before that
    row has been marked ready again.  And a frame of a row brings a row to
    hold the slot in two ways only: the row whose frame it is was deciding
    while the synchroniser reported every row ready, and is now marked busy
    and waits for its scroll; or it waited for its scroll and now
    scrolls. *)
Theorem one_row_scrolls_at_a_time (Args : Config) (device : Device) (t0 : Z)
    (b : boardFixed.t) :
  reachable Args device t0 b →
  (∀ p q rp rq,
     row p b = Some rp → row q b = Some rq →
     state rp = SCROLLING → state rq = SCROLLING → p = q)
  ∧ (∀ p r,
       row p b = Some r → scrolling (state r) →
       synchronised b !! position r = Some false
       ∧ Synchroniser.is_synchronised (synchronised b) = false)
  ∧ (∀ env p b',
       ScrollTime_tick Args device env p b = (inr tt, b') →
       scroll_entry p (view_of b) (view_of b')).
Proof.
  intros Hb. pose proof (reachable_sync_inv _ _ _ _ Hb) as Hinv.
  split_and!.
  - intros p q rp rq Hp Hq Hsp Hsq.
    destruct Hinv as (_ & _ & Huniq).
    apply (Huniq p q SCROLLING (position rp) SCROLLING (position rq)).
    + by rewrite view_of_row, Hp, <- Hsp.
    + by rewrite view_of_row, Hq, <- Hsq.
    + by right.
    + by right.
  - intros p r Hp Hs.
    assert (Hv : vrow p (view_of b) = Some (state r, position r))
      by by rewrite view_of_row, Hp.
    pose proof Hinv as (Hpos & Hbusy & _).
    rewrite (Hpos _ _ _ Hv). split; [by eapply Hbusy|].
    destruct (Synchroniser.is_synchronised (synchronised b)) eqn:Hsync; [|done].
    by destruct (synchronised_no_scrolling _ Hinv Hsync _ _ _ Hv).
  - intros env p b' Htick.
    by eapply (ScrollTime_tick_scroll_entry Args device env p (view_of b)).
Qed.

Lemma sample_running_reachable :
  reachable sample_config sample_device 0 sample_running_board.
Proof.
  eapply run_ticks_reachable with (env := sample_tick_env) (n := 89%nat)
                                  (b := sample_started_board).
  - eapply reachable_step; [apply reachable_new|].
    apply (step_first_fetch _ _ sample_fetch_ok). vm_compute. reflexivity.
  - vm_compute. reflexivity.
Qed.

Lemma sample_running_top_scrolls :
  state <$> row Top sample_running_board = Some SCROLLING.
Proof. vm_compute. reflexivity. Qed.

Lemma one_row_scrolls_at_a_time_witness :
  (∀ p q rp rq,
     row p sample_running_board = Some rp →
     row q sample_running_board = Some rq →
     state rp = SCROLLING → state rq = SCROLLING → p = q)
  ∧ (∀ p r,
       row p sample_running_board = Some r → scrolling (state r) →
       synchronised sample_running_board !! position r = Some false
       ∧ Synchroniser.is_synchronised (synchronised sample_running_board)
         = false)
  ∧ (∀ env p b',
       ScrollTime_tick sample_config sample_device env p sample_running_board
       = (inr tt, b') →
       scroll_entry p (view_of sample_running_board) (view_of b')).
Proof.
  apply (one_row_scrolls_at_a_time sample_config sample_device 0
           sample_running_board).
  eapply run_ticks_reachable with (env := sample_tick_env) (n := 89%nat)
                                  (b := sample_started_board).
  - eapply reachable_step; [apply reachable_new|].
    apply (step_first_fetch _ _ sample_fetch_ok). vm_compute. reflexivity.
  - vm_compute. reflexivity.
Defined.

End SystemClaims.
(** ** The fetch path: sorting and publishing *)

Module FetchProperties.
Import Partition Board QueueTrace PartitionFacts QueueFacts Samples.

Lemma insert_by_key_perm (x : Service) (l : list Service) :
  insert_by_key x l ≡ₚ x :: l.
Proof.
  induction l as [|y r IH]; simpl; [done|].
  destruct (decide (sort_key x ≤ sort_key y)); [done|].
  rewrite IH. apply Permutation_swap.
Qed.

Lemma insert_by_key_sorted (x : Service) (l : list Service) :
  StronglySorted arrives_before l →
  StronglySorted arrives_before (insert_by_key x l).
Proof.
  induction 1 as [|y r Hr IH Hy]; simpl.
  - repeat constructor.
  - destruct (decide (sort_key x ≤ sort_key y)) as [Hle|Hgt].
    + constructor; [by constructor|].
      constructor; [done|].
      eapply Forall_impl; [exact Hy|]. intros z Hz.
      unfold arrives_before in *. lia.
    + constructor; [done|].
      rewrite insert_by_key_perm. constructor; [|done].
      unfold arrives_before. lia.
Qed.

Lemma insert_by_key_filter (k : Z) (x : Service) (l : list Service) :
  filter (λ s, sort_key s = k) (insert_by_key x l)
  = filter (λ s, sort_key s = k) (x :: l).
Proof.
  induction l as [|y r IH]; simpl; [done|].
  destruct (decide (sort_key x ≤ sort_key y)); [done|].
  rewrite (filter_cons _ y), IH, !(filter_cons _ x), !(filter_cons _ y).
  repeat case_decide; try done. lia.
Qed.

(** X1.  [data.sort(key=...)] on the fetch path: the sorted list holds the
    fetched records, each as often as it was fetched, in ascending order of
    estimated-or-scheduled arrival, and records with the same arrival keep
    the order the feed gave them. *)
Theorem sort_by_key_sorted_stable (data : list Service) :
  sort_by_key data ≡ₚ data
  ∧ Sorted arrives_before (sort_by_key data)
  ∧ ∀ k, filter (λ s, sort_key s = k) (sort_by_key data)
         = filter (λ s, sort_key s = k) data.
Proof.
  unfold sort_by_key. induction data as [|x l (Hperm & Hsorted & Hstable)]; simpl.
  - split_and!; [done|constructor|done].
  - split_and!.
    + by rewrite insert_by_key_perm, Hperm.
    + apply StronglySorted_Sorted, insert_by_key_sorted.
      by apply Sorted_StronglySorted; [apply _|].
    + intros k. rewrite insert_by_key_filter, !(filter_cons _ x), Hstable. done.
Qed.

Lemma sort_by_key_perm (data : list Service) : sort_by_key data ≡ₚ data.
Proof.
  unfold sort_by_key. induction data as [|x l IH]; simpl; [done|].
  by rewrite insert_by_key_perm, IH.
Qed.

Lemma sort_by_key_Sorted (data : list Service) :
  Sorted arrives_before (sort_by_key data).
Proof.
  unfold sort_by_key. induction data as [|x l IH]; simpl; [constructor|].
  apply StronglySorted_Sorted, insert_by_key_sorted.
  by apply Sorted_StronglySorted; [apply _|].
Qed.

(** X3.  What the board pins after a fetch: of the records a fetch brought,
    sorted as the fetch sorts them, the pinned one is a fetched record that
    arrives no later than any other, and the rotating ones are fetched
    records with other IDs than the pinned one, no ID twice.  Nothing is
    pinned only when nothing was fetched. *)
Theorem pinned_is_earliest_fetched (data : list Service) :
  match split_pinned_rotating (sort_by_key data) with
  | (Some pinned, rotating) =>
      pinned ∈ data
      ∧ (∀ svc, svc ∈ data → arrives_before pinned svc)
      ∧ (∀ svc, svc ∈ rotating → svc ∈ data ∧ ID svc ≠ ID pinned)
      ∧ NoDup (ID <$> rotating)
  | (None, rotating) => data = [] ∧ rotating = []
  end.
Proof.
  pose proof (sort_by_key_perm data) as Hperm.
  pose proof (sort_by_key_Sorted data) as Hsorted.
  destruct (sort_by_key data) as [|first tail] eqn:Hs.
  - simpl. split; [|done]. by apply Permutation_nil.
  - pose proof (split_rotating_spec first tail) as Hrot.
    destruct (split_pinned_rotating (first :: tail)) as [pinned rotating] eqn:Hsplit.
    assert (pinned = Some first) as ->.
    { unfold split_pinned_rotating in Hsplit. simpl in Hsplit. congruence. }
    simpl in Hrot. subst rotating. split_and!.
    + rewrite <- Hperm. by left.
    + intros svc Hsvc. apply (Sorted_head_least first tail Hsorted).
      by rewrite Hperm.
    + intros svc Hsvc. split.
      * rewrite <- Hperm. right.
        eapply elem_of_sublist; [exact Hsvc|]. apply rotating_spec_sublist.
      * unfold rotating_spec in Hsvc.
        by apply list_elem_of_filter in Hsvc as [? _].
    + apply rotating_spec_NoDup.
Qed.

Section WithConfig.
Context (Args : Config).

(** X2.  A fetch that finds the network and gets an answer returns [True]
    and leaves on the queue exactly one item: the records of the answer,
    sorted by arrival.  The time of the fetch is recorded and the
    fetch-in-progress flag is cleared. *)
Theorem fetch_publishes_sorted_data (env : FetchEnv) (b : boardFixed.t)
    (data : list Service) :
  FetchInProgress b = false →
  counted (update_queue b) →
  check_network_async env = inr true →
  GetDataAsync env = inr data →
  ∃ b', fetch_and_sort_services Args env b = (inr true, b')
        ∧ FetchInProgress b' = false
        ∧ LastUpdate b' = fetch_now env
        ∧ Queue.items (update_queue b') = [UData (sort_by_key data)]
        ∧ Services b' = Services b.
Proof.
  intros Hidle Hcount Hnet Hdata. unfold fetch_and_sort_services.
  unfold mbind at 1, M_bind, get at 1. rewrite Hidle.
  unfold finally, try_excepts. rewrite Hnet, Hdata.
  unfold mbind, M_bind, modify, await, mret, M_ret. simpl.
  rewrite enqueue_update_eq by done. simpl.
  eexists. split; [reflexivity|]. done.
Qed.

End WithConfig.

Lemma fetch_publishes_sorted_data_witness :
  ∃ b', fetch_and_sort_services sample_config sample_fetch_ok (new_board 0)
        = (inr true, b')
        ∧ Queue.items (update_queue b') = [UData [svA; svB; svC]].
Proof.
  destruct (fetch_publishes_sorted_data sample_config sample_fetch_ok
              (new_board 0) [svC; svA; svB])
    as (b' & Hrun & _ & _ & Hq & _);
    [reflexivity|vm_compute; discriminate|reflexivity|reflexivity|].
  exists b'. split; [exact Hrun|exact Hq].
Defined.

End FetchProperties.
Module FrameFacts.
Import Partition Board System Frame Samples MoreSamples.

Section Always.
Context (J : boardFixed.t → Prop).

Lemma always_ret {A} (a : A) : always J (mret a : B A).
Proof. by intros b. Qed.

Lemma always_raise {A} (e : exn) : always J (raise e : B A).
Proof. by intros b. Qed.

Lemma always_get : always J (get : B boardFixed.t).
Proof. by intros b. Qed.

Lemma always_modify (f : boardFixed.t → boardFixed.t) :
  (∀ b, J b → J (f b)) → always J (modify f).
Proof. intros Hf b. apply Hf. Qed.

Lemma always_bind {A C} (m : B A) (f : A → B C) :
  always J m → (∀ a, always J (f a)) → always J (m ≫= f).
Proof.
  intros Hm Hf b Hb. unfold mbind, M_bind. specialize (Hm b Hb).
  destruct (m b) as [[e|a] b1]; [done|]. by apply Hf.
Qed.

Lemma always_try_excepts {A} (body : B A) (select : exn → option (B A)) :
  always J body → (∀ e h, select e = Some h → always J h) →
  always J (try_excepts body select).
Proof.
  intros Hb Hh b HJ. unfold try_excepts. specialize (Hb b HJ).
  destruct (body b) as [[e|a] b1]; [|done].
  destruct (select e) as [h|] eqn:Hsel; [|done]. by eapply Hh.
Qed.

Lemma always_finally {A} (body : B A) (fin : B unit) :
  always J body → always J fin → always J (finally body fin).
Proof.
  intros Hb Hf b HJ. unfold finally. specialize (Hb b HJ).
  destruct (body b) as [[e|a] b1].
  - destruct (decide (exn_cls e = Suspended)); [done|].
    specialize (Hf b1 Hb). by destruct (fin b1) as [[?|?] ?].
  - specialize (Hf b1 Hb). by destruct (fin b1) as [[?|?] ?].
Qed.

Lemma always_await {A} (r : exn + A) : always J (await r).
Proof. destruct r; [apply always_raise|apply always_ret]. Qed.

Lemma always_getitem {A} (l : list A) (i : Z) : always J (getitem l i).
Proof.
  unfold getitem. destruct (py_index l i); [apply always_ret|apply always_raise].
Qed.

End Always.

Lemma unchanged_always {X A} (proj : boardFixed.t → X)
    (J : boardFixed.t → Prop) (m : B A) :
  (∀ b b', proj b' = proj b → J b → J b') → unchanged proj m → always J m.
Proof. intros HJ Hm b Hb. eapply HJ; [apply Hm|done]. Qed.


Create HintDb always discriminated.
#[local] Hint Resolve always_get always_await always_getitem : always.
#[local] Hint Extern 0 (always _ (mret _)) => apply always_ret : always.
#[local] Hint Extern 0 (always _ pass) => apply always_ret : always.
#[local] Hint Extern 0 (always _ refresh_composition) => apply always_ret : always.
#[local] Hint Extern 0 (always _ (raise _)) => apply always_raise : always.

Ltac alw_gen close :=
  repeat first
    [ solve [auto with always]
    | apply always_bind; [|intros ?]
    | apply always_finally
    | apply always_try_excepts; [|intros ? ? ?]
    | apply always_modify; let H := fresh in intros ? H; close H
    | match goal with
      | |- always _ (modify (set_row ?p _)) =>
          apply always_modify; let H := fresh in intros ? H; destruct p; close H
      | |- always _ (modify_row ?p _) =>
          apply always_modify; let H := fresh in intros ? H; destruct p; close H
      | |- always _ (if ?c then _ else _) => destruct c
      | |- always _ (match ?x with _ => _ end) => destruct x
      | |- always _ (let '(_, _) := ?x in _) => destruct x
      | H : (if ?c then _ else _) = Some _ |- _ => destruct c; simplify_eq
      | H : None = Some _ |- _ => discriminate H
      end ].

Ltac alw := alw_gen ltac:(fun H => exact H).

(** *** What depends on the services and the queue only *)

Section Frame.
Context (Args : Config) (device : Device).
Context (J : boardFixed.t → Prop).
Hypothesis HJ : data_only J.

Ltac falw :=
  alw_gen ltac:(fun H => refine (HJ _ _ _ _ H); reflexivity).

Lemma frame_schedule_fetch : always J _schedule_fetch.
Proof. unfold _schedule_fetch. falw. Qed.
Lemma frame_new_image content position w :
  always J (new_image content position w).
Proof. unfold new_image. falw. Qed.
Lemma frame_add_image image : always J (add_image image).
Proof. unfold add_image. falw. Qed.
Lemma frame_remove_image image : always J (remove_image image).
Proof. unfold remove_image. falw. Qed.
Lemma frame_safe_remove_image image :
  always J (_safe_remove_image image).
Proof. unfold _safe_remove_image. falw. Qed.
Lemma frame_set_offset image offset :
  always J (set_offset image offset).
Proof. unfold set_offset. falw. Qed.
Lemma frame_get_row p : always J (get_row p).
Proof. unfold get_row. falw. Qed.
Lemma frame_sync_busy z : always J (sync_busy z).
Proof. unfold sync_busy. falw. Qed.
Lemma frame_sync_ready z : always J (sync_ready z).
Proof. unfold sync_ready. falw. Qed.
Lemma frame_sync_forget z : always J (sync_forget z).
Proof. unfold sync_forget. falw. Qed.
Lemma frame_is_synchronised : always J is_synchronised.
Proof. unfold is_synchronised. falw. Qed.

#[local] Hint Resolve frame_schedule_fetch frame_new_image frame_add_image
  frame_remove_image frame_safe_remove_image frame_set_offset
  frame_get_row frame_sync_busy frame_sync_ready frame_sync_forget
  frame_is_synchronised : always.

Lemma frame_render_row self : always J (render_row self).
Proof. unfold render_row. falw. Qed.
#[local] Hint Resolve frame_render_row : always.
Lemma frame_render p : always J (render p).
Proof. unfold render. falw. Qed.
Lemma frame_refresh p : always J (refresh p).
Proof. unfold refresh. falw. Qed.
#[local] Hint Resolve frame_render frame_refresh : always.
Lemma frame_refresh_partner partner :
  always J (refresh_partner partner).
Proof. unfold refresh_partner. falw. Qed.
Lemma frame_generateCard position service :
  always J (generateCard Args device position service).
Proof. unfold generateCard. falw. Qed.
Lemma frame_new_time_image position text :
  always J (new_time_image device position text).
Proof. unfold new_time_image. falw. Qed.
#[local] Hint Resolve frame_refresh_partner frame_generateCard
  frame_new_time_image : always.
Lemma frame_is_waiting p : always J (is_waiting p).
Proof. unfold is_waiting. falw. Qed.
Lemma frame_update_display_time env p :
  always J (update_display_time device env p).
Proof. unfold update_display_time. falw. Qed.
Lemma frame_remove_banner p : always J (remove_banner p).
Proof. unfold remove_banner. falw. Qed.
Lemma frame_remove_if_present image :
  always J (_remove_if_present image).
Proof. unfold _remove_if_present. falw. Qed.
Lemma frame_addPartner p q : always J (addPartner p q).
Proof. unfold addPartner. falw. Qed.
Lemma frame_ScrollTime_init service previous delay z :
  always J (ScrollTime_init Args device service previous delay z).
Proof. unfold ScrollTime_init. falw. Qed.
Lemma frame_changeCard p svc :
  always J (changeCard Args device p svc).
Proof. unfold changeCard. falw. Qed.
Lemma frame_updateCard p svc : always J (updateCard device p svc).
Proof. unfold updateCard. falw. Qed.
Lemma frame_delete p : always J (delete p).
Proof. unfold delete. falw. Qed.
#[local] Hint Resolve frame_is_waiting frame_update_display_time
  frame_remove_banner frame_remove_if_present frame_addPartner
  frame_ScrollTime_init frame_changeCard frame_updateCard frame_delete
  : always.

Lemma frame_set_initial_cards :
  always J (set_initial_cards Args device).
Proof. unfold set_initial_cards. falw. Qed.
Lemma frame_teardown_card p : always J (teardown_card p).
Proof. unfold teardown_card. falw. Qed.
#[local] Hint Resolve frame_set_initial_cards frame_teardown_card : always.
Lemma frame_teardown_cards : always J _teardown_cards.
Proof. unfold _teardown_cards. falw. Qed.
Lemma frame_update_display :
  always J (update_display_with_new_data Args device).
Proof. unfold update_display_with_new_data. falw. Qed.
Lemma frame_force_rotation_cycle :
  always J (force_rotation_cycle Args device).
Proof. unfold force_rotation_cycle. falw. Qed.
Lemma frame_requestCardChange now card row :
  always J (requestCardChange Args device now card row).
Proof. unfold requestCardChange. falw. Qed.
#[local] Hint Resolve frame_teardown_cards frame_update_display
  frame_force_rotation_cycle frame_requestCardChange : always.
Lemma frame_ScrollTime_tick env p :
  always J (ScrollTime_tick Args device env p).
Proof. unfold ScrollTime_tick. falw. Qed.
Lemma frame_show_outage reason details :
  always J (show_outage device reason details).
Proof. unfold show_outage. falw. Qed.
Lemma frame_clear_outage : always J (clear_outage device).
Proof. unfold clear_outage. falw. Qed.
#[local] Hint Resolve frame_ScrollTime_tick frame_show_outage
  frame_clear_outage : always.
Lemma frame_update_network_state online details :
  always J (update_network_state device online details).
Proof. unfold update_network_state. falw. Qed.
#[local] Hint Resolve frame_update_network_state : always.


End Frame.

Lemma services_sorted_frame : data_only services_sorted.
Proof. intros b b' HS HQ [? ?]. unfold services_sorted. by rewrite HS, HQ. Qed.

#[local] Hint Resolve services_sorted_frame : always.
#[local] Hint Resolve frame_schedule_fetch frame_new_image frame_add_image
  frame_remove_image frame_safe_remove_image frame_set_offset frame_get_row
  frame_sync_busy frame_sync_ready frame_sync_forget frame_is_synchronised
  frame_render_row frame_render frame_refresh frame_refresh_partner
  frame_generateCard frame_new_time_image frame_is_waiting
  frame_update_display_time frame_remove_banner frame_remove_if_present
  frame_addPartner frame_ScrollTime_init frame_changeCard frame_updateCard
  frame_delete frame_set_initial_cards frame_teardown_card
  frame_teardown_cards frame_update_display frame_force_rotation_cycle
  frame_requestCardChange frame_ScrollTime_tick frame_show_outage
  frame_clear_outage frame_update_network_state : always.

(** *** The services stay sorted *)

Lemma sorted_with_queue_get {C} (k : Update → B C) :
  (∀ item, sorted_item item → always services_sorted (k item)) →
  always services_sorted (with_queue Queue.get_nowait ≫= k).
Proof.
  intros Hk b [Hs Hq]. unfold mbind, M_bind, with_queue, Queue.get_nowait.
  destruct (Queue.items (update_queue b)) as [|item rest] eqn:Hitems; simpl.
  - split; [done|]. simpl. rewrite ?Hitems. constructor.
  - apply Forall_cons in Hq as [Hitem Hrest]. by apply Hk.
Qed.

Lemma sorted_task_done : always services_sorted (with_queue Queue.task_done).
Proof.
  intros b [Hs Hq]. unfold with_queue, Queue.task_done.
  by destruct (decide _).
Qed.

Lemma sorted_put (item : Update) :
  sorted_item item → always services_sorted (with_queue (Queue.put item)).
Proof.
  intros Hitem b [Hs Hq]. unfold with_queue, Queue.put.
  destruct (Queue.full _); [done|]. simpl. split; [done|].
  apply Forall_app. split; [done|]. by constructor.
Qed.

#[local] Hint Resolve sorted_task_done : always.

Lemma sorted_drain_loop (queued : list Update) :
  always services_sorted (drain_loop queued).
Proof.
  induction queued as [|x rest IH]; simpl; [alw|].
  apply always_bind; [alw|]. intros b. destruct (Queue.empty _); [alw|].
  apply always_bind; [|intros []; alw].
  apply always_try_excepts; [|intros ? ? ?; alw].
  apply sorted_with_queue_get. intros item _. alw.
Qed.

Lemma sorted_enqueue_update (item : Update) :
  sorted_item item → always services_sorted (_enqueue_update item).
Proof.
  intros Hitem. unfold _enqueue_update.
  apply always_bind; [alw|]. intros b.
  apply always_bind; [apply sorted_drain_loop|]. intros _. by apply sorted_put.
Qed.


#[local] Hint Resolve sorted_drain_loop : always.

Section WithConfig.
Context (Args : Config) (device : Device).

Lemma sorted_fetch (env : FetchEnv) :
  always services_sorted (fetch_and_sort_services Args env).
Proof.
  unfold fetch_and_sort_services.
  apply always_bind; [alw|]. intros b. destruct (FetchInProgress b); [alw|].
  apply always_finally; [|alw].
  apply always_try_excepts.
  - apply always_bind; [alw|]. intros _.
    apply always_bind; [alw|]. intros online. destruct online; simpl.
    + apply always_bind; [alw|]. intros _.
      apply always_bind; [alw|]. intros data.
      apply always_bind; [|alw].
      apply sorted_enqueue_update. apply FetchProperties.sort_by_key_Sorted.
    + apply always_bind; [alw|]. intros _.
      apply always_bind; [by apply sorted_enqueue_update|]. alw.
  - intros e h Hsel.
    destruct (decide (exn_cls e = CancelledError)); [simplify_eq; alw|].
    destruct (is_RequestException e).
    { simplify_eq. apply always_bind; [alw|]. intros _.
      apply always_bind; [by apply sorted_enqueue_update|]. alw. }
    destruct (is_Exception e); [|done].
    simplify_eq. apply always_bind; [alw|]. intros _.
    apply always_bind; [by apply sorted_enqueue_update|]. alw.
Qed.

#[local] Hint Resolve sorted_fetch : always.

Lemma sorted_handle_update (item : Update) :
  sorted_item item → always services_sorted (handle_update Args device item).
Proof.
  intros Hitem. unfold handle_update. destruct item as [data|reason details].
  - apply always_bind; [alw|]. intros b.
    apply always_bind; [|intros _; alw].
    destruct (bool_decide _); [|alw].
    apply always_modify. by intros b0 [_ Hq].
  - alw.
Qed.

Lemma sorted_process_loop (queued : list Update) (processed : bool) :
  always services_sorted (process_loop Args device queued processed).
Proof.
  revert processed. induction queued as [|x rest IH]; intros processed; simpl.
  - alw.
  - apply always_bind; [alw|]. intros b. destruct (Queue.empty _); [alw|].
    apply sorted_with_queue_get. intros item Hitem.
    apply always_bind; [by apply sorted_handle_update|]. intros _.
    apply always_bind; [alw|]. intros _. apply IH.
Qed.
#[local] Hint Resolve sorted_process_loop : always.

Lemma sorted_process_pending_updates :
  always services_sorted (process_pending_updates Args device).
Proof. unfold process_pending_updates. alw. Qed.
#[local] Hint Resolve sorted_process_pending_updates : always.

Lemma sorted_tick env : always services_sorted (tick Args device env).
Proof. unfold tick. alw. Qed.

Lemma sorted_first_fetch env :
  always services_sorted (first_fetch Args device env).
Proof. unfold first_fetch. alw. Qed.

Lemma step_services_sorted (b b' : boardFixed.t) :
  step Args device b b' → services_sorted b → services_sorted b'.
Proof.
  intros Hstep Hb. destruct Hstep as
    [env b b' H|env b b' H|env b|b|env p b b' H|b r b' H|b b' H
    |now card row b b' H|b b' H|b b' H|b b' H|reason details b b' H
    |p svc b b' H|p svc b b' H|p b b' H];
    try (match type of H with ?m ?b = _ =>
           assert (Hm : always services_sorted m) by auto with always;
           specialize (Hm b Hb); by rewrite H in Hm end).
  - pose proof (sorted_first_fetch env b Hb) as Hm. by rewrite H in Hm.
  - pose proof (sorted_tick env b Hb) as Hm. by rewrite H in Hm.
  - by apply sorted_fetch.
  - done.
Qed.

Lemma reachable_services_sorted (t0 : Z) (b : boardFixed.t) :
  reachable Args device t0 b → services_sorted b.
Proof.
  induction 1 as [|b b' _ IH Hstep].
  - split; constructor.
  - by eapply step_services_sorted.
Qed.


(** *** The consumer's end of the queue *)

Lemma queue_is_frame (q : Queue.t) : data_only (queue_is q).
Proof. intros b b' _ HQ. unfold queue_is. congruence. Qed.
#[local] Hint Resolve queue_is_frame : always.

Lemma handle_update_queue (item : Update) (b : boardFixed.t) :
  update_queue (handle_update Args device item b).2 = update_queue b.
Proof.
  assert (H : always (queue_is (update_queue b)) (handle_update Args device item)).
  { unfold handle_update. alw. }
  by apply H.
Qed.

Lemma process_loop_drains (queued : list Update) (processed r : bool)
    (b b' : boardFixed.t) :
  Queue.items (update_queue b) = queued →
  process_loop Args device queued processed b = (inr r, b') →
  Queue.items (update_queue b') = []
  ∧ Queue.unfinished_tasks (update_queue b')
    = Queue.unfinished_tasks (update_queue b) - Z.of_nat (length queued)
  ∧ r = processed || bool_decide (queued ≠ []).
Proof.
  revert processed b. induction queued as [|x rest IH]; intros processed b Hq Hrun.
  - simpl in Hrun. injection Hrun as <- <-. split_and!; [done|simpl; lia|].
    by rewrite orb_false_r.
  - simpl in Hrun. unfold mbind at 1, M_bind at 1, get at 1 in Hrun.
    unfold Queue.empty in Hrun. rewrite Hq in Hrun.
    rewrite bool_decide_eq_false_2 in Hrun by done.
    unfold mbind at 1, M_bind at 1, with_queue at 1, Queue.get_nowait in Hrun.
    rewrite Hq in Hrun.
    set (b1 := set_update_queue _ b) in Hrun.
    unfold mbind at 1, M_bind at 1 in Hrun.
    pose proof (handle_update_queue x b1) as Hframe.
    destruct (handle_update Args device x b1) as [[e|[]] b2]; [done|].
    simpl in Hframe.
    unfold mbind at 1, M_bind at 1, with_queue at 1, Queue.task_done in Hrun.
    rewrite Hframe in Hrun. simpl in Hrun.
    destruct (decide (Queue.unfinished_tasks (update_queue b) ≤ 0)); [done|].
    apply IH in Hrun as (Hitems & Htasks & Hr); [|done].
    split_and!; [done|simpl in *; lia|].
    rewrite Hr. simpl. by rewrite orb_true_r.
Qed.

(** X10.  When [process_pending_updates] returns, the queue is empty,
    [task_done] was called once for every item that was queued, and the
    value returned tells whether there was an item.  (It does not return
    when the handling of an item raises.) *)
Theorem process_pending_updates_drains (b b' : boardFixed.t) (r : bool) :
  process_pending_updates Args device b = (inr r, b') →
  Queue.items (update_queue b') = []
  ∧ Queue.unfinished_tasks (update_queue b')
    = Queue.unfinished_tasks (update_queue b)
      - Z.of_nat (length (Queue.items (update_queue b)))
  ∧ r = bool_decide (Queue.items (update_queue b) ≠ []).
Proof.
  unfold process_pending_updates. rewrite RotationFacts.bind_get.
  intros Hrun. by apply process_loop_drains in Hrun.
Qed.

(** X18.  On every board a run reaches from a new board, the services
    are in ascending order of estimated-or-scheduled arrival: the list is
    only ever replaced by one a fetch sorted.  So the service the board
    pins is one that arrives no later than any other. *)
Theorem reachable_services_in_order (t0 : Z) (b : boardFixed.t) :
  reachable Args device t0 b →
  Sorted arrives_before (Services b)
  ∧ ∀ pinned, (split_pinned_rotating (Services b)).1 = Some pinned →
              ∀ svc, svc ∈ Services b → arrives_before pinned svc.
Proof.
  intros [Hsorted _]%reachable_services_sorted. split; [done|].
  intros pinned Hpinned svc Hsvc.
  destruct (Services b) as [|first tail]; [done|].
  unfold split_pinned_rotating in Hpinned. simpl in Hpinned.
  injection Hpinned as <-. by apply (PartitionFacts.Sorted_head_least first tail).
Qed.

End WithConfig.
Lemma process_pending_updates_drains_witness :
  ∃ b', process_pending_updates sample_config sample_device
          sample_fetched_board = (inr true, b')
        ∧ Queue.items (update_queue b') = []
        ∧ Queue.unfinished_tasks (update_queue b') = 0.
Proof.
  destruct (process_pending_updates sample_config sample_device
              sample_fetched_board) as [[e|r] b'] eqn:Hrun;
    [vm_compute in Hrun; discriminate|].
  destruct (process_pending_updates_drains sample_config sample_device
              sample_fetched_board b' r Hrun) as (Hitems & Htasks & Hr).
  exists b'. rewrite Hr. split; [reflexivity|]. split; [exact Hitems|].
  rewrite Htasks. reflexivity.
Defined.

Lemma reachable_services_in_order_witness :
  Sorted arrives_before (Services sample_running_board)
  ∧ ∀ pinned,
      (split_pinned_rotating (Services sample_running_board)).1 = Some pinned →
      ∀ svc, svc ∈ Services sample_running_board → arrives_before pinned svc.
Proof.
  apply (reachable_services_in_order sample_config sample_device 0
           sample_running_board).
  eapply SystemClaims.run_ticks_reachable
    with (env := sample_tick_env) (n := 89%nat) (b := sample_started_board).
  - eapply reachable_step; [apply reachable_new|].
    apply (step_first_fetch _ _ sample_fetch_ok). vm_compute. reflexivity.
  - vm_compute. reflexivity.
Defined.

End FrameFacts.
(** ** Building the rows *)

Module BuildProperties.
Import Partition Board WellFormed CardSpec CardFacts RotationFacts.

Ltac brun :=
  unfold generateCard, new_time_image, new_image, sync_busy, sync_ready,
    sync_forget, add_image, modify_row, _safe_remove_image,
    refresh_composition, get_row, addPartner,
    pass, modify, mbind, M_bind, get, mret, M_ret, raise; simpl.

Section WithConfig.
Context (Args : Config) (device : Device).

(** [ScrollTime.__init__] returns; the new row shows [service], is at
    [position], has no partner and a banner, and is marked ready. *)
Lemma ScrollTime_init_spec (service previous : Service) (scroll_delay z : Z)
    (b : boardFixed.t) :
  ∃ r b',
    ScrollTime_init Args device service previous scroll_delay z b = (inr r, b')
    ∧ CurrentService r = service
    ∧ position r = z
    ∧ partner r = None
    ∧ delay r = scroll_delay
    ∧ ScrollTime.ticks r = 0
    ∧ state r = (if decide (ID service ≠ "0") then OPENING_SCROLL else STUD)
    ∧ is_Some (IStaticOld r)
    ∧ same_controller b b'
    ∧ top b' = top b ∧ middle b' = middle b ∧ bottom b' = bottom b
    ∧ synchronised b' = <[z := true]> (synchronised b).
Proof.
  unfold ScrollTime_init, render_row, set_offset. brun.
  destruct (decide (ID service ≠ "0")); simpl;
    eexists _, _; (split; [reflexivity|]); simpl;
    split_and!; try done; by eexists.
Qed.


Lemma getitem_or_blank (l : list Service) (i : nat) (b : boardFixed.t) :
  (if decide (Z.of_nat i < Z.of_nat (length l))
   then getitem l (Z.of_nat i) else mret LiveTimeStud) b
  = (inr (default LiveTimeStud (l !! i)), b).
Proof.
  destruct (decide (Z.of_nat i < Z.of_nat (length l))) as [Hlt|Hge].
  - destruct (lookup_lt_is_Some_2 l i) as [x Hx]; [lia|].
    rewrite Hx. simpl. apply getitem_Some.
    rewrite py_index_lookup by lia. by rewrite Nat2Z.id.
  - rewrite lookup_ge_None_2 by lia. done.
Qed.

(** X4.  [set_initial_cards] returns on every board.  It leaves three new
    rows at positions 0, 1 and 2: the top row shows the pinned service, the
    middle and the bottom row the first and the second rotating service,
    and a row with no service to show holds the blank record.  A row with
    a service starts its opening scroll and a blank row rests; the top
    row's partner is the middle row and the middle row's the bottom row;
    every row is marked ready; the rotation index is 0 and the board is
    alive. *)
Theorem set_initial_cards_builds_rows (b : boardFixed.t) :
  ∃ b' t m l,
    set_initial_cards Args device b = (inr tt, b')
    ∧ top b' = Some t ∧ middle b' = Some m ∧ bottom b' = Some l
    ∧ CurrentService t
      = default LiveTimeStud (split_pinned_rotating (Services b)).1
    ∧ CurrentService m
      = default LiveTimeStud ((split_pinned_rotating (Services b)).2 !! 0%nat)
    ∧ CurrentService l
      = default LiveTimeStud ((split_pinned_rotating (Services b)).2 !! 1%nat)
    ∧ (position t, position m, position l) = (0, 1, 2)
    ∧ (partner t, partner m, partner l) = (Some Middle, Some Bottom, None)
    ∧ Forall (λ r, state r = if decide (ID (CurrentService r) ≠ "0")
                             then OPENING_SCROLL else STUD) [t; m; l]
    ∧ Forall (λ z, synchronised b' !! z = Some true) [0; 1; 2]
    ∧ rotating_index b' = 0
    ∧ State b' = "alive"
    ∧ Services b' = Services b.
Proof.
  unfold set_initial_cards. rewrite bind_get.
  destruct (split_pinned_rotating (Services b)) as [pinned rotating]. simpl.
  destruct (ScrollTime_init_spec (default LiveTimeStud pinned) LiveTimeStud
              (Delay Args) 0 b)
    as (t & b1 & Hrun1 & Hsvc1 & Hpos1 & Hpart1 & _ & _ & Hst1 & _ & Hc1
        & _ & _ & _ & Hsync1).
  rewrite (bind_inr _ _ _ _ _ Hrun1), bind_modify.
  rewrite (bind_inr _ _ _ _ _ (getitem_or_blank rotating 0 _)).
  destruct (ScrollTime_init_spec (default LiveTimeStud (rotating !! 0%nat))
              LiveTimeStud (Delay Args) 1 (set_top (Some t) b1))
    as (m & b2 & Hrun2 & Hsvc2 & Hpos2 & Hpart2 & _ & _ & Hst2 & _ & Hc2
        & Htop2 & _ & _ & Hsync2).
  rewrite (bind_inr _ _ _ _ _ Hrun2), bind_modify.
  rewrite (bind_inr _ _ _ _ _ (getitem_or_blank rotating 1 _)).
  destruct (ScrollTime_init_spec (default LiveTimeStud (rotating !! 1%nat))
              LiveTimeStud (Delay Args) 2 (set_middle (Some m) b2))
    as (l & b3 & Hrun3 & Hsvc3 & Hpos3 & Hpart3 & _ & _ & Hst3 & _ & Hc3
        & Htop3 & Hmid3 & _ & Hsync3).
  rewrite (bind_inr _ _ _ _ _ Hrun3). brun.
  simpl in Htop2, Htop3, Hmid3, Hsync2, Hsync3.
  rewrite Htop3, Htop2, Hmid3. simpl.
  eexists _, _, _, _. split; [reflexivity|]. simpl.
  destruct Hc1 as (HS1 & _), Hc2 as (HS2 & _), Hc3 as (HS3 & _).
  simpl in HS2, HS3.
  split_and!; try done.
  - by rewrite Hpos1, Hpos2, Hpos3.
  - by rewrite Hpart3.
  - repeat constructor; simpl; by rewrite ?Hsvc1, ?Hsvc2, ?Hsvc3.
  - rewrite Hsync3, Hsync2, Hsync1.
    repeat constructor; by simplify_map_eq.
  - congruence.
Qed.

End WithConfig.
End BuildProperties.
(** ** The delay of a row and the synchroniser *)

Module RowProperties.
Import Board Runs RotationFacts Samples.

Lemma is_waiting_eq (p : slot) (b : boardFixed.t) (r : ScrollTime.t) :
  row p b = Some r →
  is_waiting p b
  = if decide (delay r < ScrollTime.ticks r + 1)
    then (inr false, set_row p (Some (ScrollTime.set_ticks 0 r)) b)
    else (inr true,
          set_row p (Some (ScrollTime.set_ticks (ScrollTime.ticks r + 1) r)) b).
Proof.
  intros Hrow. unfold is_waiting, modify_row, get_row.
  unfold mbind, M_bind, modify, get, mret, M_ret.
  destruct p; simpl in *; rewrite Hrow; simpl;
    destruct (decide (delay r < ScrollTime.ticks r + 1)); done.
Qed.

Lemma row_set_row (p q : slot) (x : option ScrollTime.t) (b : boardFixed.t) :
  row q (set_row p x b) = if decide (q = p) then x else row q b.
Proof. by destruct p, q. Qed.

Lemma set_row_set_row (p : slot) (x y : option ScrollTime.t) (b : boardFixed.t) :
  set_row p y (set_row p x b) = set_row p y b.
Proof. by destruct p. Qed.

Lemma is_waiting_calls_spec (n : nat) (p : slot) (b : boardFixed.t)
    (r : ScrollTime.t) :
  row p b = Some r →
  0 ≤ ScrollTime.ticks r →
  ScrollTime.ticks r + Z.of_nat n = delay r →
  is_waiting_calls p (S n) b
  = (inr (replicate n true ++ [false]),
     set_row p (Some (ScrollTime.set_ticks 0 r)) b).
Proof.
  revert b r. induction n as [|n IH]; intros b r Hrow Hticks Hdelay.
  - simpl. unfold mbind, M_bind. rewrite (is_waiting_eq p b r Hrow).
    rewrite decide_True by lia. done.
  - change (is_waiting_calls p (S (S n)))
      with (waiting ← is_waiting p; rest ← is_waiting_calls p (S n);
            mret (waiting :: rest) : B (list bool)).
    unfold mbind at 1, M_bind at 1. rewrite (is_waiting_eq p b r Hrow).
    rewrite decide_False by lia.
    unfold mbind at 1, M_bind at 1.
    rewrite (IH _ (ScrollTime.set_ticks (ScrollTime.ticks r + 1) r)).
    + simpl. by rewrite set_row_set_row.
    + by rewrite row_set_row, decide_True.
    + simpl. lia.
    + simpl. lia.
Qed.

(** X5.  [is_waiting] counts frames: on a row whose counter is at 0 and
    whose delay is [d ≥ 0], the first [d] calls return [True] and the next
    one returns [False] and puts the counter back to 0, so that the row
    is as it was: every [d + 1]-th call lets the row go on. *)
Theorem is_waiting_every_delay_plus_one (p : slot) (b : boardFixed.t)
    (r : ScrollTime.t) :
  row p b = Some r →
  ScrollTime.ticks r = 0 →
  0 ≤ delay r →
  is_waiting_calls p (S (Z.to_nat (delay r))) b
  = (inr (replicate (Z.to_nat (delay r)) true ++ [false]), b).
Proof.
  intros Hrow Hticks Hdelay.
  rewrite (is_waiting_calls_spec _ p b r Hrow) by lia.
  f_equal. rewrite <- Hticks.
  destruct r, p; simpl in *; destruct b; simpl in *; by subst.
Qed.

Lemma is_waiting_every_delay_plus_one_witness :
  is_waiting_calls Middle 3 sample_board
  = (inr [true; true; false], sample_board).
Proof.
  destruct (middle sample_board) as [r|] eqn:Hrow;
    [|vm_compute in Hrow; discriminate].
  pose proof (is_waiting_every_delay_plus_one Middle sample_board r Hrow) as H.
  vm_compute in Hrow. injection Hrow as <-.
  exact (H eq_refl ltac:(vm_compute; discriminate)).
Defined.

(** X6.  What the synchroniser reports.  With no task registered it
    reports the tasks ready.  Once a task is marked busy it does not,
    whatever the other tasks are; and marking a task ready and forgetting
    it give the same report, which is the report on the other tasks. *)
Theorem synchroniser_reports (task : Z) (synchronised : gmap Z bool) :
  Synchroniser.is_synchronised ∅ = true
  ∧ Synchroniser.is_synchronised (Synchroniser.busy task synchronised) = false
  ∧ Synchroniser.is_synchronised (Synchroniser.ready task synchronised)
    = Synchroniser.is_synchronised (Synchroniser.forget task synchronised)
  ∧ (Synchroniser.is_synchronised (Synchroniser.forget task synchronised)
     = true
     ↔ ∀ other ready, other ≠ task → synchronised !! other = Some ready →
                      ready = true).
Proof.
  unfold Synchroniser.is_synchronised, Synchroniser.busy, Synchroniser.ready,
    Synchroniser.forget.
  split_and!.
  - apply bool_decide_eq_true. apply map_Forall_empty.
  - apply bool_decide_eq_false. intros H.
    specialize (H task false). rewrite lookup_insert_eq in H. by specialize (H eq_refl).
  - apply bool_decide_ext. rewrite <- (insert_delete_eq synchronised).
    rewrite map_Forall_insert by apply lookup_delete_eq. tauto.
  - rewrite bool_decide_eq_true. split.
    + intros H other ready Hne Hl. apply (H other).
      by rewrite lookup_delete_ne.
    + intros H other ready Hl.
      apply lookup_delete_Some in Hl as [Hne Hl]. by eapply H.
Qed.

End RowProperties.
(** ** Teardown and outages *)

Module OutageProperties.
Import Partition Board WellFormed RotationFacts RowProperties Samples
  MoreSamples.

Ltac orun :=
  unfold new_image, sync_busy, sync_ready, sync_forget, add_image,
    modify_row, _safe_remove_image, refresh_composition, get_row,
    pass, modify, mbind, M_bind, get, mret, M_ret, raise; simpl.

Lemma bind_pass {A} (f : unit → B A) (b : boardFixed.t) :
  (pass ≫= f) b = f tt b.
Proof. reflexivity. Qed.

Lemma remove_if_present_subseteq (image : ComposableImage)
    (l : list ComposableImage) :
  remove_if_present image l ⊆ l.
Proof.
  unfold remove_if_present.
  destruct (remove_first (img_id image) l) as [l'|] eqn:Hrem; [|done].
  by eapply CardFacts.remove_first_subseteq.
Qed.

(** [delete] on a row that has its banner attribute. *)
Lemma delete_with_banner (p : slot) (b : boardFixed.t) (r : ScrollTime.t) :
  row p b = Some r → is_Some (IStaticOld r) →
  ∃ b', delete p b = (inr tt, b')
        ∧ (∀ q, row q b' = row q b)
        ∧ same_controller b b'
        ∧ synchronised b' = Synchroniser.forget (position r) (synchronised b)
        ∧ composed_images b' ⊆ composed_images b.
Proof.
  intros Hrow [image Himage]. unfold delete.
  rewrite (bind_inr _ _ _ _ _ (CardFacts.get_row_Some p b r Hrow)).
  rewrite Himage. orun.
  eexists. split; [reflexivity|]. simpl. split_and!; try done.
  repeat (etrans; [apply remove_if_present_subseteq|]). done.
Qed.

(** [delete] on a row whose banner attribute was deleted. *)
Lemma delete_without_banner (p : slot) (b : boardFixed.t) (r : ScrollTime.t) :
  row p b = Some r → IStaticOld r = None →
  delete p b = (inl (mkExn AttributeError "IStaticOld"), b).
Proof.
  intros Hrow Himage. unfold delete.
  rewrite (bind_inr _ _ _ _ _ (CardFacts.get_row_Some p b r Hrow)).
  by rewrite Himage.
Qed.

Lemma teardown_card_cases (p : slot) (b : boardFixed.t) :
  (∃ b', teardown_card p b = (inr tt, b')
         ∧ row p b' = None
         ∧ (∀ q, q ≠ p → row q b' = row q b)
         ∧ same_controller b b'
         ∧ composed_images b' ⊆ composed_images b
         ∧ ∀ r, row p b = Some r → is_Some (IStaticOld r))
  ∨ (teardown_card p b = (inl (mkExn AttributeError "IStaticOld"), b)
     ∧ ∃ r, row p b = Some r ∧ IStaticOld r = None).
Proof.
  unfold teardown_card. rewrite bind_get.
  destruct (row p b) as [r|] eqn:Hrow.
  - destruct (IStaticOld r) as [image|] eqn:Himage.
    + left.
      destruct (delete_with_banner p b r Hrow) as
        (b' & Hrun & Hrows & Hctl & _ & Hcomp); [by rewrite Himage|].
      rewrite (bind_inr _ _ _ _ _ Hrun).
      eexists. split; [reflexivity|]. split_and!.
      * by rewrite row_set_row, decide_True.
      * intros q Hq. by rewrite row_set_row, decide_False.
      * by destruct p.
      * by destruct p.
      * intros r' [= <-]. by rewrite Himage.
    + right. split; [|by exists r].
      unfold mbind, M_bind. by rewrite (delete_without_banner p b r Hrow Himage).
  - left. exists b. split_and!; try done.
Qed.

(** The two outcomes of [_teardown_cards]. *)
Lemma teardown_cards_cases (b : boardFixed.t) :
  ((∀ p r, row p b = Some r → is_Some (IStaticOld r)) →
   ∃ b', _teardown_cards b = (inr tt, b')
         ∧ (∀ q, row q b' = None)
         ∧ same_controller b b'
         ∧ composed_images b' ⊆ composed_images b)
  ∧ (∀ p r, row p b = Some r → IStaticOld r = None →
      ∃ b', _teardown_cards b = (inl (mkExn AttributeError "IStaticOld"), b')
            ∧ row p b' = Some r).
Proof.
  unfold _teardown_cards.
  destruct (teardown_card_cases Top b) as
    [(b1 & Hrun1 & Hp1 & Hq1 & Hc1 & Hi1 & Hb1)|(Hrun1 & r1 & Hr1 & Hn1)].
  2:{ split.
      - intros Hall. destruct (Hall Top r1 Hr1) as [? ?]. congruence.
      - intros p r Hp Hn. exists b. unfold mbind, M_bind. rewrite Hrun1.
        done. }
  rewrite (bind_inr _ _ _ _ _ Hrun1).
  destruct (teardown_card_cases Middle b1) as
    [(b2 & Hrun2 & Hp2 & Hq2 & Hc2 & Hi2 & Hb2)|(Hrun2 & r2 & Hr2 & Hn2)].
  2:{ split.
      - intros Hall. rewrite Hq1 in Hr2 by done.
        destruct (Hall Middle r2 Hr2) as [? ?]. congruence.
      - intros p r Hp Hn. exists b1. unfold mbind, M_bind. rewrite Hrun2.
        split; [done|]. destruct p.
        + destruct (Hb1 r Hp) as [? ?]. congruence.
        + by rewrite Hq1.
        + by rewrite Hq1. }
  rewrite (bind_inr _ _ _ _ _ Hrun2).
  destruct (teardown_card_cases Bottom b2) as
    [(b3 & Hrun3 & Hp3 & Hq3 & Hc3 & Hi3 & Hb3)|(Hrun3 & r3 & Hr3 & Hn3)].
  2:{ split.
      - intros Hall. rewrite Hq2, Hq1 in Hr3 by done.
        destruct (Hall Bottom r3 Hr3) as [? ?]. congruence.
      - intros p r Hp Hn. exists b2. rewrite Hrun3.
        split; [done|]. destruct p.
        + destruct (Hb1 r Hp) as [? ?]. congruence.
        + rewrite <- Hq1 in Hp by done.
          destruct (Hb2 r Hp) as [? ?]. congruence.
        + by rewrite Hq2, Hq1. }
  rewrite Hrun3. split.
  - intros _. exists b3. split_and!; [done| | |].
    + intros []; [by rewrite Hq3, Hq2|by rewrite Hq3|done].
    + unfold same_controller in *. destruct_and!. split_and!; congruence.
    + by repeat (etrans; [eassumption|]).
  - intros p r Hp Hn. exfalso. destruct p.
    + destruct (Hb1 r Hp) as [? ?]. congruence.
    + rewrite <- Hq1 in Hp by done. destruct (Hb2 r Hp) as [? ?]. congruence.
    + rewrite <- Hq1, <- Hq2 in Hp by done.
      destruct (Hb3 r Hp) as [? ?]. congruence.
Qed.


(** X7.  [_teardown_cards] returns exactly when every row still has its
    banner attribute, which a row deletes at the end of its opening: it
    then leaves no row and composes nothing.  When a row has no banner
    attribute it raises [AttributeError], and that row stays. *)
Theorem teardown_cards_needs_banners (b : boardFixed.t) :
  ((∀ p r, row p b = Some r → is_Some (IStaticOld r)) →
   ∃ b', _teardown_cards b = (inr tt, b')
         ∧ (∀ q, row q b' = None)
         ∧ same_controller b b'
         ∧ composed_images b' ⊆ composed_images b)
  ∧ (∀ p r, row p b = Some r → IStaticOld r = None →
      ∃ e b', _teardown_cards b = (inl e, b')
              ∧ exn_cls e = AttributeError
              ∧ row p b' = Some r).
Proof.
  destruct (teardown_cards_cases b) as [Hok Hraise]. split; [exact Hok|].
  intros p r Hrow Hbanner.
  destruct (Hraise p r Hrow Hbanner) as (b' & Hrun & Hrow').
  exists (mkExn AttributeError "IStaticOld"), b'. by rewrite Hrun.
Qed.

Lemma teardown_cards_needs_banners_witness :
  ∃ e b', _teardown_cards sample_running_board = (inl e, b')
          ∧ exn_cls e = AttributeError.
Proof.
  destruct (top sample_running_board) as [r|] eqn:Hrow;
    [|vm_compute in Hrow; discriminate].
  destruct (proj2 (teardown_cards_needs_banners sample_running_board)
              Top r Hrow) as (e & b' & Hrun & Hcls & _).
  { vm_compute in Hrow. injection Hrow as <-. reflexivity. }
  exists e, b'. split; [exact Hrun|exact Hcls].
Defined.

Section WithConfig.
Context (Args : Config) (device : Device).

(** An outage is reported on a board that shows none, while a row has no
    banner attribute. *)
Lemma show_outage_raises (reason : string) (details : option string)
    (b : boardFixed.t) (p : slot) (r : ScrollTime.t) :
  outage_state b = None → row p b = Some r → IStaticOld r = None →
  ∃ b', show_outage device reason details b
        = (inl (mkExn AttributeError "IStaticOld"), b').
Proof.
  intros Hout Hrow Hbanner. unfold show_outage.
  rewrite bind_get, Hout. simpl.
  rewrite bind_pass, !bind_modify.
  match goal with |- context [_teardown_cards ≫= ?k] => set (rest := k) end.
  match goal with |- ∃ b', (_ ≫= _) ?b0 = _ => set (b1 := b0) end.
  assert (Hrow1 : row p b1 = Some r) by (by destruct p).
  destruct (proj2 (teardown_cards_cases b1) p r Hrow1 Hbanner)
    as (b' & Hrun & _).
  exists b'. unfold mbind, M_bind. by rewrite Hrun.
Qed.

(** X8.  A failed fetch is reported after a row has finished its opening:
    the frame that takes the error from the queue raises [AttributeError]
    in the teardown of the rows, and the tick loop, which handles no
    exception, ends. *)
Theorem outage_after_opening_ends_run (env : TickEnv) (b : boardFixed.t)
    (reason details : string) (p : slot) (r : ScrollTime.t) :
  outage_state b = None →
  Queue.items (update_queue b) = [UError reason details] →
  row p b = Some r → IStaticOld r = None →
  ∃ e b', tick Args device env b = (inl e, b')
          ∧ exn_cls e = AttributeError.
Proof.
  intros Hout Hq Hrow Hbanner.
  assert (Hprocess : ∃ b', process_pending_updates Args device b
                           = (inl (mkExn AttributeError "IStaticOld"), b')).
  { unfold process_pending_updates.
    rewrite bind_get, Hq. simpl process_loop.
    rewrite bind_get. unfold Queue.empty. rewrite Hq.
    rewrite bool_decide_eq_false_2 by done.
    unfold mbind at 1, M_bind at 1, with_queue at 1, Queue.get_nowait.
    rewrite Hq.
    set (b1 := set_update_queue _ b).
    assert (Hrow1 : row p b1 = Some r) by (by destruct p).
    assert (Hraise : ∃ b', handle_update Args device (UError reason details) b1
                           = (inl (mkExn AttributeError "IStaticOld"), b')).
    { unfold handle_update.
      destruct (decide (reason = "wifi")) as [->|Hne].
      - unfold update_network_state. rewrite bind_get.
        replace (outage_state b1) with (@None string) by done. simpl.
        rewrite andb_false_r. simpl. rewrite !bind_modify.
        apply (show_outage_raises _ _ _ p r); [exact Hout| |exact Hbanner].
          destruct p; exact Hrow.
      - rewrite bind_get.
        destruct (decide (network_state b1 ≠ "online")).
        + unfold mbind, M_bind, modify. simpl.
          apply (show_outage_raises _ _ _ p r); [exact Hout| |exact Hbanner].
          destruct p; exact Hrow.
        + rewrite bind_pass.
          apply (show_outage_raises _ _ _ p r); [exact Hout| |exact Hbanner].
          destruct p; exact Hrow. }
    destruct Hraise as (b' & Hraise). exists b'.
    unfold mbind, M_bind. by rewrite Hraise. }
  destruct Hprocess as (b' & Hprocess).
  exists (mkExn AttributeError "IStaticOld"), b'.
  unfold tick. unfold mbind at 1, M_bind at 1. by rewrite Hprocess.
Qed.

End WithConfig.

Lemma outage_after_opening_ends_run_witness :
  ∃ e b', tick sample_config sample_device sample_tick_env
            sample_failed_fetch_board = (inl e, b')
          ∧ exn_cls e = AttributeError.
Proof.
  destruct (top sample_failed_fetch_board) as [r|] eqn:Hrow;
    [|vm_compute in Hrow; discriminate].
  apply (outage_after_opening_ends_run sample_config sample_device
           sample_tick_env sample_failed_fetch_board "api" "read timed out"
           Top r).
  - vm_compute. reflexivity.
  - vm_compute. reflexivity.
  - exact Hrow.
  - vm_compute in Hrow. injection Hrow as <-. reflexivity.
Defined.

End OutageProperties.
(** ** The outage overlay *)

Module OverlayProperties.
Import Partition Board WellFormed RotationFacts RowProperties OutageProperties
  Samples MoreSamples.

Lemma remove_first_None (id : nat) (l : list ComposableImage) :
  (∀ image, image ∈ l → img_id image ≠ id) → remove_first id l = None.
Proof.
  induction l as [|x l IH]; intros Hl; simpl; [done|].
  rewrite decide_False by (apply Hl; by left).
  rewrite IH; [done|]. intros image Hin. apply Hl. by right.
Qed.

Lemma remove_first_last (x : ComposableImage) (l : list ComposableImage) :
  (∀ image, image ∈ l → img_id image ≠ img_id x) →
  remove_first (img_id x) (l ++ [x]) = Some l.
Proof.
  induction l as [|y l IH]; intros Hl; simpl.
  - by rewrite decide_True.
  - rewrite decide_False by (apply Hl; by left).
    rewrite IH; [done|]. intros image Hin. apply Hl. by right.
Qed.

Lemma teardown_no_rows (b : boardFixed.t) :
  (∀ q, row q b = None) → _teardown_cards b = (inr tt, b).
Proof.
  intros Hrows. unfold _teardown_cards, teardown_card.
  unfold mbind, M_bind, get, pass, mret, M_ret.
  by rewrite (Hrows Top), (Hrows Middle), (Hrows Bottom).
Qed.

(** [_remove_if_present] returns; an image that is composed leaves the
    composition. *)
Lemma _remove_if_present_absent (image : ComposableImage) (b : boardFixed.t) :
  remove_first (img_id image) (composed_images b) = None →
  _remove_if_present (Some image) b = (inr tt, b).
Proof.
  intros Hrem. unfold _remove_if_present, try_excepts, remove_image.
  unfold mbind, M_bind, get. rewrite Hrem. done.
Qed.

Lemma _remove_if_present_composed (image : ComposableImage)
    (l : list ComposableImage) (b : boardFixed.t) :
  remove_first (img_id image) (composed_images b) = Some l →
  _remove_if_present (Some image) b = (inr tt, set_composed_images l b).
Proof.
  intros Hrem. unfold _remove_if_present, try_excepts, remove_image.
  unfold mbind, M_bind, get. rewrite Hrem. done.
Qed.

Section WithConfig.
Context (device : Device).

(** X9.  An outage on a board that has no rows and shows no outage (as at
    startup, when the first fetch fails), every composed image being an
    older object than the next one and the "no services" image not being
    composed.  [show_outage] returns: the outage and its details are
    recorded, the state is ["outage"], and the overlay, a new image built
    for the reason and the details, is composed on top.  Reporting the
    same outage again changes nothing.  [clear_outage] then removes the
    overlay and the record of the outage, and the composition is what it
    was: the overlay leaves no trace. *)
Theorem outage_shown_and_cleared (reason : string) (details : option string)
    (b : boardFixed.t) :
  (∀ q, row q b = None) →
  outage_state b = None → outage_overlay b = None →
  (∀ image, image ∈ composed_images b →
            (img_id image < next_image b)%nat ∧ img_id image ≠ 0%nat) →
  ∃ b1 overlay b2,
    show_outage device reason details b = (inr tt, b1)
    ∧ outage_state b1 = Some reason
    ∧ outage_details b1 = details
    ∧ State b1 = "outage"
    ∧ outage_overlay b1 = Some overlay
    ∧ img_content overlay = OutageImage reason details
    ∧ composed_images b1 = composed_images b ++ [overlay]
    ∧ show_outage device reason details b1 = (inr tt, b1)
    ∧ clear_outage device b1 = (inr tt, b2)
    ∧ outage_state b2 = None
    ∧ outage_details b2 = None
    ∧ outage_overlay b2 = None
    ∧ composed_images b2 = composed_images b
    ∧ (∀ q, row q b2 = None).
Proof.
  intros Hrows Hout Hoverlay Hids.
  assert (Hno0 : remove_first 0 (composed_images b) = None).
  { apply remove_first_None. intros image Hin. by destruct (Hids image Hin). }
  set (overlay := mkImage (next_image b) (OutageImage reason details) (0, 0)
                    (width device)).
  assert (Hlast : remove_first (next_image b) (composed_images b ++ [overlay])
                  = Some (composed_images b)).
  { apply (remove_first_last overlay). intros image Hin.
    destruct (Hids image Hin). simpl. lia. }
  set (b0 := set_outage_details details (set_outage_state (Some reason) b)).
  assert (Hshow : show_outage device reason details b
                  = (inr tt,
                     set_State "outage"
                       (set_composed_images (composed_images b ++ [overlay])
                          (set_outage_overlay (Some overlay)
                             (set_next_image (S (next_image b)) b0))))).
  { unfold show_outage. rewrite bind_get, Hout. simpl.
    rewrite bind_pass, !bind_modify. fold b0.
    assert (Hrows0 : ∀ q, row q b0 = None).
    { intros []; [exact (Hrows Top)|exact (Hrows Middle)|exact (Hrows Bottom)]. }
    rewrite (bind_inr _ _ _ _ _ (teardown_no_rows b0 Hrows0)).
    rewrite (bind_inr _ _ _ _ _
               (_remove_if_present_absent (NoServices device) b0 Hno0)).
    rewrite bind_get.
    replace (outage_overlay b0) with (@None ComposableImage) by done.
    simpl. rewrite bind_pass. unfold new_image, add_image, refresh_composition.
    unfold mbind, M_bind, modify, get, pass, mret, M_ret.
    done. }
  set (b1 := set_State "outage" _) in Hshow.
  assert (Hclear : ∃ b2, clear_outage device b1 = (inr tt, b2)
                         ∧ outage_state b2 = None
                         ∧ outage_details b2 = None
                         ∧ outage_overlay b2 = None
                         ∧ composed_images b2 = composed_images b
                         ∧ (∀ q, row q b2 = None)).
  { unfold clear_outage. rewrite bind_get. simpl.
    unfold try_excepts, remove_image.
    unfold mbind, M_bind, modify, get, pass, mret, M_ret. simpl.
    rewrite Hlast. simpl.
    destruct (bool_decide (Some reason = Some "wifi")
              || bool_decide (network_state b = "offline")); simpl;
      eexists; (split; [reflexivity|]); simpl; split_and!; try done;
      intros q; destruct q;
        first [exact (Hrows Top)|exact (Hrows Middle)|exact (Hrows Bottom)]. }
  destruct Hclear as (b2 & Hclear & Hc1 & Hc2 & Hc3 & Hc4 & Hc5).
  exists b1, overlay, b2. split; [exact Hshow|].
  split_and!; try done.
  unfold show_outage. rewrite bind_get. simpl.
  rewrite !bool_decide_eq_true_2 by done. done.
Qed.

End WithConfig.
Lemma outage_shown_and_cleared_witness :
  ∃ b1 b2,
    show_outage sample_device "api" (Some "503") (new_board 0) = (inr tt, b1)
    ∧ State b1 = "outage"
    ∧ clear_outage sample_device b1 = (inr tt, b2)
    ∧ composed_images b2 = [].
Proof.
  destruct (outage_shown_and_cleared sample_device "api" (Some "503")
              (new_board 0))
    as (b1 & overlay & b2 & Hshow & _ & _ & Hstate & _ & _ & _ & _ & Hclear
        & _ & _ & _ & Hcomp & _);
    [by intros []|reflexivity|reflexivity
    |intros image Hin; by apply elem_of_nil in Hin|].
  exists b1, b2. split; [exact Hshow|]. split; [exact Hstate|].
  split; [exact Hclear|exact Hcomp].
Defined.

End OverlayProperties.
(** ** New data for the services on show *)

Module DataProperties.
Import Partition Board WellFormed RotationFacts ReanchorFacts Samples
  MoreSamples.

Section WithConfig.
Context (Args : Config) (device : Device).

(** X15.  New data in which the services on show keep their places: the
    pinned service has the ID the top row shows, the ID the middle row
    shows is that of [rotating[k]], and the bottom row shows the ID of the
    service after it.  Then [update_display_with_new_data] changes nothing
    but the rotation index, which becomes [k]: no card is changed, and the
    rows keep the records they had, not the ones just fetched. *)
Theorem update_display_keeps_rows (b : boardFixed.t) (t m bt : ScrollTime.t)
    (pinned : Service) (rotating : list Service) (k : nat)
    (svc2 svc3 : Service) :
  top b = Some t → middle b = Some m → bottom b = Some bt →
  split_pinned_rotating (Services b) = (Some pinned, rotating) →
  ID pinned = ID (CurrentService t) →
  ID (CurrentService m) ≠ "0" →
  (1 < length rotating)%nat →
  rotating !! k = Some svc2 →
  ID svc2 = ID (CurrentService m) →
  rotating !! ((k + 1) `mod` length rotating)%nat = Some svc3 →
  ID svc3 = ID (CurrentService bt) →
  update_display_with_new_data Args device b
  = (inr tt, set_rotating_index (Z.of_nat k) b).
Proof.
  intros Htop Hmid Hbot Hsplit Hpin Hm0 Hlen Hk Hid2 Hk3 Hid3.
  pose proof (split_rotating_NoDup (Services b)) as Hnodup.
  rewrite Hsplit in Hnodup. simpl in Hnodup.
  pose proof (lookup_lt_Some _ _ _ Hk) as Hklt.
  unfold update_display_with_new_data.
  rewrite bind_get, Htop, Hsplit. cbv zeta.
  rewrite Hmid. rewrite (decide_True _ _ Hm0).
  rewrite decide_True by lia.
  assert (Hre : ∀ visible idx,
            reanchor rotating (Some (ID (CurrentService m))) visible idx
            = Z.of_nat k).
  { intros visible idx. unfold reanchor.
    assert (Hsome : Some (ID (CurrentService m)) ≠ Some "0") by congruence.
    rewrite !(decide_True _ _ Hsome).
    rewrite <- Hid2, (find_by_id_NoDup rotating svc2 k Hnodup Hk).
    by rewrite decide_True by lia. }
  rewrite Hre.
  assert (H1 : 1 < Z.of_nat (length rotating)) by lia.
  rewrite !(decide_True _ _ H1).
  assert (Hmod2 : Z.of_nat k `mod` Z.of_nat (length rotating) = Z.of_nat k)
    by (apply Z.mod_small; lia).
  assert (Hmod3 : (Z.of_nat k + 1) `mod` Z.of_nat (length rotating)
                  = Z.of_nat ((k + 1) `mod` length rotating)).
  { rewrite Nat2Z.inj_mod. f_equal. lia. }
  pose proof (lookup_lt_Some _ _ _ Hk3) as Hk3lt.
  rewrite Hmod2, Hmod3.
  assert (Hget2 : getitem rotating (Z.of_nat k) b = (inr svc2, b)).
  { apply getitem_Some. rewrite py_index_lookup by lia. by rewrite Nat2Z.id. }
  assert (Hget3 : getitem rotating (Z.of_nat ((k + 1) `mod` length rotating)) b
                  = (inr svc3, b)).
  { apply getitem_Some. rewrite py_index_lookup by lia. by rewrite Nat2Z.id. }
  rewrite (decide_True (P := 0 ≤ Z.of_nat ((k + 1) `mod` length rotating)))
    by lia.
  match goal with
  | |- (?calc ≫= ?rest) b = _ =>
      assert (Hcalc : calc b = (inr (Z.of_nat k, svc2, svc3), b))
  end.
  { rewrite (bind_inr _ _ _ _ _ Hget2).
    by rewrite (bind_inr _ _ _ _ _ Hget3). }
  rewrite (bind_inr _ _ _ _ _ Hcalc), bind_modify.
  rewrite (bool_decide_eq_false_2 (ID (CurrentService t) ≠ ID pinned))
    by (intros H; by apply H).
  rewrite andb_false_r.
  unfold mbind, M_bind, pass, get, mret, M_ret. simpl.
  rewrite Hmid, Hbot. simpl.
  rewrite Hid2, Hid3.
  rewrite bool_decide_eq_false_2 by (intros H; by apply H). simpl.
  rewrite bool_decide_eq_false_2 by (intros H; by apply H). done.
Qed.

End WithConfig.

Lemma update_display_keeps_rows_witness :
  update_display_with_new_data sample_config sample_device
    sample_board_refetched
  = (inr tt, set_rotating_index 0 sample_board_refetched).
Proof.
  destruct (top sample_board_refetched) as [t|] eqn:Ht;
    [|vm_compute in Ht; discriminate].
  destruct (middle sample_board_refetched) as [m|] eqn:Hm;
    [|vm_compute in Hm; discriminate].
  destruct (bottom sample_board_refetched) as [bt|] eqn:Hbt;
    [|vm_compute in Hbt; discriminate].
  apply (update_display_keeps_rows sample_config sample_device
           sample_board_refetched t m bt svA [svB'; svC] 0 svB' svC).
  - exact Ht.
  - exact Hm.
  - exact Hbt.
  - vm_compute. reflexivity.
  - vm_compute in Ht. injection Ht as <-. reflexivity.
  - vm_compute in Hm. injection Hm as <-. discriminate.
  - simpl. lia.
  - reflexivity.
  - vm_compute in Hm. injection Hm as <-. reflexivity.
  - reflexivity.
  - vm_compute in Hbt. injection Hbt as <-. reflexivity.
Defined.

End DataProperties.
(** ** The forced rotation and the frames that animate nothing *)

Module FrameProperties.
Import Partition Board WellFormed CardSpec RotationFacts OutageProperties
  OverlayProperties Samples MoreSamples.

Section WithConfig.
Context (Args : Config) (device : Device).

(** X11.  [force_rotation_cycle] on a board with its three rows.  During
    an outage, or with fewer than two rotating services, it changes
    nothing.  Otherwise it first advances the rotation index to
    [(i + 1) mod L], and then assigns the middle row the rotating service
    at the new index and the bottom row the one after it. *)
Theorem force_rotation_cycle_advances (b : boardFixed.t) (m bt : ScrollTime.t) :
  all_rows b → middle b = Some m → bottom b = Some bt →
  let rotating := (split_pinned_rotating (Services b)).2 in
  let L := Z.of_nat (length rotating) in
  let i := rotating_index b in
  if truthy (outage_state b) || bool_decide (L ≤ 1) then
    force_rotation_cycle Args device b = (inr tt, b)
  else
    ∃ b' m' bt' r2 r3,
      force_rotation_cycle Args device b = (inr tt, b')
      ∧ rotating_index b' = (i + 1) `mod` L
      ∧ rotating !! Z.to_nat ((i + 1) `mod` L) = Some r2
      ∧ rotating !! Z.to_nat (((i + 1) `mod` L + 1) `mod` L) = Some r3
      ∧ middle b' = Some m' ∧ bottom b' = Some bt' ∧ top b' = top b
      ∧ CurrentService m' = assigned (CurrentService m) r2
      ∧ CurrentService bt' = assigned (CurrentService bt) r3.
Proof.
  intros Hall Hm Hbt rotating L i. subst rotating L i.
  unfold force_rotation_cycle. rewrite bind_get.
  destruct (truthy (outage_state b)); [done|]. simpl.
  destruct (split_pinned_rotating (Services b)) as [pinned rotating] eqn:Hsplit.
  cbn [snd].
  assert (Hlen : (length rotating ≤ length (Services b) - 1)%nat).
  { destruct (Services b) as [|first tail]; [by injection Hsplit as <- <-|].
    pose proof (PartitionFacts.split_rotating_spec first tail) as Hspec.
    rewrite Hsplit in Hspec. simpl in Hspec. subst rotating.
    pose proof (sublist_length _ _
                  (PartitionFacts.rotating_spec_sublist first tail)).
    simpl. lia. }
  destruct (decide (Z.of_nat (length (Services b)) ≤ 1)) as [Hone|Hmany].
  { rewrite bool_decide_eq_true_2 by lia. done. }
  destruct (decide (Z.of_nat (length rotating) ≤ 1)) as [Hle|Hgt].
  { rewrite bool_decide_eq_true_2 by done. done. }
  rewrite bool_decide_eq_false_2 by done.
  assert (Hpos : 0 < Z.of_nat (length rotating)) by lia.
  rewrite bind_modify, bind_get. simpl.
  set (j := (rotating_index b + 1) `mod` Z.of_nat (length rotating)).
  pose proof (Z.mod_pos_bound (rotating_index b + 1) _ Hpos) as Hj.
  fold j in Hj.
  destruct (lookup_lt_is_Some_2 rotating (Z.to_nat j)) as [r2 Hr2]; [lia|].
  destruct (py_index_mod_Some rotating (j + 1) Hpos) as (r3 & Hget3 & Hr3).
  assert (Hget2 : py_index rotating j = Some r2)
    by (by rewrite py_index_lookup by lia).
  rewrite (bind_inr _ _ _ _ _ (getitem_Some rotating j r2 _ Hget2)).
  rewrite (bind_inr _ _ _ _ _ (getitem_Some _ _ _ _ Hget3)).
  set (b0 := set_rotating_index j b).
  destruct (change_two_cards Args device r2 r3 b0 m bt Hall Hm Hbt)
    as (b2 & m' & bt' & Hrun & Hm2 & Hbt2 & Ht2 & Hs2 & Hs3 & Hctl & _).
  exists b2, m', bt', r2, r3. split; [exact Hrun|].
  unfold same_controller in Hctl. destruct_and!. split_and!; try done.
Qed.


Lemma process_nothing (b : boardFixed.t) :
  Queue.items (update_queue b) = [] →
  process_pending_updates Args device b = (inr false, b).
Proof.
  intros Hq. unfold process_pending_updates. by rewrite bind_get, Hq.
Qed.

(** X13.  A frame during an outage, with nothing in the queue: no row is
    built or animated and nothing is drawn.  The frame only schedules a
    fetch, when one is due and none is scheduled. *)
Theorem tick_during_outage (env : TickEnv) (b : boardFixed.t) :
  truthy (outage_state b) = true →
  Queue.items (update_queue b) = [] →
  tick Args device env b
  = (inr tt,
     if TimePassed Args (now env) b
        && negb (bool_decide (_fetch_task b = Some false))
     then set_fetch_task (Some false) b else b).
Proof.
  intros Hout Hq. unfold tick.
  rewrite (bind_inr _ _ _ _ _ (process_nothing b Hq)), bind_get, Hout.
  unfold TimePassed, _schedule_fetch.
  destruct (FetchInProgress b) eqn:Hfetch; [done|].
  destruct (bool_decide (RequestLimit Args < now env - LastUpdate b)); [|done].
  unfold mbind, M_bind, get, modify, pass, mret, M_ret. simpl.
  destruct (bool_decide (_fetch_task b = Some false)); [done|].
  rewrite ?Hfetch. reflexivity.
Qed.

Lemma _remove_if_present_returns (image : option ComposableImage)
    (b : boardFixed.t) :
  ∃ b', _remove_if_present image b = (inr tt, b')
        ∧ (∀ q, row q b' = row q b)
        ∧ same_controller b b'.
Proof.
  destruct image as [image|]; [|by exists b].
  destruct (remove_first (img_id image) (composed_images b)) as [l|] eqn:Hrem.
  - rewrite (_remove_if_present_composed image l b Hrem).
    eexists. split; [done|]. split; [by intros []|done].
  - rewrite (_remove_if_present_absent image b Hrem). by exists b.
Qed.

(** X14.  A frame without an outage, with nothing in the queue and no
    service to show, on a board that is not yet ["dead"] and whose rows
    still have their banners: the rows are torn down, the "no services"
    image is composed and the board is ["dead"].  The frames that follow
    change nothing. *)
Theorem tick_without_services (env : TickEnv) (b : boardFixed.t) :
  truthy (outage_state b) = false →
  Queue.items (update_queue b) = [] →
  Services b = [] →
  State b ≠ "dead" →
  (∀ p r, row p b = Some r → is_Some (IStaticOld r)) →
  ∃ b', tick Args device env b = (inr tt, b')
        ∧ State b' = "dead"
        ∧ (∀ q, row q b' = None)
        ∧ NoServices device ∈ composed_images b'
        ∧ tick Args device env b' = (inr tt, b').
Proof.
  intros Hout Hq Hsvc Hstate Hbanners. unfold tick at 1.
  rewrite (bind_inr _ _ _ _ _ (process_nothing b Hq)), bind_get, Hout, Hsvc.
  simpl. rewrite (decide_True _ _ Hstate).
  destruct (_remove_if_present_returns (outage_overlay b) b)
    as (b1 & Hrun1 & Hrows1 & Hctl1).
  rewrite (bind_inr _ _ _ _ _ Hrun1).
  destruct (proj1 (teardown_cards_cases b1)) as
    (b2 & Hrun2 & Hrows2 & Hctl2 & _).
  { intros p r. rewrite Hrows1. apply Hbanners. }
  rewrite (bind_inr _ _ _ _ _ Hrun2).
  unfold add_image, mbind, M_bind, modify. simpl.
  eexists. split; [reflexivity|]. simpl.
  unfold same_controller in Hctl1, Hctl2. destruct_and!.
  split_and!; [done| | |].
  - intros []; [exact (Hrows2 Top)|exact (Hrows2 Middle)|exact (Hrows2 Bottom)].
  - rewrite elem_of_app. right. by left.
  - unfold tick.
    match goal with
    | |- (_ ≫= _) ?bd = _ =>
        assert (Hqd : Queue.items (update_queue bd) = []) by (simpl; congruence);
        rewrite (bind_inr _ _ _ _ _ (process_nothing bd Hqd))
    end.
    rewrite bind_get. simpl.
    replace (outage_state b2) with (outage_state b) by congruence.
    rewrite Hout.
    replace (Services b2) with (@nil Service) by congruence.
    simpl. done.
Qed.

End WithConfig.
Lemma sample_board_all_rows : all_rows sample_board.
Proof. repeat split; vm_compute; eauto. Qed.

Lemma force_rotation_cycle_advances_witness :
  ∃ b' m' bt',
    force_rotation_cycle sample_config sample_device sample_board
    = (inr tt, b')
    ∧ rotating_index b' = 1
    ∧ middle b' = Some m' ∧ bottom b' = Some bt'
    ∧ CurrentService m' = svC ∧ CurrentService bt' = svB.
Proof.
  destruct (middle sample_board) as [m|] eqn:Hm;
    [|vm_compute in Hm; discriminate].
  destruct (bottom sample_board) as [bt|] eqn:Hbt;
    [|vm_compute in Hbt; discriminate].
  pose proof (force_rotation_cycle_advances sample_config sample_device
                sample_board m bt sample_board_all_rows Hm Hbt) as H.
  cbv zeta in H.
  assert (Hc : truthy (outage_state sample_board)
               || bool_decide
                    (Z.of_nat
                       (length (split_pinned_rotating (Services sample_board)).2)
                     ≤ 1) = false) by (vm_compute; reflexivity).
  rewrite Hc in H.
  destruct H as (b' & m' & bt' & r2 & r3 & Hrun & Hidx & Hr2 & Hr3 & Hm' & Hbt'
                 & _ & Hs2 & Hs3).
  exists b', m', bt'. split; [exact Hrun|].
  vm_compute in Hr2, Hr3. injection Hr2 as <-. injection Hr3 as <-.
  vm_compute in Hm, Hbt. injection Hm as <-. injection Hbt as <-.
  split; [exact Hidx|]. split; [exact Hm'|]. split; [exact Hbt'|].
  split; [exact Hs2|exact Hs3].
Defined.

Lemma tick_during_outage_witness :
  tick sample_config sample_device sample_tick_env sample_outage_board
  = (inr tt, set_fetch_task (Some false) sample_outage_board).
Proof.
  rewrite (tick_during_outage sample_config sample_device sample_tick_env
             sample_outage_board).
  - reflexivity.
  - vm_compute. reflexivity.
  - vm_compute. reflexivity.
Defined.

Lemma tick_without_services_witness :
  ∃ b', tick sample_config sample_device sample_tick_env (new_board 0)
        = (inr tt, b')
        ∧ State b' = "dead"
        ∧ tick sample_config sample_device sample_tick_env b' = (inr tt, b').
Proof.
  destruct (tick_without_services sample_config sample_device sample_tick_env
              (new_board 0))
    as (b' & Hrun & Hstate & _ & _ & Hagain);
    [reflexivity|reflexivity|reflexivity|discriminate
    |intros [] r Hr; discriminate Hr|].
  exists b'. split; [exact Hrun|]. split; [exact Hstate|exact Hagain].
Defined.

End FrameProperties.
(** ** Inactive hours *)

Module ClockProperties.
Import Clock.

Lemma time_eq (a b : time) :
  a = b ↔ hour a = hour b ∧ minute a = minute b ∧ second a = second b
          ∧ microsecond a = microsecond b.
Proof.
  split; [by intros ->|].
  destruct a, b. simpl. intros (-> & -> & -> & ->). done.
Qed.

Lemma time_lt_trichotomy (a b : time) : time_lt a b ∨ a = b ∨ time_lt b a.
Proof. rewrite time_eq. unfold time_lt. lia. Qed.

Lemma time_lt_asym (a b : time) : time_lt a b → ¬ time_le b a.
Proof. unfold time_le. rewrite time_eq. unfold time_lt. lia. Qed.

Lemma time_lt_le_trans (a b c : time) : time_le a b → time_le b c → time_le a c.
Proof. unfold time_le. rewrite !time_eq. unfold time_lt. lia. Qed.

Lemma time_le_refl (a : time) : time_le a a.
Proof. by right. Qed.

Lemma time_le_antisym (a b : time) : time_le a b → time_le b a → a = b.
Proof. unfold time_le. rewrite !time_eq. unfold time_lt. lia. Qed.

Lemma time_lt_not_both (a b : time) : time_lt a b → time_lt b a → False.
Proof. unfold time_lt. lia. Qed.

(** X16.  [is_time_between] for the inactive hours from [a] to [b].  When
    [a] is before [b] the inactive times are those from [a] to [b], both
    included; otherwise the window crosses midnight and they are the times
    from [a] on and those up to [b].  With [a = b] every time of day is
    inactive.  The windows from [a] to [b] and from [b] to [a] together
    cover the day, and when [a] and [b] differ they share the two end
    points only. *)
Theorem is_time_between_windows (a b c : time) :
  (time_lt a b → is_time_between (a, b) c = true ↔ time_le a c ∧ time_le c b)
  ∧ (¬ time_lt a b →
     is_time_between (a, b) c = true ↔ time_le a c ∨ time_le c b)
  ∧ is_time_between (a, a) c = true
  ∧ is_time_between (a, b) c || is_time_between (b, a) c = true
  ∧ (a ≠ b →
     is_time_between (a, b) c && is_time_between (b, a) c = true
     ↔ c = a ∨ c = b).
Proof.
  unfold is_time_between. simpl.
  split_and!.
  - intros Hlt. rewrite decide_True by done.
    by rewrite andb_true_iff, !bool_decide_eq_true.
  - intros Hlt. rewrite decide_False by done.
    by rewrite orb_true_iff, !bool_decide_eq_true.
  - destruct (decide (time_lt a a)) as [Hlt|_].
    { revert Hlt. unfold time_lt. lia. }
    rewrite orb_true_iff, !bool_decide_eq_true.
    unfold time_le. rewrite !time_eq. unfold time_lt. lia.
  - destruct (decide (time_lt a b)) as [Hab|Hab],
             (decide (time_lt b a)) as [Hba|Hba];
      rewrite ?orb_true_iff, ?andb_true_iff, ?bool_decide_eq_true;
      revert Hab Hba; unfold time_le; rewrite ?time_eq; unfold time_lt; lia.
  - intros Hne. rewrite andb_true_iff.
    destruct (decide (time_lt a b)) as [Hab|Hab],
             (decide (time_lt b a)) as [Hba|Hba];
      rewrite ?orb_true_iff, ?andb_true_iff, ?bool_decide_eq_true.
    + destruct (time_lt_not_both a b Hab Hba).
    + split.
      * intros [[Hac Hcb] [Hbc|Hca]].
        -- right. by apply time_le_antisym.
        -- left. by apply time_le_antisym.
      * intros [->| ->].
        -- split; [split; [apply time_le_refl|by left]|].
           right. apply time_le_refl.
        -- split; [split; [by left|apply time_le_refl]|].
           left. apply time_le_refl.
    + split.
      * intros [[Hac|Hcb] [Hbc Hca]].
        -- left. by apply time_le_antisym.
        -- right. by apply time_le_antisym.
      * intros [->| ->].
        -- split; [left; apply time_le_refl|].
           split; [by left|apply time_le_refl].
        -- split; [right; apply time_le_refl|].
           split; [apply time_le_refl|by left].
    + destruct (time_lt_trichotomy a b) as [?|[?|?]]; done.
Qed.

Lemma is_time_between_windows_witness :
  is_time_between (mkTime 22 0 0 0, mkTime 6 0 0 0) (mkTime 23 30 0 0) = true.
Proof.
  apply (proj1 (proj2 (is_time_between_windows (mkTime 22 0 0 0)
                         (mkTime 6 0 0 0) (mkTime 23 30 0 0)))).
  - unfold time_lt. simpl. lia.
  - left. unfold time_le, time_lt. simpl. lia.
Defined.

End ClockProperties.
(** ** Requests that do not rotate, and the recovery from an outage *)

Module RecoveryProperties.
Import Partition Board WellFormed CardSpec RotationFacts BuildProperties
  OutageProperties OverlayProperties FrameProperties Samples MoreSamples.

Section WithConfig.
Context (Args : Config) (device : Device).

(** X12.  A request for a card change, from any row, rotates nothing while
    an outage is shown or a fetch is due.  During an outage it changes
    nothing at all; when a fetch is due it schedules one, unless one is
    scheduled already, and leaves the rows and the rotation index as they
    are. *)
Theorem requestCardChange_defers (now : Z) (card : slot) (row : Z)
    (b : boardFixed.t) :
  truthy (outage_state b) = true ∨ TimePassed Args now b = true →
  ∃ b',
    requestCardChange Args device now card row b = (inr tt, b')
    ∧ (∀ q, boardFixed.row q b' = boardFixed.row q b)
    ∧ rotating_index b' = rotating_index b
    ∧ Services b' = Services b
    ∧ composed_images b' = composed_images b
    ∧ (truthy (outage_state b) = true → b' = b)
    ∧ (truthy (outage_state b) = false → _fetch_task b' = Some false).
Proof.
  intros Hcase. unfold requestCardChange. rewrite bind_get.
  destruct (truthy (outage_state b)) eqn:Hout.
  { exists b. split_and!; done. }
  destruct Hcase as [?|Htime]; [done|]. rewrite Htime.
  unfold TimePassed in Htime.
  destruct (FetchInProgress b) eqn:Hfetch; [done|].
  unfold _schedule_fetch, mbind, M_bind, get, modify, pass, mret, M_ret.
  destruct (bool_decide (_fetch_task b = Some false)) eqn:Htask; simpl.
  - apply bool_decide_eq_true in Htask. exists b. split_and!; done.
  - rewrite Hfetch. simpl. eexists. split; [reflexivity|].
    split_and!; done.
Qed.


Lemma _remove_if_present_eq (image : ComposableImage) (b : boardFixed.t) :
  _remove_if_present (Some image) b
  = (inr tt,
     set_composed_images (remove_if_present image (composed_images b)) b).
Proof.
  unfold remove_if_present.
  destruct (remove_first (img_id image) (composed_images b)) as [l|] eqn:Hrem.
  - by rewrite (_remove_if_present_composed image l b Hrem).
  - rewrite (_remove_if_present_absent image b Hrem). by destruct b.
Qed.

(** [clear_outage] on a board that is not ["dead"]. *)
Lemma clear_outage_spec (b : boardFixed.t) :
  State b ≠ "dead" →
  ∃ b', clear_outage device b = (inr tt, b')
        ∧ outage_state b' = None
        ∧ outage_details b' = None
        ∧ outage_overlay b' = None
        ∧ (∀ q, boardFixed.row q b' = boardFixed.row q b)
        ∧ Services b' = Services b
        ∧ update_queue b' = update_queue b
        ∧ State b' = State b
        ∧ (network_state b = "online" → network_state b' = "online").
Proof.
  intros Hstate. unfold clear_outage. rewrite bind_get.
  destruct (outage_overlay b) as [overlay|] eqn:Hov.
  - rewrite (bind_inr _ _ _ _ _
               (bind_inr _ _ _ _ _ (_remove_if_present_eq overlay b))).
    unfold mbind, M_bind, get, modify, pass, mret, M_ret. simpl.
    destruct (bool_decide (outage_state b = Some "wifi")
              || bool_decide (network_state b = "offline")); simpl;
      rewrite (decide_False _ _ Hstate);
      eexists; (split; [reflexivity|]); simpl; split_and!; try done;
      by intros [].
  - unfold mbind, M_bind, get, modify, pass, mret, M_ret. simpl.
    destruct (bool_decide (outage_state b = Some "wifi")
              || bool_decide (network_state b = "offline")); simpl;
      rewrite (decide_False _ _ Hstate);
      eexists; (split; [reflexivity|]); simpl; split_and!; try done;
      by intros [].
Qed.



(** [update_network_state(True)] on a board that is not ["dead"]. *)
Lemma update_network_state_online (b : boardFixed.t) :
  State b ≠ "dead" →
  ∃ b', update_network_state device true None b = (inr tt, b')
        ∧ network_state b' = "online"
        ∧ (∀ q, boardFixed.row q b' = boardFixed.row q b)
        ∧ Services b' = Services b
        ∧ update_queue b' = update_queue b
        ∧ State b' = State b
        ∧ (outage_state b' = None ∧ outage_overlay b' = None
           ∨ outage_state b' = outage_state b).
Proof.
  intros Hstate. unfold update_network_state. rewrite bind_get.
  destruct (bool_decide (network_state b ≠ "online")
            || bool_decide (outage_state b = Some "wifi")) eqn:Hcond.
  - rewrite !bind_modify.
    destruct (decide (outage_state b = Some "wifi")) as [Hwifi|Hother].
    + destruct (clear_outage_spec
                  (set_network_details None (set_network_state "online" b))
                  Hstate)
        as (b' & Hrun & Hout & _ & Hov & Hrows & Hsvc & Hq & Hst & Hnet).
      exists b'. split; [exact Hrun|]. split_and!; try done.
      * by apply Hnet.
      * by left.
    + eexists. split; [reflexivity|]. simpl. split_and!; try done. by right.
  - apply orb_false_iff in Hcond as [Hnet _].
    apply bool_decide_eq_false in Hnet.
    exists b. split; [done|]. split_and!; try done.
    + by destruct (decide (network_state b = "online")).
    + by right.
Qed.

(** What [set_initial_cards] builds, and what it leaves alone. *)
Lemma set_initial_cards_total (b : boardFixed.t) :
  ∃ b' t m l,
    set_initial_cards Args device b = (inr tt, b')
    ∧ top b' = Some t ∧ middle b' = Some m ∧ bottom b' = Some l
    ∧ CurrentService t
      = default LiveTimeStud (split_pinned_rotating (Services b)).1
    ∧ CurrentService m
      = default LiveTimeStud ((split_pinned_rotating (Services b)).2 !! 0%nat)
    ∧ CurrentService l
      = default LiveTimeStud ((split_pinned_rotating (Services b)).2 !! 1%nat)
    ∧ State b' = "alive"
    ∧ Services b' = Services b
    ∧ outage_state b' = outage_state b
    ∧ outage_overlay b' = outage_overlay b
    ∧ network_state b' = network_state b
    ∧ update_queue b' = update_queue b.
Proof.
  unfold set_initial_cards. rewrite bind_get.
  destruct (split_pinned_rotating (Services b)) as [pinned rotating]. simpl.
  destruct (ScrollTime_init_spec Args device (default LiveTimeStud pinned)
              LiveTimeStud (Delay Args) 0 b)
    as (t & b1 & Hrun1 & Hsvc1 & _ & _ & _ & _ & _ & _ & Hc1 & _).
  rewrite (bind_inr _ _ _ _ _ Hrun1), bind_modify.
  rewrite (bind_inr _ _ _ _ _ (getitem_or_blank rotating 0 _)).
  destruct (ScrollTime_init_spec Args device
              (default LiveTimeStud (rotating !! 0%nat))
              LiveTimeStud (Delay Args) 1 (set_top (Some t) b1))
    as (m & b2 & Hrun2 & Hsvc2 & _ & _ & _ & _ & _ & _ & Hc2 & Htop2 & _).
  rewrite (bind_inr _ _ _ _ _ Hrun2), bind_modify.
  rewrite (bind_inr _ _ _ _ _ (getitem_or_blank rotating 1 _)).
  destruct (ScrollTime_init_spec Args device
              (default LiveTimeStud (rotating !! 1%nat))
              LiveTimeStud (Delay Args) 2 (set_middle (Some m) b2))
    as (l & b3 & Hrun3 & Hsvc3 & _ & _ & _ & _ & _ & _ & Hc3 & Htop3 & Hmid3 & _).
  rewrite (bind_inr _ _ _ _ _ Hrun3).
  unfold addPartner, modify_row, mbind, M_bind, modify. simpl.
  simpl in Htop2, Htop3, Hmid3. rewrite Htop3, Htop2, Hmid3. simpl.
  eexists _, _, _, _. split; [reflexivity|]. simpl.
  unfold same_controller in Hc1, Hc2, Hc3. simpl in Hc2, Hc3. destruct_and!.
  split_and!; try done; congruence.
Qed.

(** X17.  Data arrives during an outage (no rows, the board not
    ["dead"]): the handling of the item records the services, marks the
    network online, clears the outage and its overlay, and builds the
    three rows from the new services; the board is ["alive"] again. *)
Theorem data_after_outage_rebuilds (data : list Service) (b : boardFixed.t) :
  truthy (outage_state b) = true →
  State b ≠ "dead" →
  (∀ q, boardFixed.row q b = None) →
  data ≠ [] →
  ∃ b' t m l,
    handle_update Args device (UData data) b = (inr tt, b')
    ∧ Services b' = data
    ∧ outage_state b' = None
    ∧ outage_overlay b' = None
    ∧ network_state b' = "online"
    ∧ State b' = "alive"
    ∧ top b' = Some t ∧ middle b' = Some m ∧ bottom b' = Some l
    ∧ CurrentService t = default LiveTimeStud (split_pinned_rotating data).1
    ∧ CurrentService m
      = default LiveTimeStud ((split_pinned_rotating data).2 !! 0%nat)
    ∧ CurrentService l
      = default LiveTimeStud ((split_pinned_rotating data).2 !! 1%nat).
Proof.
  intros Hout Hstate Hrows Hdata. unfold handle_update.
  rewrite bind_get.
  rewrite (bool_decide_eq_true_2 (Services b ≠ [] ∨ data ≠ [])) by by right.
  set (b1 := set_Services data b).
  destruct (update_network_state_online b1 Hstate)
    as (b2 & Hrun2 & Hnet2 & Hrows2 & Hsvc2 & _ & Hst2 & Hout2).
  assert (Hstep3 : ∃ b3,
            (if truthy (outage_state b2) then clear_outage device else pass) b2
            = (inr tt, b3)
            ∧ outage_state b3 = None ∧ outage_overlay b3 = None
            ∧ network_state b3 = "online"
            ∧ (∀ q, boardFixed.row q b3 = None)
            ∧ Services b3 = data).
  { destruct (truthy (outage_state b2)) eqn:Htruthy.
    - destruct (clear_outage_spec b2) as
        (b3 & Hrun3 & Ho3 & _ & Hov3 & Hrows3 & Hsvc3 & _ & _ & Hnet3).
      { by rewrite Hst2. }
      exists b3. split; [exact Hrun3|]. split_and!; try done.
      + by apply Hnet3.
      + intros q. rewrite Hrows3, Hrows2.
        destruct q; [exact (Hrows Top)|exact (Hrows Middle)|exact (Hrows Bottom)].
      + by rewrite Hsvc3, Hsvc2.
    - destruct Hout2 as [[Ho Hov]|Hsame].
      + exists b2. split; [done|]. split_and!; try done.
        intros q. rewrite Hrows2.
        destruct q; [exact (Hrows Top)|exact (Hrows Middle)|exact (Hrows Bottom)].
      + rewrite Hsame in Htruthy. simpl in Htruthy. congruence. }
  destruct Hstep3 as (b3 & Hrun3 & Ho3 & Hov3 & Hnet3 & Hrows3 & Hsvc3).
  destruct (set_initial_cards_total b3)
    as (b' & t & m & l & Hrun4 & Ht & Hm & Hl & Hs1 & Hs2 & Hs3 & Hst4
        & Hsvc4 & Ho4 & Hov4 & Hnet4 & _).
  exists b', t, m, l. split.
  { rewrite bind_modify. fold b1.
    rewrite (bind_inr _ _ _ _ _ Hrun2), bind_get.
    rewrite (bind_inr _ _ _ _ _ Hrun3), bind_get.
    pose proof (Hrows3 Top) as Htop3. simpl in Htop3. rewrite Htop3.
    rewrite (bind_inr _ _ _ _ _ (teardown_no_rows b3 Hrows3)).
    exact Hrun4. }
  rewrite Hsvc3 in Hs1, Hs2, Hs3.
  split_and!; try done; congruence.
Qed.

End WithConfig.

Lemma requestCardChange_defers_witness :
  ∃ b',
    requestCardChange sample_config sample_device 110 Middle 2 sample_board
    = (inr tt, b')
    ∧ rotating_index b' = rotating_index sample_board
    ∧ _fetch_task b' = Some false.
Proof.
  destruct (requestCardChange_defers sample_config sample_device 110 Middle 2
              sample_board)
    as (b' & Hrun & _ & Hidx & _ & _ & _ & Htask);
    [right; vm_compute; reflexivity|].
  exists b'. split; [exact Hrun|]. split; [exact Hidx|].
  apply Htask. vm_compute. reflexivity.
Defined.

Lemma data_after_outage_rebuilds_witness :
  ∃ b', handle_update sample_config sample_device (UData [svA; svB; svC])
          sample_outage_board = (inr tt, b')
        ∧ Services b' = [svA; svB; svC]
        ∧ outage_state b' = None
        ∧ State b' = "alive".
Proof.
  destruct (data_after_outage_rebuilds sample_config sample_device
              [svA; svB; svC] sample_outage_board)
    as (b' & t & m & l & Hrun & Hsvc & Hout & _ & _ & Hstate & _).
  - vm_compute. reflexivity.
  - vm_compute. discriminate.
  - intros []; vm_compute; reflexivity.
  - discriminate.
  - exists b'. split; [exact Hrun|]. split; [exact Hsvc|].
    split; [exact Hout|exact Hstate].
Defined.

End RecoveryProperties.
